(** * POReceiptShortcut: the purchase-order receipt workflow

    A shallow embedding of the H5 script [POReceiptShortcut.js]: the
    quantity parser [num], the Save handlers of the serial and lot
    dialogs, the already-registered checks [checkSer]/[checkLot], the
    equipment creation [addEquip] with its compensation
    [rollbackEquipment], the receipt engine [process] and the main flow
    [run].

    Conventions of the embedding.
    - A JavaScript value that the script only tests for truthiness,
      compares with a string literal or interpolates is an
      [option string]: [None] stands for [undefined]/[null].
    - A string is a sequence of code units below 256.
    - A JavaScript number is the exact rational it denotes; the rounding
      of [parseFloat] to a double is not modelled.
    - [this] is an object used as a map from field codes to values: a
      [gmap string string] (an absent key reads as [undefined]).
    - The MI service is a deterministic oracle over the history of the
      calls issued so far; every call is appended to the trace [calls].
    - [Promise.all] over [arr.map(...)] issues every request in array
      order and then delivers the responses in an arrival order chosen
      by the environment (a [list nat] of picks, see [arrival]). *)

From Stdlib Require Import QArith Qround.
From stdpp Require Import base option list strings gmap pretty.
From Stdlib Require Import Ascii String Lia.

Local Open Scope string_scope.
Local Open Scope list_scope.

(** ** JavaScript values and strings *)

Definition JsVal := option string.

(** [!v] is false exactly for a non-empty string. *)
Definition truthy (v : JsVal) : bool :=
  match v with
  | Some s => negb (String.eqb s "")
  | None => false
  end.

(** [`${v}`] *)
Definition str (v : JsVal) : string := default "undefined" v.

(** [v === lit] *)
Definition jsEq (v : JsVal) (lit : string) : bool :=
  match v with
  | Some s => String.eqb s lit
  | None => false
  end.

Definition chars (s : string) : list ascii := list_ascii_of_string s.
Definition unchars (l : list ascii) : string := string_of_list_ascii l.

Definition code (c : ascii) : nat := nat_of_ascii c.

Definition isDigit (c : ascii) : bool := (48 <=? code c)%nat && (code c <=? 57)%nat.
Definition isUpper (c : ascii) : bool := (65 <=? code c)%nat && (code c <=? 90)%nat.
Definition isHyphen (c : ascii) : bool := (code c =? 45)%nat.
Definition isDot (c : ascii) : bool := (code c =? 46)%nat.

(** White space removed by [String.prototype.trim] (code units below 256). *)
Definition isSpace (c : ascii) : bool :=
  let n := code c in
  ((9 <=? n)%nat && (n <=? 13)%nat) || (n =? 32)%nat || (n =? 160)%nat.

Fixpoint dropSpace (l : list ascii) : list ascii :=
  match l with
  | [] => []
  | c :: t => if isSpace c then dropSpace t else l
  end.

(** [s.trim()] *)
Definition trim (s : string) : string :=
  unchars (rev (dropSpace (rev (dropSpace (chars s))))).

(** ** [num]: the quantity parser *)

(** [s.replace(/[^\d.-]/g, '')] *)
Definition keepNumeric (c : ascii) : bool := isDigit c || isDot c || isHyphen c.

Definition stripNonNumeric (s : string) : list ascii :=
  List.filter keepNumeric (chars s).

Fixpoint takeDigits (l : list ascii) : list ascii * list ascii :=
  match l with
  | [] => ([], [])
  | c :: t =>
      if isDigit c then let '(d, r) := takeDigits t in (c :: d, r)
      else ([], l)
  end.

Definition digitVal (c : ascii) : Z := Z.of_nat (code c - 48).

(** Value of a run of decimal digits, most significant first. *)
Definition digitsZ (d : list ascii) : Z :=
  fold_left (fun acc c => 10 * acc + digitVal c)%Z d 0%Z.

(** [parseFloat] on a string over the alphabet left by [stripNonNumeric]
    (digits, dot, minus): the longest prefix of the shape
    [-? (digits (. digits?)? | . digits)]; [None] is [NaN]. *)
Definition parseFloat (l : list ascii) : option Q :=
  let '(neg, l1) :=
    match l with
    | c :: t => if isHyphen c then (true, t) else (false, l)
    | [] => (false, l)
    end in
  let '(ip, l2) := takeDigits l1 in
  let fp :=
    match l2 with
    | c :: t => if isDot c then fst (takeDigits t) else []
    | [] => []
    end in
  match ip, fp with
  | [], [] => None
  | _, _ =>
      let m := (digitsZ ip * 10 ^ Z.of_nat (List.length fp) + digitsZ fp)%Z in
      let q := Qred (Qmake m (Z.to_pos (10 ^ Z.of_nat (List.length fp)))) in
      Some (if neg then Qopp q else q)
  end.

(** [parseFloat((value || '0').toString().replace(/[^\d.-]/g, '')) || 0] *)
Definition num (value : JsVal) : Q :=
  let s := if truthy value then str value else "0" in
  match parseFloat (stripNonNumeric s) with
  | Some q => if Qeq_bool q 0 then 0%Q else q
  | None => 0%Q
  end.

Definition Qgtb (a b : Q) : bool := negb (Qle_bool a b).

(** ** The serial and lot dialogs: Save handlers *)

(** [/^[A-Z0-9\-]+$/.test(s)] *)
Definition serialChar (c : ascii) : bool := isUpper c || isDigit c || isHyphen c.

Definition matchesSerialRule (s : string) : bool :=
  match chars s with
  | [] => false
  | l => forallb serialChar l
  end.

Inductive Violation := Blank | TooLong | InvalidChars.

(** The three tests applied, in this order, to a trimmed field value. *)
Definition fieldViolation (val : string) : option Violation :=
  if String.eqb val "" then Some Blank
  else if (20 <? String.length val)%nat then Some TooLong
  else if negb (matchesSerialRule val) then Some InvalidChars
  else None.

(** Number of iterations of [for (let i = 0; i < qty; i++)]. *)
Definition loopCount (qty : Q) : nat := Z.to_nat (Qceiling qty).

(** The value of input [#serial<i>]: what the operator left in it, the
    empty string when untouched. *)
Definition fieldVal (entries : list string) (i : nat) : string :=
  default "" (entries !! i).

(** The trimmed value of input [i]. *)
Definition valueAt (entries : list string) (i : nat) : string :=
  trim (fieldVal entries i).

(** The validation loop of the Save handler: the accepted values and
    the labels [Serial <i+1> (<reason>)] of the rejected fields. *)
Fixpoint scanFields (entries : list string) (i n : nat)
  : list string * list (nat * Violation) :=
  match n with
  | O => ([], [])
  | S n' =>
      let val := trim (fieldVal entries i) in
      let '(serials, invalid) := scanFields entries (S i) n' in
      match fieldViolation val with
      | Some v => (serials, (S i, v) :: invalid)
      | None => (val :: serials, invalid)
      end
  end.

(** The [forEach] that collects the repeated serials. *)
Definition dupStep (acc : gset string * list string) (serial : string)
  : gset string * list string :=
  let '(seen, duplicates) := acc in
  if decide (serial ∈ seen) then
    (seen, if decide (serial ∈ duplicates) then duplicates else duplicates ++ [serial])
  else ({[serial]} ∪ seen, duplicates).

Definition findDuplicates (serials : list string) : list string :=
  snd (fold_left dupStep serials (∅, [])).

(** How often a value occurs in a batch. *)
Definition occurrences (x : string) (batch : list string) : nat :=
  count_occ string_dec batch x.

Inductive ValidationError :=
| InvalidInput (invalid : list (nat * Violation))
| DuplicatesDetected (duplicates : list string).

Inductive SaveResult (A : Type) :=
| Shown (e : ValidationError)
| Resolved (a : A).
Arguments Shown {A} e.
Arguments Resolved {A} a.

(** [new Set(serials).size] *)
Definition setSize (serials : list string) : nat :=
  size (list_to_set serials : gset string).

(** Click on Save in the serial dialog opened for [qty]. *)
Definition saveSerials (qty : Q) (entries : list string) : SaveResult (list string) :=
  let '(serials, invalid) := scanFields entries 0 (loopCount qty) in
  match invalid with
  | _ :: _ => Shown (InvalidInput invalid)
  | [] =>
      if negb (Qeq_bool (inject_Z (Z.of_nat (setSize serials))) qty)
      then Shown (DuplicatesDetected (findDuplicates serials))
      else Resolved serials
  end.


Inductive LotError := LotNumberRequired | ExpirationDateRequired.

(** ** MI requests, responses and the state of a run *)

Record MIRequest := {
  program : string;
  transaction : string;
  record : gmap string string;
  maxReturnedRecords : nat
}.

Record MIResponse := {
  item : option (gmap string string);
  errorMessage : JsVal;
  errorCode : JsVal;
  errorField : JsVal
}.

(** The value a rejected [executeRequest] carries. *)
Record MIError := {
  statusCode : option Z;
  message : JsVal
}.

Inductive MIOutcome :=
| Fulfilled (r : option MIResponse)
| Rejected (e : MIError).

(** [r && r.item] *)
Definition itemOf (r : option MIResponse) : option (gmap string string) :=
  r ≫= item.

Record Equip := { eITNO : JsVal; eSERN : string }.

(** A receipt line as [run] hands it to [process]. *)
Record Line := { BANO : JsVal; RVQA : JsVal; EXPI : JsVal }.

Inductive Warning :=
| WmsManaged
| OverReceipt (diff : Q).

Inductive Prompt := AtWarning | AtConfirm | AtSerials | AtLot.

Inductive IdKind := SerialId | LotId.

Inductive Category := HeaderLevel | PackageLineLevel | OtherLevel.

(** The errors the script throws. [NoRecord op r] is
    [new Error(extractErrorMessage(r, op))]; [RemoteError e] is the
    rejection value of a call, rethrown as it is. *)
Inductive Err :=
| MissingFields (missing : list string)
| NoRecord (operation : string) (r : option MIResponse)
| WhslRequired
| Cancelled (at_ : Prompt)
| LimitExceeded (qty : Q) (max : nat)
| AlreadyExists (kind : IdKind) (id : string) (itno : JsVal)
| RemoteError (e : MIError)
| StatusUnavailable
| ProcessingFailed (status : JsVal) (cat : Category) (msgn : JsVal) (pacn : string).

Inductive UiEvent :=
| WarnDialog (w : Warning)
| ConfirmDialog
| SerialDialog (inputs : nat)
| LotDialog (withExpiration : bool)
| ValidationShown (e : ValidationError)
| LotValidationShown (errors : list LotError)
| SuccessDialog
| ErrorDialog (e : Err).

Record State := {
  this : gmap string string;
  isWmsWhs : bool;
  createdEquipment : option (list Equip);
  calls : list (MIRequest * MIOutcome);
  shown : list UiEvent
}.

Definition initial : State :=
  {| this := ∅; isWmsWhs := false; createdEquipment := None; calls := []; shown := [] |}.

Definition get (k : string) (s : State) : JsVal := this s !! k.

(** [this.k = v] *)
Definition set (k : string) (v : JsVal) (s : State) : State :=
  {| this := match v with Some x => <[k := x]> (this s) | None => delete k (this s) end;
     isWmsWhs := isWmsWhs s; createdEquipment := createdEquipment s;
     calls := calls s; shown := shown s |}.

Definition setWms (b : bool) (s : State) : State :=
  {| this := this s; isWmsWhs := b; createdEquipment := createdEquipment s;
     calls := calls s; shown := shown s |}.

Definition setCreated (c : option (list Equip)) (s : State) : State :=
  {| this := this s; isWmsWhs := isWmsWhs s; createdEquipment := c;
     calls := calls s; shown := shown s |}.

Definition addCall (c : MIRequest * MIOutcome) (s : State) : State :=
  {| this := this s; isWmsWhs := isWmsWhs s; createdEquipment := createdEquipment s;
     calls := calls s ++ [c]; shown := shown s |}.

Definition addShown (u : UiEvent) (s : State) : State :=
  {| this := this s; isWmsWhs := isWmsWhs s; createdEquipment := createdEquipment s;
     calls := calls s; shown := shown s ++ [u] |}.

(** The state after a series of calls. *)
Definition addCalls (cs : list (MIRequest * MIOutcome)) (s : State) : State :=
  {| this := this s; isWmsWhs := isWmsWhs s; createdEquipment := createdEquipment s;
     calls := calls s ++ cs; shown := shown s |}.

(** The records still tracked for rollback. *)
Definition tracked (s : State) : list Equip := default [] (createdEquipment s).

(** ** The monad of the script: state, exceptions, pending promises *)

Inductive Outcome (A : Type) :=
| Ok (a : A)
| Throw (e : Err)
| Pending.
Arguments Ok {A} a.
Arguments Throw {A} e.
Arguments Pending {A}.

Definition M (A : Type) : Type := State -> Outcome A * State.

Definition ret {A} (a : A) : M A := fun s => (Ok a, s).
Definition throw {A} (e : Err) : M A := fun s => (Throw e, s).
Definition pending {A} : M A := fun s => (Pending, s).

Definition bind {A B} (m : M A) (k : A -> M B) : M B :=
  fun s =>
    match m s with
    | (Ok a, s') => k a s'
    | (Throw e, s') => (Throw e, s')
    | (Pending, s') => (Pending, s')
    end.

(** [try { m } catch (e) { h e }] *)
Definition tryCatch {A} (m : M A) (h : Err -> M A) : M A :=
  fun s =>
    match m s with
    | (Throw e, s') => h e s'
    | r => r
    end.

Definition modify (f : State -> State) : M unit := fun s => (Ok tt, f s).
Definition gets {A} (f : State -> A) : M A := fun s => (Ok (f s), s).

Declare Scope js_scope.
Delimit Scope js_scope with js.
Notation "'let*' x := m 'in' k" := (bind m (fun x => k))
  (at level 10, x pattern, m at level 100, k at level 200) : js_scope.
Notation "m ;; k" := (bind m (fun _ => k))
  (at level 100, k at level 200, right associativity) : js_scope.
Local Open Scope js_scope.

(** Sequential [for ... of] over a list, stopping at the first throw. *)
Fixpoint forEachM {A} (f : A -> M unit) (l : list A) : M unit :=
  match l with
  | [] => ret tt
  | x :: t => f x ;; forEachM f t
  end.

(** The order in which the responses of concurrently issued requests
    arrive: at each step the pick (modulo the number of outstanding
    responses) selects the next one. *)
Fixpoint arrivalFrom {A} (fuel : nat) (picks : list nat) (xs : list A) : list A :=
  match fuel, xs with
  | S fuel', x0 :: _ =>
      let k := (hd 0%nat picks mod List.length xs)%nat in
      default x0 (xs !! k) :: arrivalFrom fuel' (tl picks) (delete k xs)
  | _, _ => []
  end.

Definition arrival {A} (picks : list nat) (xs : list A) : list A :=
  arrivalFrom (List.length xs) picks xs.

(** ** The host: screen, operator, MI service, scheduler *)

Inductive Answer := Proceed | Cancel.

Inductive DialogAction (A : Type) :=
| ClickSave (fields : A)
| ClickCancel.
Arguments ClickSave {A} fields.
Arguments ClickCancel {A}.

Record Env := {
  (** [this.mi.executeRequest], as a function of the calls made so far *)
  mi : list (MIRequest * MIOutcome) -> MIRequest -> MIOutcome;
  (** [ScriptUtil.GetFieldValue] *)
  fieldValue : string -> JsVal;
  (** [this.ctrl.GetValue] *)
  ctrlValue : string -> JsVal;
  (** [this.today()] *)
  today : string;
  (** the operator at a warning, and at the confirmation dialog *)
  onWarn : Warning -> Answer;
  onConfirm : Answer;
  (** the operator's successive clicks in the serial dialog, each Save
      with the contents of the inputs at that time *)
  serialClicks : list (DialogAction (list string));
  (** the same for the lot dialog: lot field and date field *)
  lotClicks : list (DialogAction (string * string));
  (** arrival orders for the three [Promise.all] sites *)
  picksCheck : list nat;
  picksAdd : list nat;
  picksLines : list nat
}.

(** ** The workflow *)

Definition MAX_SERIALS : nat := 25.

Definition mkRequest (p t : string) (rec : list (string * JsVal)) (n : nat) : MIRequest :=
  {| program := p; transaction := t;
     record := list_to_map (omap (fun '(k, v) => (fun x => (k, x)) <$> v) rec);
     maxReturnedRecords := n |}.

(** Transactions of the script that change the remote system. *)
Definition writeTransactions : list string :=
  ["Add"; "Del"; "AddWhsHead"; "AddWhsPack"; "AddWhsLine"; "PrcWhsTran"].

Definition isWrite (c : MIRequest * MIOutcome) : bool :=
  bool_decide (transaction (fst c) ∈ writeTransactions).

Definition isTransaction (p t : string) (c : MIRequest * MIOutcome) : bool :=
  String.eqb (program (fst c)) p && String.eqb (transaction (fst c)) t.

(** [['15','20'].includes(st)], [['25','30','35','40'].includes(st)] *)
Definition category (st : JsVal) : Category :=
  if bool_decide (st ∈ [Some "15"; Some "20"]) then HeaderLevel
  else if bool_decide (st ∈ [Some "25"; Some "30"; Some "35"; Some "40"]) then PackageLineLevel
  else OtherLevel.

Definition delRequest (equip : Equip) : MIRequest :=
  mkRequest "MMS240MI" "Del" [("ITNO", eITNO equip); ("SERN", Some (eSERN equip))] 1.

Section Workflow.

Context (env : Env).

(** [this.mi.executeRequest(rq)], settled *)
Definition executeRequest (rq : MIRequest) : M MIOutcome :=
  fun s => let o := mi env (calls s) rq in (Ok o, addCall (rq, o) s).

(** [await this.mi.executeRequest(rq)] *)
Definition await (rq : MIRequest) : M (option MIResponse) :=
  let* o := executeRequest rq in
  match o with
  | Fulfilled r => ret r
  | Rejected e => throw (RemoteError e)
  end.

(** A look-up that must return a record. *)
Definition fetch (rq : MIRequest) (operation : string) : M (gmap string string) :=
  let* r := await rq in
  match itemOf r with
  | Some it => ret it
  | None => throw (NoRecord operation r)
  end.

Definition validateFields : M unit :=
  modify (set "PUNO" (fieldValue env "WWPUNO")) ;;
  modify (set "SUNO" (fieldValue env "WWSUNO")) ;;
  modify (set "WHLO" (fieldValue env "WWWHLO")) ;;
  modify (set "PNLI" (fieldValue env "PNLI")) ;;
  modify (set "PNLS" (fieldValue env "PNLS")) ;;
  modify (set "RVQA" (ctrlValue env "RVQA")) ;;
  modify (set "WHSL" (fieldValue env "WHSL")) ;;
  modify (set "ITNO" (fieldValue env "ITNO")) ;;
  modify (set "OEND" (fieldValue env "OEND")) ;;
  let* missingFields := gets (fun s =>
    List.filter (fun k => negb (truthy (get k s)))
      ["PUNO"; "PNLI"; "PNLS"; "RVQA"; "ITNO"; "WHLO"; "SUNO"; "OEND"]) in
  match missingFields with
  | _ :: _ => throw (MissingFields missingFields)
  | [] => ret tt
  end.

(** [Object.assign(this, { k: it.k, ... })] *)
Definition assignFrom (it : gmap string string) (keys : list string) : M unit :=
  forEachM (fun k => modify (set k (it !! k))) keys.

Definition getPOLine : M unit :=
  let* puno := gets (get "PUNO") in
  let* pnli := gets (get "PNLI") in
  let* pnls := gets (get "PNLS") in
  let* it := fetch (mkRequest "PPS200MI" "GetLine"
                      [("PUNO", puno); ("PNLI", pnli); ("PNLS", pnls)] 1)
                   "PO line retrieval" in
  assignFrom it ["PUPR"; "RORC"; "RORN"; "RORL"; "ITDS"; "GETY"].

Definition lookups : M unit :=
  let* puno := gets (get "PUNO") in
  let* header := fetch (mkRequest "PPS200MI" "GetHead" [("PUNO", puno)] 1)
                       "PO header retrieval" in
  assignFrom header ["PUDT"; "CUCD"; "FACI"] ;;
  let* whlo := gets (get "WHLO") in
  let* whs := await (mkRequest "MMS009MI" "Get"
                       [("WHGR", Some "WMSWHSE"); ("WHLO", whlo)] 1) in
  modify (setWms (bool_decide (is_Some (itemOf whs)))) ;;
  let* itno := gets (get "ITNO") in
  let* itm := fetch (mkRequest "MMS200MI" "GetItmBasic"
                       [("ITNO", itno); ("ALFM", Some "1")] 1)
                    "Item details retrieval" in
  assignFrom itm ["EXPD"; "INDI"; "TPCD"] ;;
  let* isNonMaterial := gets (fun s => jsEq (get "INDI" s) "0" && jsEq (get "TPCD" s) "13") in
  let* whsl := gets (get "WHSL") in
  (if negb isNonMaterial && negb (truthy whsl) then throw WhslRequired else ret tt) ;;
  let* puno := gets (get "PUNO") in
  let* pnli := gets (get "PNLI") in
  let* pnls := gets (get "PNLS") in
  let* rem := fetch (mkRequest "PPS001MI" "GetBasicData2"
                       [("PUNO", puno); ("PNLI", pnli); ("PNLS", pnls)] 1)
                    "Remaining quantity retrieval" in
  modify (set "RMQA" (rem !! "RSTQ")) ;;
  let* rorc := gets (get "RORC") in
  let* rorn := gets (get "RORN") in
  if jsEq rorc "3" && truthy rorn then
    let* c := fetch (mkRequest "OIS100MI" "GetOrderHead" [("ORNO", rorn)] 1)
                    "Customer order details retrieval" in
    modify (set "CUNO" (c !! "CUNO"))
  else ret tt.

Definition dialogWarn (w : Warning) : M unit :=
  modify (addShown (WarnDialog w)) ;;
  match onWarn env w with
  | Proceed => ret tt
  | Cancel => throw (Cancelled AtWarning)
  end.

Definition warnings : M unit :=
  let* wms := gets isWmsWhs in
  let* gety := gets (get "GETY") in
  (if wms && negb (jsEq gety "24") then dialogWarn WmsManaged else ret tt) ;;
  let* rvqa := gets (get "RVQA") in
  let* rmqa := gets (get "RMQA") in
  if Qgtb (num rvqa) (num rmqa) then
    dialogWarn (OverReceipt (num rvqa - num rmqa))
  else ret tt.

Definition promptConfirm : M unit :=
  modify (addShown ConfirmDialog) ;;
  match onConfirm env with
  | Proceed => ret tt
  | Cancel => throw (Cancelled AtConfirm)
  end.

(** The serial dialog, once open: clicks are handled until one closes it. *)
Fixpoint serialDialog (qty : Q) (clicks : list (DialogAction (list string)))
  : M (list string) :=
  match clicks with
  | [] => pending
  | ClickCancel :: _ => throw (Cancelled AtSerials)
  | ClickSave entries :: rest =>
      match saveSerials qty entries with
      | Shown e => modify (addShown (ValidationShown e)) ;; serialDialog qty rest
      | Resolved serials => ret serials
      end
  end.

Definition promptSerials : M (list string) :=
  let* rvqa := gets (get "RVQA") in
  let qty := num rvqa in
  if Qgtb qty (inject_Z (Z.of_nat MAX_SERIALS)) then
    throw (LimitExceeded qty MAX_SERIALS)
  else
    modify (addShown (SerialDialog (loopCount qty))) ;;
    serialDialog qty (serialClicks env).

(** Click on Save in the lot dialog. *)
Definition saveLot (expd : JsVal) (fields : string * string)
  : list LotError + (string * JsVal) :=
  let lot := trim (fst fields) in
  let errors1 :=
    if String.eqb lot "" || (20 <? String.length lot)%nat || negb (matchesSerialRule lot)
    then [LotNumberRequired] else [] in
  let '(errors2, expi) :=
    if jsEq expd "1" then
      let expDate := snd fields in
      if String.eqb expDate "" then ([ExpirationDateRequired], None)
      else ([], Some (unchars (List.filter (fun c => negb (isHyphen c)) (chars expDate))))
    else ([], None) in
  match errors1 ++ errors2 with
  | [] => inr (lot, expi)
  | errors => inl errors
  end.

Fixpoint lotDialog (expd : JsVal) (clicks : list (DialogAction (string * string)))
  : M (string * JsVal) :=
  match clicks with
  | [] => pending
  | ClickCancel :: _ => throw (Cancelled AtLot)
  | ClickSave fields :: rest =>
      match saveLot expd fields with
      | inl errors => modify (addShown (LotValidationShown errors)) ;; lotDialog expd rest
      | inr r => ret r
      end
  end.

Definition promptLot : M (string * JsVal) :=
  let* expd := gets (get "EXPD") in
  modify (addShown (LotDialog (jsEq expd "1"))) ;;
  lotDialog expd (lotClicks env).

Definition lotRequest (itno : JsVal) (bano : string) : MIRequest :=
  mkRequest "MMS235MI" "GetItmLot" [("ITNO", itno); ("BANO", Some bano)] 1.

(** The two handlers passed to [.then] in [checkSer] and [checkLot]:
    what the check makes of the settled look-up for identifier [s]. *)
Definition checkOutcome (kind : IdKind) (itno : JsVal) (s : string) (o : MIOutcome)
  : M unit :=
  match o with
  | Fulfilled r =>
      match itemOf r with
      | Some it =>
          if bool_decide (it !! "ITNO" = itno) && bool_decide (it !! "BANO" = Some s)
          then throw (AlreadyExists kind s itno)
          else ret tt
      | None => ret tt
      end
  | Rejected e =>
      if bool_decide (statusCode e = Some 400%Z) then ret tt
      else throw (RemoteError e)
  end.

(** [arr.map(a => this.mi.executeRequest(rq(a)))]: every request is
    issued, in array order, before any response is handled; each
    element is paired with the outcome its request will settle to. *)
Fixpoint issueAll {A} (rq : State -> A -> MIRequest) (arr : list A) (s : State)
  : list (A * MIOutcome) * State :=
  match arr with
  | [] => ([], s)
  | a :: rest =>
      let q := rq s a in
      let o := mi env (calls s) q in
      let '(settled, s') := issueAll rq rest (addCall (q, o) s) in
      ((a, o) :: settled, s')
  end.

(** [Promise.all(arr.map(f))] where [f] issues the request [rq] and
    continues with [k] on its settled outcome: the continuations run
    in arrival order and the first throw rejects the whole.  The
    continuations of the responses that arrive after that throw run
    once the caller has already been rejected; the model stops at the
    rejection. *)
Definition promiseAll {A} (picks : list nat) (rq : State -> A -> MIRequest)
    (k : A -> MIOutcome -> M unit) (arr : list A) : M unit :=
  fun s =>
    let '(settled, s') := issueAll rq arr s in
    forEachM (fun '(a, o) => k a o) (arrival picks settled) s'.

Definition checkSer (arr : list string) : M unit :=
  promiseAll (picksCheck env)
    (fun st s => lotRequest (get "ITNO" st) s)
    (fun s o => let* itno := gets (get "ITNO") in checkOutcome SerialId itno s o)
    arr.

Definition checkLot (lot : string) : M unit :=
  let* itno := gets (get "ITNO") in
  let* o := executeRequest (lotRequest itno lot) in
  let* itno := gets (get "ITNO") in
  checkOutcome LotId itno lot o.

Definition rollbackEquipment : M unit :=
  let* created := gets createdEquipment in
  match created with
  | None | Some [] => ret tt
  | Some l =>
      (** every deletion is wrapped in its own [try/catch], so
          [Promise.allSettled] only waits for them *)
      modify (fun s => snd (issueAll (fun _ equip => delRequest equip) l s)) ;;
      modify (setCreated (Some []))
  end.

Definition addRequest (st : State) (s : string) : MIRequest :=
  mkRequest "MMS240MI" "Add"
    [("ITNO", get "ITNO" st); ("SERN", Some s); ("STAT", Some "20");
     ("CUNO", get "CUNO" st); ("PUPR", get "PUPR" st); ("CUCD", get "CUCD" st);
     ("PPDT", Some (today env)); ("FACI", get "FACI" st);
     ("CUOW", get "CUNO" st); ("OWTP", Some "0"); ("PUNO", get "PUNO" st);
     ("PNLI", get "PNLI" st); ("PNLS", get "PNLS" st); ("ALII", get "ITDS" st)] 1.

(** The rest of the [async] callback of [addEquip], after its [await]. *)
Definition equipAdded (s : string) (o : MIOutcome) : M unit :=
  match o with
  | Rejected e => throw (RemoteError e)
  | Fulfilled result =>
      match itemOf result with
      | None => throw (NoRecord ("Equipment creation for serial " +:+ s) result)
      | Some _ =>
          let* itno := gets (get "ITNO") in
          modify (fun st => setCreated
                    (Some (tracked st ++ [{| eITNO := itno; eSERN := s |}])) st)
      end
  end.

Definition addEquip (arr : list string) : M unit :=
  modify (setCreated (Some [])) ;;
  tryCatch (promiseAll (picksAdd env) addRequest equipAdded arr)
           (fun error => rollbackEquipment ;; throw error).

Definition headRequest (whlo : JsVal) : MIRequest :=
  mkRequest "MHS850MI" "AddWhsHead"
    [("WHLO", whlo); ("QLFR", Some "20"); ("E0PA", Some "WS"); ("E0PB", Some "WS");
     ("E007", Some "20"); ("E065", Some "PPS300")] 1.

Definition packRequest (st : State) (packNumber : string) : MIRequest :=
  mkRequest "MHS850MI" "AddWhsPack"
    [("WHLO", get "WHLO" st); ("MSGN", get "MSGN" st);
     ("PACN", Some packNumber); ("QLFR", Some "20")] 1.

Definition lineRequest (st : State) (packNumber : string) (rec : Line) : MIRequest :=
  let isNonMaterial := jsEq (get "INDI" st) "0" && jsEq (get "TPCD" st) "13" in
  mkRequest "MHS850MI" "AddWhsLine"
    [("WHLO", get "WHLO" st); ("MSGN", get "MSGN" st);
     ("PACN", Some packNumber); ("QLFR", Some "20");
     ("ITNO", get "ITNO" st); ("RVQA", RVQA rec);
     ("RIDN", get "PUNO" st); ("RIDL", get "PNLI" st); ("RIDX", get "PNLS" st);
     ("OEND", get "OEND" st);
     ("WHSL", if isNonMaterial then None else get "WHSL" st);
     ("BANO", if truthy (BANO rec) then BANO rec else None);
     ("EXPI", if truthy (EXPI rec) then EXPI rec else None)] 1.

Definition processRequest (msgn : JsVal) : MIRequest :=
  mkRequest "MHS850MI" "PrcWhsTran" [("MSGN", msgn); ("PRFL", Some "*EXE")] 100.

Definition statusRequest (msgn : JsVal) : MIRequest :=
  mkRequest "MHS850MI" "GetWhsHead" [("MSGN", msgn)] 1.

(** The pack number [`${this.PUNO}_${this.PNLI}`]. *)
Definition packNumberOf (st : State) : string :=
  str (get "PUNO" st) +:+ "_" +:+ str (get "PNLI" st).

(** [process], block "AddWhsHead". *)
Definition addWhsHead : M unit :=
  let* whlo := gets (get "WHLO") in
  let* h := await (headRequest whlo) in
  match itemOf h with
  | None => throw (NoRecord "Warehouse transaction header creation" h)
  | Some hit =>
      if negb (truthy (hit !! "MSGN"))
      then throw (NoRecord "Warehouse transaction header creation" h)
      else modify (set "MSGN" (hit !! "MSGN"))
  end.

(** The [.then/.catch] on each [AddWhsLine] call. *)
Definition lineAdded (rec : Line) (o : MIOutcome) : M unit :=
  match o with
  | Fulfilled _ => ret tt
  | Rejected error => throw (RemoteError error)
  end.

(** [process], block "AddWhsPack + AddWhsLine"; yields [packNumber]. *)
Definition addWhsPackAndLines (lines : list Line) : M string :=
  let* packNumber := gets packNumberOf in
  let* st := gets id in
  await (packRequest st packNumber) ;;
  promiseAll (picksLines env)
    (fun st rec => lineRequest st packNumber rec) lineAdded lines ;;
  ret packNumber.

(** [process], block "PrcWhsTran". *)
Definition prcWhsTran : M unit :=
  let* msgn := gets (get "MSGN") in
  let* prc := await (processRequest msgn) in
  match itemOf prc with
  | None => throw (NoRecord "Transaction processing" prc)
  | Some _ => ret tt
  end.

(** [process], block "Final Status Validation". *)
Definition finalStatusValidation (packNumber : string) : M unit :=
  let* msgn := gets (get "MSGN") in
  let* statusResult := await (statusRequest msgn) in
  match itemOf statusResult with
  | None => throw StatusUnavailable
  | Some sit =>
      let transactionStatus := sit !! "STAT" in
      if negb (jsEq transactionStatus "90") then
        let* msgn := gets (get "MSGN") in
        let* created := gets tracked in
        (match created with
         | _ :: _ => rollbackEquipment
         | [] => ret tt
         end) ;;
        throw (ProcessingFailed transactionStatus (category transactionStatus)
                                msgn packNumber)
      else ret tt
  end.

(** [process(lines, onePackPerSerial)]: the second argument is only
    logged, and the outer [catch] logs and rethrows. *)
Definition process (lines : list Line) : M unit :=
  addWhsHead ;;
  let* packNumber := addWhsPackAndLines lines in
  prcWhsTran ;;
  finalStatusValidation packNumber.

Definition serialLine (s : string) : Line :=
  {| BANO := Some s; RVQA := Some "1"; EXPI := None |}.

(** Steps 1 to 3 of [run]: validation and look-ups. *)
Definition fetchSteps : M unit :=
  validateFields ;;
  getPOLine ;;
  lookups.

(** The inner [try/catch] of the serial branch: the receipt of the
    serials once their equipment records exist. *)
Definition receiveSerials (serials : list string) : M unit :=
  tryCatch
    (let serialLines := map serialLine serials in
     process serialLines ;;
     modify (setCreated (Some [])))
    (fun processError => rollbackEquipment ;; throw processError).

Definition serialBranch : M unit :=
  let* serials := promptSerials in
  checkSer serials ;;
  addEquip serials ;;
  receiveSerials serials.

Definition lotBranch : M unit :=
  let* entered := promptLot in
  let '(lot, expi) := entered in
  checkLot lot ;;
  let* rvqa := gets (get "RVQA") in
  process [{| BANO := Some lot; RVQA := rvqa; EXPI := expi |}].

Definition nonLottedBranch : M unit :=
  promptConfirm ;;
  let* rvqa := gets (get "RVQA") in
  process [{| BANO := None; RVQA := rvqa; EXPI := None |}].

(** Branch by control method. *)
Definition branch : M unit :=
  let* indi := gets (get "INDI") in
  if jsEq indi "2" then serialBranch
  else if jsEq indi "3" then lotBranch
  else nonLottedBranch.

(** The body of the [try] block of [run]. *)
Definition runBody : M unit :=
  fetchSteps ;;
  warnings ;;
  branch.

Definition run : M unit :=
  tryCatch (runBody ;; modify (addShown SuccessDialog))
           (fun e => modify (addShown (ErrorDialog e))).

End Workflow.

(** What a run reported to the operator, if it has ended. *)
Definition reported (s : State) : option UiEvent := last (shown s).

(** ** Vocabulary of the properties *)

(** The look-up was rejected with the not-found status. *)
Definition signalsNotFound (o : MIOutcome) : Prop :=
  exists e, o = Rejected e /\ statusCode e = Some 400%Z.

(** The look-up returned a record for this item and this identifier. *)
Definition returnsMatch (itno : JsVal) (s : string) (o : MIOutcome) : Prop :=
  exists r it, o = Fulfilled r /\ itemOf r = Some it /\
               it !! "ITNO" = itno /\ it !! "BANO" = Some s.

(** The already-registered check of one identifier. *)
Definition checkOne (env : Env) (kind : IdKind) (s : string) : M unit :=
  match kind with
  | SerialId => checkSer env [s]
  | LotId => checkLot env s
  end.

(** The status poll among some calls returned [st]. *)
Definition polledStatus (cs : list (MIRequest * MIOutcome)) (st : JsVal) : Prop :=
  exists rq r it, (rq, Fulfilled r) ∈ cs /\ transaction rq = "GetWhsHead" /\
                  itemOf r = Some it /\ it !! "STAT" = st.

Definition isDel (c : MIRequest * MIOutcome) : bool := isTransaction "MMS240MI" "Del" c.
Definition isLine (c : MIRequest * MIOutcome) : bool := isTransaction "MHS850MI" "AddWhsLine" c.
Definition isPack (c : MIRequest * MIOutcome) : bool := isTransaction "MHS850MI" "AddWhsPack" c.

(** [m] moves every state to one related to it by [R]. *)
Definition respects {A} (R : State -> State -> Prop) (m : M A) : Prop :=
  forall s, R s (snd (m s)).

(** The trace only grows, by calls that satisfy [P]. *)
Definition callsGrow (P : MIRequest * MIOutcome -> Prop) (s s' : State) : Prop :=
  exists cs, calls s' = calls s ++ cs /\ Forall P cs.

(** The operator is only shown more, and what is added satisfies [P]. *)
Definition shownGrow (P : UiEvent -> Prop) (s s' : State) : Prop :=
  exists ev, shown s' = shown s ++ ev /\ Forall P ev.

(** The component [f] of the state is left as it is. *)
Definition keeps {X} (f : State -> X) (s s' : State) : Prop := f s' = f s.

(** The creation call came back with a record. *)
Definition returnsRecord (o : MIOutcome) : bool :=
  match o with
  | Fulfilled r => bool_decide (is_Some (itemOf r))
  | Rejected _ => false
  end.

(** The calls made for the elements of [settled] with requests [rq]. *)
Definition callsOf {A} (rq : A -> MIRequest) (settled : list (A * MIOutcome))
  : list (MIRequest * MIOutcome) :=
  map (fun '(a, o) => (rq a, o)) settled.

(** A request builder that does not look at the trace. *)
Definition traceBlind {A} (rq : State -> A -> MIRequest) : Prop :=
  forall cs s a, rq (addCalls cs s) a = rq s a.

(** The record [addEquip] tracks for serial [s]. *)
Definition equipOf (itno : JsVal) (s : string) : Equip := {| eITNO := itno; eSERN := s |}.

(** What a creation call that brought no record makes [addEquip] throw. *)
Definition creationError (s : string) (o : MIOutcome) : Err :=
  match o with
  | Rejected e => RemoteError e
  | Fulfilled r => NoRecord ("Equipment creation for serial " +:+ s) r
  end.

Definition oneOf (l : list string) (k : string) : bool := existsb (String.eqb k) l.

Definition none {A} (_ : A) : bool := false.

(** [R] holds across the primitive updates of the state: assignments
    to the fields [K], calls of the transactions [P], dialogs [Q]. *)
Record Tolerates (R : State -> State -> Prop)
    (K : string -> bool) (P : string -> bool) (Q : UiEvent -> bool) : Prop := {
  tol_set : forall k v s, K k = true -> R s (set k v s);
  tol_wms : forall b s, R s (setWms b s);
  tol_call : forall c s, P (transaction (fst c)) = true -> R s (addCall c s);
  tol_shown : forall u s, Q u = true -> R s (addShown u s)
}.

(** The fields, transactions and dialogs of the steps of [run]. *)
Definition fetchKeys : list string :=
  ["PUNO"; "SUNO"; "WHLO"; "PNLI"; "PNLS"; "RVQA"; "WHSL"; "ITNO"; "OEND";
   "PUPR"; "RORC"; "RORN"; "RORL"; "ITDS"; "GETY";
   "PUDT"; "CUCD"; "FACI"; "EXPD"; "INDI"; "TPCD"; "RMQA"; "CUNO"].

Definition fetchTransactions : list string :=
  ["GetLine"; "GetHead"; "Get"; "GetItmBasic"; "GetBasicData2"; "GetOrderHead"].

Definition submitTransactions : list string :=
  ["AddWhsHead"; "AddWhsPack"; "AddWhsLine"; "PrcWhsTran"].

Definition isWarnDialog (u : UiEvent) : bool :=
  match u with WarnDialog _ => true | _ => false end.

Definition isSerialPrompt (u : UiEvent) : bool :=
  match u with SerialDialog _ | ValidationShown _ => true | _ => false end.

Definition isLotPrompt (u : UiEvent) : bool :=
  match u with LotDialog _ | LotValidationShown _ => true | _ => false end.

Definition isConfirmDialog (u : UiEvent) : bool :=
  match u with ConfirmDialog => true | _ => false end.



(** Only calls of the transactions [T] are added, the field [MSGN] may
    be assigned, and nothing else changes. *)
Definition quiet (T : list string) (s s' : State) : Prop :=
  callsGrow (fun c => oneOf T (transaction (fst c)) = true) s s' /\
  createdEquipment s' = createdEquipment s /\
  shown s' = shown s /\
  forall k, k <> "MSGN" -> get k s' = get k s.

(** The first three blocks of [process]. *)
Definition submit (env : Env) (lines : list Line) : M string :=
  addWhsHead env ;;
  let* packNumber := addWhsPackAndLines env lines in
  prcWhsTran env ;;
  ret packNumber.

(** The status poll among [cs] returned [st], and nothing else. *)
Definition polledOnly (cs : list (MIRequest * MIOutcome)) (st : JsVal) : Prop :=
  polledStatus cs st /\ forall st', polledStatus cs st' -> st' = st.

(** [m] never waits for the operator. *)
Definition settles {A} (m : M A) : Prop := forall s, fst (m s) <> Pending.

(** The serial branch up to the creation of the equipment records. *)
Definition serialPreparation (env : Env) : M (list string) :=
  let* serials := promptSerials env in
  checkSer env serials ;;
  addEquip env serials ;;
  ret serials.

(** [polledStatus], decided. *)
Definition polledStatusb (cs : list (MIRequest * MIOutcome)) (st : JsVal) : bool :=
  existsb (fun c =>
             String.eqb (transaction (fst c)) "GetWhsHead" &&
             match snd c with
             | Fulfilled r =>
                 match itemOf r with
                 | Some it => bool_decide (it !! "STAT" = st)
                 | None => false
                 end
             | Rejected _ => false
             end) cs.

Definition isValidationShown (u : UiEvent) : bool :=
  match u with ValidationShown _ => true | _ => false end.

(** The invariant of the [forEach]: after a prefix, [seen] holds its
    values and [duplicates] those met at least twice, once each. *)
Definition dupInv (prefix : list string) (acc : gset string * list string) : Prop :=
  (forall x, x ∈ fst acc <-> x ∈ prefix) /\
  NoDup (snd acc) /\
  (forall x, x ∈ snd acc <-> (2 <= occurrences x prefix)%nat).

(** The look-up lets the identifier through. *)
Definition passes (itno : JsVal) (s : string) (o : MIOutcome) : Prop :=
  signalsNotFound o \/ ((exists resp, o = Fulfilled resp) /\ ~ returnsMatch itno s o).

(** ** A test bench *)

Module Demo.

Definition screen (k : string) : JsVal :=
  match k with
  | "WWPUNO" => Some "4500001"
  | "WWSUNO" => Some "SUP01"
  | "WWWHLO" => Some "W01"
  | "PNLI" => Some "10"
  | "PNLS" => Some "0"
  | "WHSL" => Some "A-01"
  | "ITNO" => Some "ITEM1"
  | "OEND" => Some "1"
  | _ => None
  end.

Definition found (it : list (string * string)) : MIOutcome :=
  Fulfilled (Some {| item := Some (list_to_map it); errorMessage := None;
                     errorCode := None; errorField := None |}).

Definition notFound : MIOutcome :=
  Rejected {| statusCode := Some 400%Z; message := Some "Record does not exist" |}.

Definition failure : MIOutcome :=
  Rejected {| statusCode := Some 500%Z; message := Some "Server error" |}.

(** A remote system for an item with control method [indi], [rstq]
    units outstanding, on which creating the equipment for serial
    [bad] fails, deleting the equipment for [stuck] fails and the
    transaction ends in status [stat]. *)
Definition remote (indi rstq bad stuck stat : string)
    (history : list (MIRequest * MIOutcome)) (rq : MIRequest) : MIOutcome :=
  match transaction rq with
  | "GetLine" => found [("PUPR", "12.50"); ("RORC", "0"); ("ITDS", "Pump"); ("GETY", "20")]
  | "GetHead" => found [("PUDT", "20250801"); ("CUCD", "USD"); ("FACI", "F01")]
  | "Get" => Fulfilled (Some {| item := None; errorMessage := None;
                                errorCode := None; errorField := None |})
  | "GetItmBasic" => found [("EXPD", "0"); ("INDI", indi); ("TPCD", "0")]
  | "GetBasicData2" => found [("RSTQ", rstq)]
  | "GetItmLot" => notFound
  | "Add" => if bool_decide (record rq !! "SERN" = Some bad) then failure
             else found [("SERN", default "" (record rq !! "SERN"))]
  | "Del" => if bool_decide (record rq !! "SERN" = Some stuck) then failure
             else found []
  | "AddWhsHead" => found [("MSGN", "0000123")]
  | "GetWhsHead" => found [("STAT", stat)]
  | _ => found []
  end.

Definition env (rvqa indi rstq bad stuck stat : string) (warn : Answer)
    (clicks : list (DialogAction (list string))) (picks : list nat) : Env :=
  {| mi := remote indi rstq bad stuck stat;
     fieldValue := screen;
     ctrlValue := fun k => if String.eqb k "RVQA" then Some rvqa else None;
     today := "20250805";
     onWarn := fun _ => warn;
     onConfirm := Proceed;
     serialClicks := clicks;
     lotClicks := [ClickSave ("LOT-7", "")];
     picksCheck := picks;
     picksAdd := picks;
     picksLines := picks |}.

(** A remote system that answers every look-up with a record of
    another item. *)
Definition otherItem : Env :=
  {| mi := fun _ rq => found [("ITNO", "OTHER"); ("BANO", default "" (record rq !! "BANO"))];
     fieldValue := screen;
     ctrlValue := fun _ => Some "1";
     today := "20250805";
     onWarn := fun _ => Proceed;
     onConfirm := Proceed;
     serialClicks := [];
     lotClicks := [];
     picksCheck := [];
     picksAdd := [];
     picksLines := [] |}.

(** A remote system that answers every call with an empty response. *)
Definition silent : Env :=
  {| mi := fun _ _ => Fulfilled None;
     fieldValue := screen;
     ctrlValue := fun _ => Some "1";
     today := "20250805";
     onWarn := fun _ => Proceed;
     onConfirm := Proceed;
     serialClicks := [];
     lotClicks := [];
     picksCheck := [];
     picksAdd := [];
     picksLines := [] |}.


End Demo.


(** ** The text of the error dialog *)

(** The line feed of the template literals. *)
Definition LF : string := String (ascii_of_nat 10) EmptyString.

(** What [extractErrorMessage] reads of the value it is handed: an MI
    response, the rejection of a call or an [Error].  Text outside
    Latin-1 is written in UTF-8. *)
Module ErrorObject.

Record t := {
  errorMessage : JsVal;
  message : JsVal;
  errorCode : JsVal;
  errorField : JsVal;
  program : JsVal;
  transaction : JsVal
}.

End ErrorObject.

(** [v || ''] *)
Definition orEmpty (v : JsVal) : string := if truthy v then str v else "".

(** Truthiness of a string. *)
Definition nonEmpty (s : string) : bool := negb (String.eqb s "").

Definition extractErrorMessage (error : option ErrorObject.t) (operation : string)
  : string :=
  let errorMsg := operation +:+ " failed" in
  match error with
  | None => errorMsg
  | Some error =>
      let errorMsg :=
        if truthy (ErrorObject.errorMessage error)
        then str (ErrorObject.errorMessage error)
        else if truthy (ErrorObject.message error)
             then str (ErrorObject.message error)
             else errorMsg in
      let errorCode := orEmpty (ErrorObject.errorCode error) in
      let errorMessage := orEmpty (ErrorObject.errorMessage error) in
      let errorField := orEmpty (ErrorObject.errorField error) in
      let program := orEmpty (ErrorObject.program error) in
      let transaction := orEmpty (ErrorObject.transaction error) in
      let technicalDetails :=
        if nonEmpty errorCode || nonEmpty errorMessage || nonEmpty errorField
           || nonEmpty program
        then
          let t0 := LF +:+ LF +:+ "Technical Details:" in
          let t1 :=
            if nonEmpty program && nonEmpty transaction
            then t0 +:+ LF +:+ "• API: " +:+ program +:+ "/" +:+ transaction
            else t0 in
          let t2 :=
            if nonEmpty errorCode && nonEmpty errorMessage
            then t1 +:+ LF +:+ "• Error: " +:+ errorCode +:+ ": " +:+ errorMessage
            else if nonEmpty errorMessage
                 then t1 +:+ LF +:+ "• Error: " +:+ errorMessage
                 else if nonEmpty errorCode
                      then t1 +:+ LF +:+ "• Error Code: " +:+ errorCode
                      else t1 in
          if nonEmpty errorField then t2 +:+ LF +:+ "• Field: " +:+ errorField else t2
        else "" in
      errorMsg +:+ technicalDetails
  end.

(** [showErrorDialog(message, error)]: the text handed to [alert]. *)
Definition showErrorDialog (message : JsVal) (error : option ErrorObject.t) : string :=
  let displayMessage :=
    if truthy message then str message
    else "An unexpected error occurred during processing" in
  match error with
  | Some _ => extractErrorMessage error "Processing"
  | None => displayMessage
  end.

(** The [catch] of [run]:
    [showErrorDialog(e.message || 'An unexpected ...', e)]. *)
Definition reportCaught (e : ErrorObject.t) : string :=
  showErrorDialog
    (Some (if truthy (ErrorObject.message e) then str (ErrorObject.message e)
           else "An unexpected error occurred during processing"))
    (Some e).

(** The message that is shown first: [errorMessage], else [message],
    else the name of the operation. *)
Definition primaryMessage (error : option ErrorObject.t) (operation : string) : string :=
  match error with
  | Some e =>
      if truthy (ErrorObject.errorMessage e) then str (ErrorObject.errorMessage e)
      else if truthy (ErrorObject.message e) then str (ErrorObject.message e)
      else operation +:+ " failed"
  | None => operation +:+ " failed"
  end.

(** ** Dates and generated serials *)

(** [s.padStart(targetLength, pad)] for a pad of one character. *)
Definition padStart (targetLength : nat) (pad : ascii) (s : string) : string :=
  unchars (replicate (targetLength - String.length s) pad) +:+ s.

Module Clock.

(** [today()], on a clock whose local date is [year], month index
    [month] (from 0) and day [day]. *)
Definition today (year month day : nat) : string :=
  pretty year +:+ padStart 2 "0" (pretty (month + 1)%nat) +:+ padStart 2 "0" (pretty day).

End Clock.

(** Click on the button that fills the inputs of the serial dialog
    opened for [qty]: input [i] receives [`${poNumber}-${i + 1}`]. *)
Definition generateSerials (poNumber : string) (qty : Q) : list string :=
  map (fun i => poNumber +:+ "-" +:+ pretty (i + 1)%nat) (seq 0 (loopCount qty)).

(** [s.replace(/-/g, '')] *)
Definition withoutHyphens (s : string) : string :=
  unchars (List.filter (fun c => negb (isHyphen c)) (chars s)).

(** The value of an [<input type="date">] for a date: [yyyy-mm-dd]. *)
Definition isoDate (year month day : nat) : string :=
  pretty year +:+ "-" +:+ padStart 2 "0" (pretty (month + 1)%nat) +:+ "-" +:+
  padStart 2 "0" (pretty day).

(** What a Save of the serial dialog, and of the lot dialog, shows to
    the operator: nothing when it is accepted. *)
Definition complaints (qty : Q) (entries : list string) : list UiEvent :=
  match saveSerials qty entries with
  | Shown e => [ValidationShown e]
  | Resolved _ => []
  end.

Definition lotComplaints (expd : JsVal) (fields : string * string) : list UiEvent :=
  match saveLot expd fields with
  | inl errors => [LotValidationShown errors]
  | inr _ => []
  end.

(** The state once the dialogs [evs] have been shown. *)
Definition addShownAll (evs : list UiEvent) (s : State) : State :=
  fold_left (fun st u => addShown u st) evs s.

Definition isDigitString (s : string) : bool := forallb isDigit (chars s).

(** ** Vocabulary of the further properties *)

(** The mandatory fields, in the order of the check of
    [validateFields], each with the value read from the screen. *)
Definition mandatory (env : Env) : list (string * JsVal) :=
  [("PUNO", fieldValue env "WWPUNO"); ("PNLI", fieldValue env "PNLI");
   ("PNLS", fieldValue env "PNLS"); ("RVQA", ctrlValue env "RVQA");
   ("ITNO", fieldValue env "ITNO"); ("WHLO", fieldValue env "WWWHLO");
   ("SUNO", fieldValue env "WWSUNO"); ("OEND", fieldValue env "OEND")].

Definition missing (env : Env) : list string :=
  map fst (List.filter (fun kv => negb (truthy (snd kv))) (mandatory env)).

(** The API a call went to. *)
Definition endpoint (c : MIRequest * MIOutcome) : string * string :=
  (program (fst c), transaction (fst c)).

Definition fulfilledCall (c : MIRequest * MIOutcome) : bool :=
  match snd c with
  | Fulfilled _ => true
  | Rejected _ => false
  end.

(** The order is a drop-ship order with a customer order behind it. *)
Definition isDropShip (s : State) : bool :=
  jsEq (get "RORC" s) "3" && truthy (get "RORN" s).

(** The item needs no location. *)
Definition isNonMaterial (s : State) : bool :=
  jsEq (get "INDI" s) "0" && jsEq (get "TPCD" s) "13".

(** The look-ups of [lookups], in their order. *)
Definition lookupEndpoints (s : State) : list (string * string) :=
  [("PPS200MI", "GetHead"); ("MMS009MI", "Get"); ("MMS200MI", "GetItmBasic");
   ("PPS001MI", "GetBasicData2")] ++
  (if isDropShip s then [("OIS100MI", "GetOrderHead")] else []).

(** Every call of [m] that is rejected ends [m] at once, with the
    rejection as its error. *)
Definition failFast {A} (m : M A) : Prop :=
  forall s, exists cs,
    calls (snd (m s)) = calls s ++ cs /\
    (Forall (fun c => fulfilledCall c = true) cs \/
     exists cs' rq e,
       cs = cs' ++ [(rq, Rejected e)] /\
       Forall (fun c => fulfilledCall c = true) cs' /\
       fst (m s) = Throw (RemoteError e)).

(** [m] only throws errors that satisfy [E]. *)
Definition throwsOnly {A} (E : Err -> Prop) (m : M A) : Prop :=
  forall s e, fst (m s) = Throw e -> E e.

Definition isCancelled (e : Err) : bool :=
  match e with
  | Cancelled _ => true
  | _ => false
  end.

Definition notCancelled (e : Err) : Prop := isCancelled e = false.

(** The transactions of the three branches of [run]. *)
Definition branchTransactions : list string :=
  ["GetItmLot"; "Add"; "Del"; "AddWhsHead"; "AddWhsPack"; "AddWhsLine";
   "PrcWhsTran"; "GetWhsHead"].

(** The transactions of [process]. *)
Definition processTransactions : list string :=
  ["AddWhsHead"; "AddWhsPack"; "AddWhsLine"; "PrcWhsTran"; "GetWhsHead"; "Del"].

(** The dialogs in which the operator enters or confirms the receipt. *)
Definition isEntryDialog (u : UiEvent) : bool :=
  match u with
  | SerialDialog _ | LotDialog _ | ConfirmDialog => true
  | _ => false
  end.

(** What the three branches show before the final dialog. *)
Definition isBranchDialog (u : UiEvent) : bool :=
  isSerialPrompt u || isLotPrompt u || isConfirmDialog u.

(** The dialogs that end a run. *)
Definition isFinalDialog (u : UiEvent) : bool :=
  match u with
  | SuccessDialog | ErrorDialog _ => true
  | _ => false
  end.

Definition isAdd (c : MIRequest * MIOutcome) : bool := isTransaction "MMS240MI" "Add" c.
Definition isHead (c : MIRequest * MIOutcome) : bool :=
  isTransaction "MHS850MI" "AddWhsHead" c.
Definition isProcess (c : MIRequest * MIOutcome) : bool :=
  isTransaction "MHS850MI" "PrcWhsTran" c.

(** ** Further cases of the test bench *)

Module Cases.

(** A screen on which the order line and the quantity are not filled
    in. *)
Definition blank : Env :=
  {| mi := fun _ _ => Fulfilled None;
     fieldValue := fun k => if String.eqb k "PNLI" then Some "" else Demo.screen k;
     ctrlValue := fun _ => None;
     today := "20250805";
     onWarn := fun _ => Proceed;
     onConfirm := Proceed;
     serialClicks := [];
     lotClicks := [];
     picksCheck := [];
     picksAdd := [];
     picksLines := [] |}.

(** A remote system that rejects every call. *)
Definition unreachable : Env :=
  {| mi := fun _ _ => Demo.failure;
     fieldValue := Demo.screen;
     ctrlValue := fun _ => Some "1";
     today := "20250805";
     onWarn := fun _ => Proceed;
     onConfirm := Proceed;
     serialClicks := [];
     lotClicks := [];
     picksCheck := [];
     picksAdd := [];
     picksLines := [] |}.

End Cases.

(** * Properties *)

(** ** The format rule and the Save handler of the serial dialog *)

Lemma chars_nil (s : string) : chars s = [] <-> s = "".
Proof. unfold chars. destruct s; simpl; split; intros H; try discriminate; reflexivity. Qed.

Lemma matchesSerialRule_spec (s : string) :
  matchesSerialRule s = true <-> s <> "" /\ Forall (fun c => serialChar c = true) (chars s).
Proof.
  unfold matchesSerialRule. rewrite <- chars_nil.
  destruct (chars s) as [|c l] eqn:E.
  - split; [discriminate | intros [H _]; congruence].
  - rewrite <- E. rewrite forallb_forall, List.Forall_forall.
    split; [intros H; split; [congruence | exact H] | intros [_ H]; exact H].
Qed.

Lemma fieldViolation_None (v : string) :
  fieldViolation v = None <->
  v <> "" /\ (String.length v <= 20)%nat /\ Forall (fun c => serialChar c = true) (chars v).
Proof.
  unfold fieldViolation.
  destruct (String.eqb_spec v "") as [->|Hne].
  { split; [discriminate | intros [H _]; congruence]. }
  destruct (Nat.ltb_spec 20 (String.length v)) as [Hlt|Hle].
  { split; [discriminate | intros (_ & H & _); lia]. }
  destruct (matchesSerialRule v) eqn:Hm; simpl.
  - apply matchesSerialRule_spec in Hm as [_ Hm]. split; [auto | reflexivity].
  - split; [discriminate|]. intros (_ & _ & H).
    assert (matchesSerialRule v = true) by (apply matchesSerialRule_spec; auto).
    congruence.
Qed.

Lemma scanFields_fst entries i n :
  fst (scanFields entries i n) =
  omap (fun j => match fieldViolation (valueAt entries j) with
                 | None => Some (valueAt entries j)
                 | Some _ => None
                 end) (seq i n).
Proof.
  revert i. induction n as [|n IH]; intros i; simpl; [reflexivity|].
  specialize (IH (S i)). destruct (scanFields entries (S i) n) as [ser inv].
  simpl in IH. subst ser. unfold valueAt.
  destruct (fieldViolation (trim (fieldVal entries i))); reflexivity.
Qed.

Lemma scanFields_snd entries i n :
  snd (scanFields entries i n) =
  omap (fun j => (fun v => (S j, v)) <$> fieldViolation (valueAt entries j)) (seq i n).
Proof.
  revert i. induction n as [|n IH]; intros i; simpl; [reflexivity|].
  specialize (IH (S i)). destruct (scanFields entries (S i) n) as [ser inv].
  simpl in IH. subst inv. unfold valueAt.
  destruct (fieldViolation (trim (fieldVal entries i))); reflexivity.
Qed.

Lemma scanFields_invalid entries n j v :
  (S j, v) ∈ snd (scanFields entries 0 n) <->
  (j < n)%nat /\ fieldViolation (valueAt entries j) = Some v.
Proof.
  rewrite scanFields_snd, list_elem_of_omap. split.
  - intros (k & Hk & Hf). apply elem_of_seq in Hk.
    destruct (fieldViolation (valueAt entries k)) eqn:E; simpl in Hf; [|discriminate].
    injection Hf as -> ->. split; [lia | exact E].
  - intros [Hj Hv]. exists j. split; [apply elem_of_seq; lia | rewrite Hv; reflexivity].
Qed.

Lemma scanFields_all_valid entries i n :
  snd (scanFields entries i n) = [] ->
  fst (scanFields entries i n) = map (valueAt entries) (seq i n) /\
  Forall (fun v => fieldViolation v = None) (map (valueAt entries) (seq i n)).
Proof.
  revert i. induction n as [|n IH]; intros i; simpl; [auto|].
  specialize (IH (S i)). destruct (scanFields entries (S i) n) as [ser inv].
  fold (valueAt entries i).
  destruct (fieldViolation (valueAt entries i)) eqn:E; simpl; [discriminate|].
  intros H. destruct (IH H) as [IH1 IH2]. simpl in IH1. subst ser.
  split; [reflexivity | constructor; auto].
Qed.

Lemma scanFields_valid_nil entries i n :
  Forall (fun v => fieldViolation v = None) (map (valueAt entries) (seq i n)) ->
  snd (scanFields entries i n) = [].
Proof.
  revert i. induction n as [|n IH]; intros i; simpl; [auto|].
  intros H. inversion H as [|? ? Hv Ht]; subst.
  specialize (IH (S i) Ht). destruct (scanFields entries (S i) n) as [ser inv].
  fold (valueAt entries i). rewrite Hv. exact IH.
Qed.

(** ** Duplicate detection *)

Lemma setSize_remove_dups (l : list string) : setSize l = List.length (remove_dups l).
Proof.
  unfold setSize. rewrite <- (size_list_to_set (C := gset string) (remove_dups l))
    by apply NoDup_remove_dups.
  f_equal. apply set_eq. intros x.
  rewrite !elem_of_list_to_set, elem_of_remove_dups. reflexivity.
Qed.

Lemma length_remove_dups (l : list string) : (List.length (remove_dups l) <= List.length l)%nat.
Proof.
  induction l as [|x l IH]; simpl; [lia|].
  destruct (decide_rel elem_of x l); simpl; lia.
Qed.

Lemma setSize_NoDup (l : list string) : setSize l = List.length l <-> NoDup l.
Proof.
  rewrite setSize_remove_dups. split.
  - induction l as [|x l IH]; simpl; [constructor|].
    pose proof (length_remove_dups l).
    destruct (decide_rel elem_of x l); simpl; intros H'; [lia|].
    constructor; [assumption | apply IH; lia].
  - intros H. induction H as [|x l Hx Hl IH]; simpl; [reflexivity|].
    destruct (decide_rel elem_of x l); [contradiction | simpl; congruence].
Qed.

Lemma setSize_perm (l k : list string) : l ≡ₚ k -> setSize l = setSize k.
Proof. intros H. unfold setSize. rewrite H. reflexivity. Qed.

Lemma occurrences_elem x l : x ∈ l <-> (1 <= occurrences x l)%nat.
Proof.
  unfold occurrences. rewrite list_elem_of_In, (count_occ_In string_dec). lia.
Qed.

Lemma occurrences_snoc x l a :
  occurrences x (l ++ [a]) = (occurrences x l + if decide (a = x) then 1 else 0)%nat.
Proof.
  unfold occurrences. rewrite count_occ_app. simpl.
  destruct (string_dec a x), (decide (a = x)); congruence.
Qed.

Lemma occurrences_perm x l k : l ≡ₚ k -> occurrences x l = occurrences x k.
Proof. intros H. unfold occurrences. apply (Permutation_count_occ string_dec); assumption. Qed.


Lemma dupStep_inv prefix acc a :
  dupInv prefix acc -> dupInv (prefix ++ [a]) (dupStep acc a).
Proof.
  destruct acc as [seen dups]. intros (Hseen & Hnd & Hd). simpl in *.
  unfold dupStep, dupInv.
  destruct (decide (a ∈ seen)) as [Hin|Hnin]; simpl.
  - assert (Ha : (1 <= occurrences a prefix)%nat)
      by (apply occurrences_elem, Hseen; assumption).
    split; [|split].
    + intros x. rewrite Hseen, elem_of_app, list_elem_of_singleton.
      split; [auto | intros [H| ->]; [assumption | apply Hseen; assumption]].
    + destruct (decide (a ∈ dups)); [assumption|].
      apply NoDup_app. split; [assumption|]. split; [|apply NoDup_singleton].
      intros x Hx Hx'. apply list_elem_of_singleton in Hx'. subst. contradiction.
    + intros x. rewrite occurrences_snoc.
      destruct (decide (a ∈ dups)) as [Had|Had].
      * rewrite Hd. destruct (decide (a = x)) as [<-|]; [|lia].
        apply Hd in Had. lia.
      * rewrite elem_of_app, list_elem_of_singleton, Hd.
        destruct (decide (a = x)) as [<-|Hne].
        { split; [intros _; lia | intros _; right; reflexivity]. }
        split; [intros [H|H]; [lia | congruence] | intros H; left; lia].
  - assert (Ha : occurrences a prefix = 0%nat).
    { destruct (occurrences a prefix) eqn:E; [reflexivity|].
      exfalso. apply Hnin, Hseen, occurrences_elem. lia. }
    split; [|split].
    + intros x. rewrite elem_of_union, elem_of_singleton, Hseen, elem_of_app,
        list_elem_of_singleton. tauto.
    + assumption.
    + intros x. rewrite occurrences_snoc, Hd.
      destruct (decide (a = x)) as [<-|]; lia.
Qed.

Lemma fold_dupStep_inv l prefix acc :
  dupInv prefix acc -> dupInv (prefix ++ l) (fold_left dupStep l acc).
Proof.
  revert prefix acc. induction l as [|a l IH]; intros prefix acc H; simpl.
  - rewrite app_nil_r. assumption.
  - replace (prefix ++ a :: l) with ((prefix ++ [a]) ++ l)
      by (rewrite <- app_assoc; reflexivity).
    apply IH, dupStep_inv, H.
Qed.

Lemma findDuplicates_spec (serials : list string) :
  NoDup (findDuplicates serials) /\
  forall x, x ∈ findDuplicates serials <-> (2 <= occurrences x serials)%nat.
Proof.
  pose proof (fold_dupStep_inv serials [] (∅, [])) as H. simpl in H.
  destruct H as (_ & Hnd & Hd).
  - split; [|split]; simpl.
    + intros x. rewrite elem_of_empty, elem_of_nil. tauto.
    + constructor.
    + intros x. rewrite elem_of_nil. unfold occurrences. simpl. lia.
  - split; assumption.
Qed.

(** ** The number of inputs of the serial dialog *)

Lemma loopCount_spec (qty : Q) (i : nat) :
  (i < loopCount qty)%nat <-> (inject_Z (Z.of_nat i) < qty)%Q.
Proof.
  unfold loopCount. pose proof (Qle_ceiling qty) as Hc.
  pose proof (Qceiling_lt qty) as Hl.
  split; intros H.
  - assert (Hz : (Z.of_nat i <= Qceiling qty - 1)%Z) by lia.
    apply Qle_lt_trans with (inject_Z (Qceiling qty - 1)); [|assumption].
    rewrite <- Zle_Qle. assumption.
  - assert (Hq : (inject_Z (Z.of_nat i) < inject_Z (Qceiling qty))%Q)
      by (eapply Qlt_le_trans; eassumption).
    rewrite <- Zlt_Qlt in Hq. lia.
Qed.

Lemma loopCount_inject (k : nat) (qty : Q) :
  (inject_Z (Z.of_nat k) == qty)%Q -> loopCount qty = k.
Proof.
  intros H. unfold loopCount. rewrite <- H, Qceiling_Z. lia.
Qed.

Lemma valueAt_seq (entries : list string) :
  map (valueAt entries) (seq 0 (List.length entries)) = map trim entries.
Proof.
  unfold valueAt, fieldVal.
  induction entries as [|e entries IH] using rev_ind; [reflexivity|].
  rewrite length_app. simpl List.length. rewrite Nat.add_1_r, seq_S, !map_app.
  simpl. rewrite list_lookup_middle by reflexivity. simpl. f_equal.
  rewrite <- IH. apply map_ext_in. intros i Hi. apply in_seq in Hi.
  rewrite lookup_app_l by lia. reflexivity.
Qed.

(** With every input filled by a value that passes the format rule,
    Save only compares the number of distinct values with [qty]. *)
Lemma saveSerials_valid (qty : Q) (entries : list string) :
  List.length entries = loopCount qty ->
  Forall (fun e => fieldViolation (trim e) = None) entries ->
  saveSerials qty entries =
  if negb (Qeq_bool (inject_Z (Z.of_nat (setSize (map trim entries)))) qty)
  then Shown (DuplicatesDetected (findDuplicates (map trim entries)))
  else Resolved (map trim entries).
Proof.
  intros Hlen Hvalid. unfold saveSerials. rewrite <- Hlen.
  assert (Hv : Forall (fun v => fieldViolation v = None)
                 (map (valueAt entries) (seq 0 (List.length entries)))).
  { rewrite valueAt_seq. apply Forall_map. exact Hvalid. }
  pose proof (scanFields_valid_nil _ _ _ Hv) as Hnil.
  pose proof (scanFields_all_valid _ _ _ Hnil) as [Hfst _].
  destruct (scanFields entries 0 (List.length entries)) as [serials invalid].
  simpl in *. subst. rewrite valueAt_seq. reflexivity.
Qed.

Lemma accepted_NoDup (qty : Q) (serials : list string) :
  List.length serials = loopCount qty ->
  Qeq_bool (inject_Z (Z.of_nat (setSize serials))) qty = true ->
  NoDup serials.
Proof.
  intros Hlen Heq. apply Qeq_bool_iff in Heq. apply loopCount_inject in Heq.
  apply setSize_NoDup. congruence.
Qed.

(** C5. Save checks every input of the serial dialog against the format
    rule (non-empty, at most 20 characters, only [A-Z], [0-9] and [-])
    and, when some fail, shows one validation error that lists exactly
    the failing inputs with their reasons; a batch is resolved only when
    every value passes the rule and no value is repeated.  The Save of
    the lot dialog applies the same rule to the lot number and reports
    it together with a missing expiration date. *)
Theorem violations_reported_together (qty : Q) (entries : list string) :
  let n := loopCount qty in
  (forall v, fieldViolation v = None <->
     v <> "" /\ (String.length v <= 20)%nat /\
     Forall (fun c => serialChar c = true) (chars v)) /\
  ((exists i, (i < n)%nat /\ fieldViolation (valueAt entries i) <> None) ->
   exists invalid,
     saveSerials qty entries = Shown (InvalidInput invalid) /\
     forall i v, (S i, v) ∈ invalid <->
                 (i < n)%nat /\ fieldViolation (valueAt entries i) = Some v) /\
  (forall serials,
     saveSerials qty entries = Resolved serials ->
     serials = map (valueAt entries) (seq 0 n) /\
     Forall (fun v => fieldViolation v = None) serials /\
     NoDup serials) /\
  (forall expd fields,
     (fieldViolation (trim (fst fields)) <> None ->
      exists errors,
        saveLot expd fields = inl errors /\ LotNumberRequired ∈ errors /\
        (jsEq expd "1" = true -> snd fields = "" -> ExpirationDateRequired ∈ errors)) /\
     (forall lot expi,
        saveLot expd fields = inr (lot, expi) ->
        lot = trim (fst fields) /\ fieldViolation lot = None)).
Proof.
  intros n. split; [exact fieldViolation_None|]. split; [|split].
  - intros (i & Hi & Hv). unfold saveSerials. fold n.
    pose proof (scanFields_invalid entries n) as Hinv.
    destruct (scanFields entries 0 n) as [serials invalid]. simpl in Hinv.
    destruct invalid as [|x invalid].
    + exfalso. destruct (fieldViolation (valueAt entries i)) as [v|] eqn:E; [|congruence].
      assert (Hin : (S i, v) ∈ @nil (nat * Violation)) by (apply Hinv; auto).
      apply elem_of_nil in Hin. exact Hin.
    + exists (x :: invalid). split; [reflexivity | exact Hinv].
  - intros serials H. unfold saveSerials in H. fold n in H.
    pose proof (scanFields_all_valid entries 0 n) as Hall.
    pose proof (scanFields_fst entries 0 n) as Hfst.
    destruct (scanFields entries 0 n) as [ser invalid]. simpl in Hall, Hfst.
    destruct invalid; [|discriminate].
    destruct (Qeq_bool (inject_Z (Z.of_nat (setSize ser))) qty) eqn:Hq;
      simpl in H; [|discriminate].
    injection H as <-. destruct (Hall eq_refl) as [Hs Hv].
    split; [exact Hs|]. split; [rewrite Hs; exact Hv|].
    apply (accepted_NoDup qty); [|exact Hq].
    rewrite Hs, length_map, length_seq. reflexivity.
  - intros expd [lotField dateField]. simpl. split.
    + intros Hv. unfold saveLot. simpl.
      assert (Hbad : String.eqb (trim lotField) "" ||
                     (20 <? String.length (trim lotField))%nat ||
                     negb (matchesSerialRule (trim lotField)) = true).
      { unfold fieldViolation in Hv.
        destruct (String.eqb (trim lotField) ""); [reflexivity|].
        destruct (20 <? String.length (trim lotField))%nat; [reflexivity|].
        destruct (matchesSerialRule (trim lotField)); [|reflexivity].
        simpl in Hv. congruence. }
      rewrite Hbad. destruct (jsEq expd "1") eqn:He.
      * destruct (String.eqb_spec dateField "") as [->|Hd]; simpl.
        -- eexists. split; [reflexivity|]. split; [left|intros _ _; right; left].
        -- eexists. split; [reflexivity|]. split; [left|]. intros _ Hd'. congruence.
      * simpl. eexists. split; [reflexivity|]. split; [left|]. intros Hf. discriminate.
    + intros lot expi H. unfold saveLot in H. simpl in H.
      destruct (String.eqb (trim lotField) "" ||
                (20 <? String.length (trim lotField))%nat ||
                negb (matchesSerialRule (trim lotField))) eqn:Hb.
      { destruct (jsEq expd "1"); [destruct (String.eqb dateField "")|];
          simpl in H; discriminate. }
      assert (Hlot : lot = trim lotField).
      { destruct (jsEq expd "1"); [destruct (String.eqb dateField "")|];
          simpl in H; try discriminate; injection H as <- _; reflexivity. }
      split; [exact Hlot|]. subst lot. unfold fieldViolation.
      apply orb_false_iff in Hb as [Hb ->]. apply orb_false_iff in Hb as [-> ->].
      reflexivity.
Qed.

Lemma violations_reported_together_witness :
  exists invalid,
    saveSerials 3 ["AB-1"; "  "; "x y"] = Shown (InvalidInput invalid) /\
    forall i v, (S i, v) ∈ invalid <->
      (i < loopCount 3)%nat /\
      fieldViolation (valueAt ["AB-1"; "  "; "x y"] i) = Some v.
Proof.
  apply (violations_reported_together 3 ["AB-1"; "  "; "x y"]).
  exists 1%nat. split; [vm_compute; lia | vm_compute; discriminate].
Defined.

(** C6. In a batch whose values all pass the format rule, a repeated
    value always leads to the duplicates error, which names each
    repeated value exactly once; and reordering the batch changes
    neither the verdict nor the set of values named. *)
Theorem duplicates_rejected_regardless_of_position
    (qty : Q) (entries entries' : list string) :
  List.length entries = loopCount qty ->
  Forall (fun e => fieldViolation (trim e) = None) entries ->
  entries ≡ₚ entries' ->
  (~ NoDup (map trim entries) ->
   exists ds,
     saveSerials qty entries = Shown (DuplicatesDetected ds) /\ NoDup ds /\
     forall x, x ∈ ds <-> (2 <= occurrences x (map trim entries))%nat) /\
  match saveSerials qty entries, saveSerials qty entries' with
  | Resolved a, Resolved b => a ≡ₚ b
  | Shown (DuplicatesDetected d), Shown (DuplicatesDetected d') => d ≡ₚ d'
  | _, _ => False
  end.
Proof.
  intros Hlen Hvalid Hperm.
  assert (Hlen' : List.length entries' = loopCount qty)
    by (rewrite <- Hlen; symmetry; apply Permutation_length; exact Hperm).
  assert (Hvalid' : Forall (fun e => fieldViolation (trim e) = None) entries')
    by (rewrite <- Hperm; exact Hvalid).
  assert (Hbatch : map trim entries ≡ₚ map trim entries')
    by (apply fmap_Permutation; exact Hperm).
  rewrite (saveSerials_valid qty entries Hlen Hvalid).
  rewrite (saveSerials_valid qty entries' Hlen' Hvalid').
  rewrite <- (setSize_perm _ _ Hbatch).
  destruct (findDuplicates_spec (map trim entries)) as [Hnd Hd].
  destruct (findDuplicates_spec (map trim entries')) as [Hnd' Hd'].
  destruct (Qeq_bool (inject_Z (Z.of_nat (setSize (map trim entries)))) qty) eqn:Hq;
    simpl.
  - split; [|exact Hbatch]. intros Hdup. exfalso. apply Hdup.
    apply (accepted_NoDup qty); [rewrite length_map; exact Hlen | exact Hq].
  - split.
    + intros _. eexists. split; [reflexivity|]. split; assumption.
    + apply NoDup_Permutation; [assumption..|].
      intros x. rewrite Hd, Hd', (occurrences_perm x _ _ Hbatch). reflexivity.
Qed.

Lemma duplicates_rejected_regardless_of_position_witness :
  (~ NoDup (map trim ["SN-1"; "SN-2"; "SN-1"]) ->
   exists ds,
     saveSerials 3 ["SN-1"; "SN-2"; "SN-1"] = Shown (DuplicatesDetected ds) /\
     NoDup ds /\
     forall x, x ∈ ds <-> (2 <= occurrences x (map trim ["SN-1"; "SN-2"; "SN-1"]))%nat) /\
  match saveSerials 3 ["SN-1"; "SN-2"; "SN-1"], saveSerials 3 ["SN-1"; "SN-1"; "SN-2"] with
  | Resolved a, Resolved b => a ≡ₚ b
  | Shown (DuplicatesDetected d), Shown (DuplicatesDetected d') => d ≡ₚ d'
  | _, _ => False
  end.
Proof.
  apply (duplicates_rejected_regardless_of_position 3).
  - vm_compute. reflexivity.
  - repeat constructor.
  - apply perm_skip, perm_swap.
Defined.

(** ** Concurrent requests *)

Lemma addCalls_nil s : addCalls [] s = s.
Proof. destruct s. unfold addCalls. simpl. rewrite app_nil_r. reflexivity. Qed.

Lemma addCalls_cons c cs s : addCalls (c :: cs) s = addCalls cs (addCall c s).
Proof. unfold addCalls, addCall. simpl. rewrite <- app_assoc. reflexivity. Qed.

Lemma issueAll_spec {A} env (rq : State -> A -> MIRequest) arr s :
  traceBlind rq ->
  map fst (fst (issueAll env rq arr s)) = arr /\
  snd (issueAll env rq arr s) = addCalls (callsOf (rq s) (fst (issueAll env rq arr s))) s.
Proof.
  intros Hrq. revert s. induction arr as [|a arr IH]; intros s; simpl.
  - rewrite addCalls_nil. auto.
  - specialize (IH (addCall (rq s a, mi env (calls s) (rq s a)) s)).
    destruct (issueAll env rq arr _) as [settled s']. simpl in *.
    destruct IH as [IH1 IH2]. split; [congruence|].
    rewrite addCalls_cons, IH2. f_equal. unfold callsOf. apply map_ext.
    intros [b o]. f_equal.
    rewrite <- (addCalls_nil (addCall _ s)), <- addCalls_cons. apply Hrq.
Qed.

Lemma arrivalFrom_perm {A} (fuel : nat) (picks : list nat) (xs : list A) :
  List.length xs = fuel -> arrivalFrom fuel picks xs ≡ₚ xs.
Proof.
  revert picks xs. induction fuel as [|fuel IH]; intros picks xs Hlen.
  - destruct xs; [reflexivity | discriminate].
  - destruct xs as [|x0 xs']; [discriminate|]. cbn [arrivalFrom].
    set (k := (hd 0%nat picks mod List.length (x0 :: xs'))%nat).
    assert (Hk : (k < List.length (x0 :: xs'))%nat)
      by (apply Nat.mod_upper_bound; simpl; lia).
    destruct (lookup_lt_is_Some_2 (x0 :: xs') k Hk) as [y Hy].
    rewrite Hy. simpl.
    etransitivity; [|symmetry; apply (delete_Permutation (x0 :: xs') k y Hy)].
    apply perm_skip.
    apply IH. rewrite length_delete by eauto. simpl in *. lia.
Qed.

Lemma arrival_perm {A} (picks : list nat) (xs : list A) : arrival picks xs ≡ₚ xs.
Proof. apply arrivalFrom_perm. reflexivity. Qed.

(** Every order of arrival is the [arrival] of some picks. *)
Lemma arrival_complete {A} (xs l : list A) :
  l ≡ₚ xs -> exists picks, arrival picks xs = l.
Proof.
  revert xs. induction l as [|y l IH]; intros xs Hperm.
  - apply Permutation_nil_l in Hperm. subst xs. exists []. reflexivity.
  - assert (Hy : y ∈ xs) by (rewrite <- Hperm; left).
    apply list_elem_of_lookup in Hy as [k Hk].
    pose proof (delete_Permutation xs k y Hk) as Hdel.
    assert (Hl : l ≡ₚ delete k xs).
    { apply (Permutation_cons_inv (a := y)). rewrite Hperm. exact Hdel. }
    destruct (IH _ Hl) as [picks Hpicks].
    exists (k :: picks). unfold arrival in *.
    destruct xs as [|x0 xs']; [discriminate|].
    cbn [List.length arrivalFrom hd tl].
    assert (Hlt : (k < List.length (x0 :: xs'))%nat) by (eapply lookup_lt_Some; exact Hk).
    rewrite Nat.mod_small by exact Hlt. rewrite Hk. simpl default. f_equal.
    rewrite length_delete in Hpicks by eauto. simpl in Hpicks.
    rewrite Nat.sub_0_r in Hpicks. exact Hpicks.
Qed.

(** ** The already-registered check *)


Lemma get_addCall k c s : get k (addCall c s) = get k s.
Proof. reflexivity. Qed.

Lemma checkOne_eq env kind s st :
  let itno := get "ITNO" st in
  let rq := lotRequest itno s in
  let o := mi env (calls st) rq in
  checkOne env kind s st = checkOutcome kind itno s o (addCall (rq, o) st).
Proof.
  destruct kind; simpl.
  - unfold checkSer, promiseAll. simpl.
    unfold bind, gets, ret. simpl. rewrite get_addCall.
    destruct (checkOutcome SerialId (get "ITNO" st) s _ _) as [[[]|e|] st'];
      reflexivity.
  - reflexivity.
Qed.

Lemma checkOutcome_state kind itno s o st :
  snd (checkOutcome kind itno s o st) = st.
Proof.
  unfold checkOutcome. destruct o as [r|e].
  - destruct (itemOf r); [|reflexivity].
    destruct (_ && _); reflexivity.
  - destruct (bool_decide _); reflexivity.
Qed.

Lemma checkOutcome_match kind itno s o st :
  returnsMatch itno s o ->
  fst (checkOutcome kind itno s o st) = Throw (AlreadyExists kind s itno).
Proof.
  intros (r & it & -> & Hit & H1 & H2). unfold checkOutcome. rewrite Hit.
  rewrite !bool_decide_eq_true_2 by assumption. reflexivity.
Qed.

Lemma checkOutcome_no_match kind itno s r st :
  ~ returnsMatch itno s (Fulfilled r) ->
  fst (checkOutcome kind itno s (Fulfilled r) st) = Ok tt.
Proof.
  intros Hn. unfold checkOutcome. destruct (itemOf r) as [it|] eqn:Hit; [|reflexivity].
  destruct (bool_decide (it !! "ITNO" = itno)) eqn:H1; [|reflexivity].
  destruct (bool_decide (it !! "BANO" = Some s)) eqn:H2; [|reflexivity].
  exfalso. apply Hn. exists r, it.
  apply bool_decide_eq_true_1 in H1. apply bool_decide_eq_true_1 in H2. auto.
Qed.

Lemma checkOutcome_rejected kind itno s e st :
  fst (checkOutcome kind itno s (Rejected e) st) =
  if bool_decide (statusCode e = Some 400%Z) then Ok tt else Throw (RemoteError e).
Proof. unfold checkOutcome. destruct (bool_decide _); reflexivity. Qed.

Lemma checkOutcome_passes kind itno s o st :
  fst (checkOutcome kind itno s o st) = Ok tt <-> passes itno s o.
Proof.
  unfold passes. split.
  - intros Hok. destruct o as [resp|e] eqn:Ho.
    + right. split; [eauto|]. intros Hm.
      rewrite (checkOutcome_match kind itno s _ _ Hm) in Hok. discriminate.
    + left. exists e. split; [reflexivity|].
      rewrite checkOutcome_rejected in Hok.
      destruct (bool_decide (statusCode e = Some 400%Z)) eqn:Hb; [|discriminate].
      apply bool_decide_eq_true_1 in Hb. exact Hb.
  - intros [(e & -> & He) | [(resp & ->) Hn]].
    + rewrite checkOutcome_rejected, bool_decide_eq_true_2 by assumption. reflexivity.
    + apply checkOutcome_no_match. assumption.
Qed.

Lemma checkOutcome_pure kind itno s o st :
  checkOutcome kind itno s o st = (fst (checkOutcome kind itno s o initial), st).
Proof.
  unfold checkOutcome. destruct o as [r|e].
  - destruct (itemOf r); [|reflexivity]. destruct (_ && _); reflexivity.
  - destruct (bool_decide _); reflexivity.
Qed.

(** The checks of a batch, in any order of arrival: all pass or the
    first failure is thrown. *)
Lemma forEach_checks (l : list (string * MIOutcome)) (st : State) :
  let k := fun '(s, o) => let* itno := gets (get "ITNO") in
                          checkOutcome SerialId itno s o in
  let itno := get "ITNO" st in
  (fst (forEachM k l st) = Ok tt <->
   forall s o, (s, o) ∈ l -> passes itno s o) /\
  (forall e, fst (forEachM k l st) = Throw e ->
     exists s o, (s, o) ∈ l /\ fst (checkOutcome SerialId itno s o st) = Throw e) /\
  fst (forEachM k l st) <> Pending.
Proof.
  intros k itno. induction l as [|[s o] l IH]; [simpl | cbn [forEachM]].
  - split; [|split; [intros e H; discriminate | discriminate]].
    split; [intros _ s o Hin; apply elem_of_nil in Hin; contradiction | reflexivity].
  - assert (Hstep : bind (k (s, o)) (fun _ => forEachM k l) st =
                    match fst (checkOutcome SerialId itno s o initial) with
                    | Ok _ => forEachM k l st
                    | Throw e => (Throw e, st)
                    | Pending => (Pending, st)
                    end).
    { unfold bind, k, bind, gets. fold itno.
      rewrite (checkOutcome_pure SerialId itno s o st).
      destruct (fst (checkOutcome SerialId itno s o initial)) as [[]|e|]; reflexivity. }
    rewrite Hstep. clear Hstep.
    pose proof (checkOutcome_passes SerialId itno s o initial) as Hp.
    destruct (fst (checkOutcome SerialId itno s o initial)) as [[]|e|] eqn:Hv.
    + destruct IH as (IH1 & IH2 & IH3). split; [|split; [|exact IH3]].
      * rewrite IH1. split.
        -- intros H s' o' Hin. apply elem_of_cons in Hin as [Heq|Hin]; [|auto].
           injection Heq as -> ->. apply Hp. reflexivity.
        -- intros H s' o' Hin. apply H. right. exact Hin.
      * intros e He. destruct (IH2 e He) as (s' & o' & Hin & Hs').
        exists s', o'. split; [right; exact Hin | exact Hs'].
    + simpl. split; [|split; [|discriminate]].
      * split; [discriminate|]. intros H.
        assert (Hpass : passes itno s o) by (apply H; left).
        apply Hp in Hpass. discriminate.
      * intros e' He'. injection He' as <-. exists s, o. split; [left|].
        rewrite checkOutcome_pure, Hv. reflexivity.
    + exfalso. unfold checkOutcome in Hv. destruct o as [r|e'].
      * destruct (itemOf r); [destruct (_ && _)|]; discriminate.
      * destruct (bool_decide _); discriminate.
Qed.

Lemma checkSer_batch env arr st :
  let settled := fst (issueAll env (fun st s => lotRequest (get "ITNO" st) s) arr st) in
  let itno := get "ITNO" st in
  map fst settled = arr /\
  (fst (checkSer env arr st) = Ok tt <->
   forall s o, (s, o) ∈ settled -> passes itno s o) /\
  (forall e, fst (checkSer env arr st) = Throw e ->
     exists s o, (s, o) ∈ settled /\
                 fst (checkOutcome SerialId itno s o st) = Throw e).
Proof.
  intros settled itno.
  pose proof (issueAll_spec env (fun st s => lotRequest (get "ITNO" st) s) arr st) as Hi.
  destruct Hi as [Hfst Hsnd]; [intros ? ? ?; reflexivity|].
  fold settled in Hfst, Hsnd. split; [exact Hfst|].
  unfold checkSer, promiseAll.
  destruct (issueAll env _ arr st) as [settled' st1] eqn:Hissue.
  simpl in settled, Hsnd. subst settled.
  destruct (forEach_checks (arrival (picksCheck env) settled') st1) as (H1 & H2 & _).
  assert (Hitno : get "ITNO" st1 = itno) by (rewrite Hsnd; reflexivity).
  rewrite Hitno in H1, H2.
  assert (Hmem : forall x, x ∈ arrival (picksCheck env) settled' <-> x ∈ settled')
    by (intros x; rewrite (arrival_perm (picksCheck env) settled'); reflexivity).
  split.
  - rewrite H1. split; intros H s o Hin; apply H; apply Hmem; exact Hin.
  - intros e He. destruct (H2 e He) as (s & o & Hin & Hs).
    exists s, o. split; [apply Hmem; exact Hin|].
    rewrite checkOutcome_pure in Hs. rewrite checkOutcome_pure. exact Hs.
Qed.

(** C7, as stated, fails: the check also passes when the look-up
    returns normally without a record, which is no not-found signal. *)
Lemma passes_without_not_found_signal :
  ~ (forall env kind s st,
       fst (checkOne env kind s st) = Ok tt <->
       signalsNotFound (mi env (calls st) (lotRequest (get "ITNO" st) s))).
Proof.
  intros H.
  destruct (H Demo.silent LotId "LOT-7" initial) as [H1 _].
  destruct (H1 eq_refl) as (e & He & _). discriminate He.
Qed.

(** C7, amended. The check of an identifier passes exactly when the
    look-up is rejected with the not-found status or returns without a
    record matching both the item and the identifier; it fails with the
    already-exists error when the look-up returns a matching record, and
    rethrows any other rejection unchanged.  [checkSer] on a batch
    resolves exactly when every look-up of the batch passes in this
    sense, and otherwise throws what one of them threw. *)
Theorem registered_check_outcomes (env : Env) (kind : IdKind) (s : string) (st : State) :
  let itno := get "ITNO" st in
  let o := mi env (calls st) (lotRequest itno s) in
  let r := fst (checkOne env kind s st) in
  (r = Ok tt <->
     signalsNotFound o \/ ((exists resp, o = Fulfilled resp) /\ ~ returnsMatch itno s o)) /\
  (returnsMatch itno s o -> r = Throw (AlreadyExists kind s itno)) /\
  (forall e, o = Rejected e -> statusCode e <> Some 400%Z -> r = Throw (RemoteError e)) /\
  (forall arr,
     let settled :=
       fst (issueAll env (fun st s => lotRequest (get "ITNO" st) s) arr st) in
     map fst settled = arr /\
     (fst (checkSer env arr st) = Ok tt <->
      forall s' o', (s', o') ∈ settled ->
        signalsNotFound o' \/
        ((exists resp, o' = Fulfilled resp) /\ ~ returnsMatch itno s' o')) /\
     (forall e, fst (checkSer env arr st) = Throw e ->
        exists s' o', (s', o') ∈ settled /\
                      fst (checkOutcome SerialId itno s' o' st) = Throw e)).
Proof.
  intros itno o r. subst r. rewrite checkOne_eq. fold itno. fold o.
  split; [|split; [|split]].
  - apply checkOutcome_passes.
  - apply checkOutcome_match.
  - intros e -> He. rewrite checkOutcome_rejected, bool_decide_eq_false_2 by assumption.
    reflexivity.
  - intros arr. apply checkSer_batch.
Qed.

Lemma registered_check_outcomes_witness :
  let env := Demo.env "1" "3" "1" "" "" "90" Proceed [] [] in
  fst (checkOne env SerialId "SN-1" initial) = Ok tt.
Proof.
  intros env.
  apply (proj1 (registered_check_outcomes env SerialId "SN-1" initial)).
  left. eexists. split; [vm_compute; reflexivity | reflexivity].
Defined.

(** C10. When the look-up returns normally but carries no record, or a
    record whose item number and identifier are not both the queried
    ones, the check passes; the already-exists error is raised only on a
    match of both fields. *)
Theorem unmatched_record_passes (env : Env) (kind : IdKind) (s : string) (st : State) :
  let itno := get "ITNO" st in
  let o := mi env (calls st) (lotRequest itno s) in
  let r := fst (checkOne env kind s st) in
  (forall resp, o = Fulfilled resp ->
     (itemOf resp = None \/
      exists it, itemOf resp = Some it /\
                 ~ (it !! "ITNO" = itno /\ it !! "BANO" = Some s)) ->
     r = Ok tt) /\
  (forall kind' s' itno',
     r = Throw (AlreadyExists kind' s' itno') ->
     returnsMatch itno s o /\ kind' = kind /\ s' = s /\ itno' = itno).
Proof.
  intros itno o r. subst r. rewrite checkOne_eq. fold itno. fold o. split.
  - intros resp -> Hcase. apply checkOutcome_no_match.
    intros (r' & it & Heq & Hit & H1 & H2). injection Heq as <-.
    destruct Hcase as [Hnone | (it' & Hit' & Hn)]; [congruence|].
    apply Hn. rewrite Hit in Hit'. injection Hit' as <-. auto.
  - intros kind' s' itno' Hthrow. destruct o as [resp|e] eqn:Ho.
    + unfold checkOutcome in Hthrow.
      destruct (itemOf resp) as [it|] eqn:Hit; [|discriminate].
      destruct (bool_decide (it !! "ITNO" = itno)) eqn:H1; [|discriminate].
      destruct (bool_decide (it !! "BANO" = Some s)) eqn:H2; [|discriminate].
      simpl in Hthrow. injection Hthrow as <- <- <-.
      apply bool_decide_eq_true_1 in H1. apply bool_decide_eq_true_1 in H2.
      split; [|auto]. exists resp, it. auto.
    + rewrite checkOutcome_rejected in Hthrow.
      destruct (bool_decide _); discriminate.
Qed.

Lemma unmatched_record_passes_witness :
  let env := Demo.otherItem in
  fst (checkOne env LotId "LOT-7" initial) = Ok tt.
Proof.
  intros env.
  eapply (proj1 (unmatched_record_passes env LotId "LOT-7" initial)).
  - vm_compute. reflexivity.
  - right. eexists. split; [vm_compute; reflexivity|].
    vm_compute. intros [H _]. discriminate H.
Defined.

(** ** Reasoning about the monad *)

Lemma bind_assoc {A B C} (m : M A) (k : A -> M B) (h : B -> M C) (s : State) :
  bind (bind m k) h s = bind m (fun a => bind (k a) h) s.
Proof.
  unfold bind. destruct (m s) as [[a|e|] s1]; [|reflexivity..].
  destruct (k a s1) as [[b|e|] s2]; reflexivity.
Qed.

#[local] Instance callsGrow_preorder P : PreOrder (callsGrow P).
Proof.
  split.
  - intros s. exists []. rewrite app_nil_r. auto.
  - intros s1 s2 s3 (c1 & H1 & F1) (c2 & H2 & F2). exists (c1 ++ c2).
    rewrite H2, H1, app_assoc. split; [reflexivity | apply Forall_app; auto].
Qed.

#[local] Instance shownGrow_preorder P : PreOrder (shownGrow P).
Proof.
  split.
  - intros s. exists []. rewrite app_nil_r. auto.
  - intros s1 s2 s3 (c1 & H1 & F1) (c2 & H2 & F2). exists (c1 ++ c2).
    rewrite H2, H1, app_assoc. split; [reflexivity | apply Forall_app; auto].
Qed.

#[local] Instance keeps_preorder {X} (f : State -> X) : PreOrder (keeps f).
Proof. split; unfold keeps; [intros s | intros s1 s2 s3 H1 H2]; congruence. Qed.

Section Respects.

Context (R : State -> State -> Prop) `{!PreOrder R}.

Lemma respects_ret {A} (a : A) : respects R (ret a).
Proof. intros s. reflexivity. Qed.

Lemma respects_throw {A} e : respects R (@throw A e).
Proof. intros s. reflexivity. Qed.

Lemma respects_pending {A} : respects R (@pending A).
Proof. intros s. reflexivity. Qed.

Lemma respects_gets {A} (f : State -> A) : respects R (gets f).
Proof. intros s. reflexivity. Qed.

Lemma respects_modify f : (forall s, R s (f s)) -> respects R (modify f).
Proof. intros H s. apply H. Qed.

Lemma respects_bind {A B} (m : M A) (k : A -> M B) :
  respects R m -> (forall a, respects R (k a)) -> respects R (bind m k).
Proof.
  intros Hm Hk s. unfold bind. specialize (Hm s).
  destruct (m s) as [[a|e|] s1]; simpl in *; [|assumption..].
  etransitivity; [exact Hm | apply Hk].
Qed.

Lemma respects_tryCatch {A} (m : M A) (h : Err -> M A) :
  respects R m -> (forall e, respects R (h e)) -> respects R (tryCatch m h).
Proof.
  intros Hm Hh s. unfold tryCatch. specialize (Hm s).
  destruct (m s) as [[a|e|] s1]; simpl in *; [assumption| |assumption].
  etransitivity; [exact Hm | apply Hh].
Qed.

Lemma respects_forEachM {A} (f : A -> M unit) (l : list A) :
  (forall a, respects R (f a)) -> respects R (forEachM f l).
Proof.
  intros Hf. induction l as [|x l IH]; simpl.
  - apply respects_ret.
  - apply respects_bind; [apply Hf | intros _; exact IH].
Qed.

Lemma respects_executeRequest env rq :
  (forall s o, R s (addCall (rq, o) s)) -> respects R (executeRequest env rq).
Proof. intros H s. apply H. Qed.

Lemma respects_issueAll {A} env (rq : State -> A -> MIRequest) arr s :
  (forall s a o, R s (addCall (rq s a, o) s)) -> R s (snd (issueAll env rq arr s)).
Proof.
  intros H. revert s. induction arr as [|a arr IH]; intros s; simpl.
  - reflexivity.
  - specialize (IH (addCall (rq s a, mi env (calls s) (rq s a)) s)).
    destruct (issueAll env rq arr _) as [settled s']. simpl in *.
    etransitivity; [apply H | exact IH].
Qed.

Lemma respects_promiseAll {A} env picks (rq : State -> A -> MIRequest) k arr :
  (forall s a o, R s (addCall (rq s a, o) s)) ->
  (forall a o, respects R (k a o)) ->
  respects R (promiseAll env picks rq k arr).
Proof.
  intros Hrq Hk s. unfold promiseAll.
  pose proof (respects_issueAll env rq arr s Hrq) as Hi.
  destruct (issueAll env rq arr s) as [settled s']. simpl in Hi.
  etransitivity; [exact Hi|].
  apply respects_forEachM. intros [a o]. apply Hk.
Qed.

End Respects.

(** The primitive state updates, relation by relation. *)

Lemma callsGrow_addCall (P : MIRequest * MIOutcome -> Prop) c s :
  P c -> callsGrow P s (addCall c s).
Proof. intros H. exists [c]. split; [reflexivity | constructor; [exact H | constructor]]. Qed.

Lemma callsGrow_same (P : MIRequest * MIOutcome -> Prop) s s' :
  calls s' = calls s -> callsGrow P s s'.
Proof. intros H. exists []. rewrite app_nil_r. auto. Qed.

Lemma shownGrow_addShown (P : UiEvent -> Prop) u s :
  P u -> shownGrow P s (addShown u s).
Proof. intros H. exists [u]. split; [reflexivity | constructor; [exact H | constructor]]. Qed.

Lemma shownGrow_same (P : UiEvent -> Prop) s s' :
  shown s' = shown s -> shownGrow P s s'.
Proof. intros H. exists []. rewrite app_nil_r. auto. Qed.

Create HintDb respects discriminated.

#[local] Hint Resolve respects_ret respects_throw respects_pending respects_gets : respects.
#[local] Hint Resolve callsGrow_same shownGrow_same : respects.

(** Structural descent through a monadic term. *)
Ltac rapply lem := apply lem; try exact _.

Ltac respects_step :=
  lazymatch goal with
  | |- respects _ (bind _ _) => rapply respects_bind; [|intros ?]
  | |- respects _ (tryCatch _ _) => rapply respects_tryCatch; [|intros ?]
  | |- respects _ (forEachM _ _) => rapply respects_forEachM; intros ?
  | |- respects _ (promiseAll _ _ _ _ _) =>
      rapply respects_promiseAll; [intros ? ? ?|intros ? ?]
  | |- respects _ (executeRequest _ _) => rapply respects_executeRequest; intros ? ?
  | |- respects _ (modify _) => rapply respects_modify; intros ?
  | |- respects _ (ret _) => rapply respects_ret
  | |- respects _ (throw _) => rapply respects_throw
  | |- respects _ pending => rapply respects_pending
  | |- respects _ (gets _) => rapply respects_gets
  | |- respects _ (match ?x with _ => _ end) => destruct x
  end.

(** ** Compensation *)

Lemma rollbackEquipment_spec env s :
  exists deleted,
    map fst deleted = tracked s /\
    rollbackEquipment env s =
      (Ok tt, match tracked s with
              | [] => s
              | _ => setCreated (Some []) (addCalls (callsOf delRequest deleted) s)
              end).
Proof.
  unfold rollbackEquipment, tracked, bind, gets, modify.
  destruct (createdEquipment s) as [[|e l]|] eqn:Hc; cbv beta iota; cbn [default from_option].
  - exists []. auto.
  - pose proof (issueAll_spec env (fun _ equip => delRequest equip) (e :: l) s) as Hi.
    destruct Hi as [H1 H2]; [intros ? ? ?; reflexivity|].
    exists (fst (issueAll env (fun _ equip => delRequest equip) (e :: l) s)).
    split; [exact H1|]. rewrite H2. reflexivity.
  - exists []. auto.
Qed.

Lemma forEach_equipAdded (l : list (string * MIOutcome)) (st : State) (t : list Equip) :
  createdEquipment st = Some t ->
  exists good rest,
    l = good ++ rest /\
    Forall (fun x => returnsRecord (snd x) = true) good /\
    let st' := setCreated
                 (Some (t ++ map (fun x => equipOf (get "ITNO" st) (fst x)) good)) st in
    match rest with
    | [] => forEachM (fun '(a, o) => equipAdded a o) l st = (Ok tt, st')
    | x :: _ =>
        returnsRecord (snd x) = false /\
        forEachM (fun '(a, o) => equipAdded a o) l st =
          (Throw (creationError (fst x) (snd x)), st')
    end.
Proof.
  revert st t. induction l as [|[a o] l IH]; intros st t Hc.
  - exists [], []. split; [reflexivity|]. split; [constructor|]. simpl.
    rewrite app_nil_r. destruct st. simpl in *. subst. reflexivity.
  - destruct (returnsRecord o) eqn:Ho.
    + destruct o as [r|e]; [|discriminate]. simpl in Ho.
      apply bool_decide_eq_true_1 in Ho. destruct Ho as [it Hit].
      set (st1 := setCreated (Some (t ++ [equipOf (get "ITNO" st) a])) st).
      destruct (IH st1 (t ++ [equipOf (get "ITNO" st) a]) eq_refl)
        as (good & rest & Hl & Hgood & Hrest).
      exists ((a, Fulfilled r) :: good), rest.
      split; [simpl; congruence|].
      split; [constructor; [simpl; apply bool_decide_eq_true_2; eauto | exact Hgood]|].
      assert (Hstep : forEachM (fun '(a, o) => equipAdded a o) ((a, Fulfilled r) :: l) st
                      = forEachM (fun '(a, o) => equipAdded a o) l st1).
      { simpl. unfold bind at 1. unfold equipAdded at 1. rewrite Hit.
        unfold bind, gets, modify, tracked. rewrite Hc. reflexivity. }
      rewrite Hstep. simpl in *. rewrite <- app_assoc in Hrest. exact Hrest.
    + exists [], ((a, o) :: l). split; [reflexivity|]. split; [constructor|].
      simpl. split; [exact Ho|]. rewrite app_nil_r.
      assert (Hst : setCreated (Some t) st = st)
        by (destruct st; simpl in *; subst; reflexivity).
      rewrite Hst. unfold bind, equipAdded.
      destruct o as [r|e]; [|reflexivity].
      simpl in Ho. destruct (itemOf r) as [it|] eqn:Hit; [|reflexivity].
      exfalso. apply bool_decide_eq_false_1 in Ho. apply Ho. eauto.
Qed.

Lemma addEquip_spec env arr s :
  let settled := fst (issueAll env (addRequest env) arr (setCreated (Some []) s)) in
  let added := callsOf (addRequest env s) settled in
  exists good rest,
    map fst settled = arr /\
    arrival (picksAdd env) settled = good ++ rest /\
    Forall (fun x => returnsRecord (snd x) = true) good /\
    let created := map (fun x => equipOf (get "ITNO" s) (fst x)) good in
    match rest with
    | [] => addEquip env arr s = (Ok tt, setCreated (Some created) (addCalls added s))
    | x :: _ =>
        returnsRecord (snd x) = false /\
        exists deleted,
          map fst deleted = created /\
          addEquip env arr s =
            (Throw (creationError (fst x) (snd x)),
             setCreated (Some []) (addCalls (added ++ callsOf delRequest deleted) s))
    end.
Proof.
  intros settled added.
  pose proof (issueAll_spec env (addRequest env) arr (setCreated (Some []) s)) as Hi.
  destruct Hi as [Hfst Hsnd]; [intros ? ? ?; reflexivity|].
  fold settled in Hfst, Hsnd.
  change (callsOf (addRequest env (setCreated (Some []) s)) settled) with added in Hsnd.
  set (s1 := addCalls added (setCreated (Some []) s)) in *.
  destruct (forEach_equipAdded (arrival (picksAdd env) settled) s1 [] eq_refl)
    as (good & rest & Hord & Hgood & Hrun).
  exists good, rest. split; [exact Hfst|]. split; [exact Hord|]. split; [exact Hgood|].
  assert (Hadd : forall r s2,
            forEachM (fun '(a, o) => equipAdded a o) (arrival (picksAdd env) settled) s1
              = (r, s2) ->
            addEquip env arr s =
              match r with
              | Throw e => bind (rollbackEquipment env) (fun _ => throw e) s2
              | _ => (r, s2)
              end).
  { intros r s2 H. unfold addEquip, bind at 1, modify at 1, tryCatch, promiseAll.
    destruct (issueAll env (addRequest env) arr (setCreated (Some []) s))
      as [settled' s1'] eqn:Hissue.
    change settled' with settled. simpl in Hsnd. rewrite Hsnd, H.
    destruct r; reflexivity. }
  simpl in Hrun. simpl. destruct rest as [|x rest].
  - rewrite (Hadd _ _ Hrun). reflexivity.
  - destruct Hrun as [Hx Hrun]. split; [exact Hx|].
    rewrite (Hadd _ _ Hrun). unfold bind.
    match goal with |- context [rollbackEquipment env ?st] =>
      destruct (rollbackEquipment_spec env st) as (deleted & Hdel & ->) end.
    exists deleted. split; [exact Hdel|]. unfold throw.
    unfold tracked in *. simpl in *.
    destruct (map (fun x => equipOf (get "ITNO" s1) (fst x)) good) eqn:Hg.
    + destruct deleted; [|discriminate]. unfold s1, callsOf; simpl.
      rewrite app_nil_r. reflexivity.
    + unfold s1, addCalls, setCreated; simpl. rewrite app_assoc. reflexivity.
Qed.

(** ** What each step of the workflow touches *)

Lemma Tolerates_weaken R (K K' P P' : string -> bool) (Q Q' : UiEvent -> bool) :
  Tolerates R K P Q ->
  (forall k, K' k = true -> K k = true) ->
  (forall t, P' t = true -> P t = true) ->
  (forall u, Q' u = true -> Q u = true) ->
  Tolerates R K' P' Q'.
Proof.
  intros [H1 H2 H3 H4] HK HP HQ. split; auto.
Qed.

Lemma callsGrow_tolerates (P' : MIRequest * MIOutcome -> Prop) K P Q :
  (forall c, P (transaction (fst c)) = true -> P' c) ->
  Tolerates (callsGrow P') K P Q.
Proof.
  intros H. split; intros; try (apply callsGrow_same; reflexivity).
  apply callsGrow_addCall. auto.
Qed.

Lemma shownGrow_tolerates (Q' : UiEvent -> Prop) K P (Q : UiEvent -> bool) :
  (forall u, Q u = true -> Q' u) ->
  Tolerates (shownGrow Q') K P Q.
Proof.
  intros H. split; intros; try (apply shownGrow_same; reflexivity).
  apply shownGrow_addShown. auto.
Qed.

Lemma keeps_tolerates {X} (f : State -> X) K P Q :
  (forall k v s, K k = true -> f (set k v s) = f s) ->
  (forall b s, f (setWms b s) = f s) ->
  (forall c s, P (transaction (fst c)) = true -> f (addCall c s) = f s) ->
  (forall u s, Q u = true -> f (addShown u s) = f s) ->
  Tolerates (keeps f) K P Q.
Proof. intros H1 H2 H3 H4. split; unfold keeps; auto. Qed.

Ltac respects_prim HT :=
  first
    [ apply (tol_set _ _ _ _ HT); reflexivity
    | apply (tol_wms _ _ _ _ HT)
    | apply (tol_call _ _ _ _ HT); reflexivity
    | apply (tol_shown _ _ _ _ HT); reflexivity ].

Ltac respects_walk HT :=
  repeat first [ respects_step | solve [eauto with respects] | respects_prim HT ].

Section Steps.

Context (env : Env) (R : State -> State -> Prop) `{!PreOrder R}.

Lemma await_respects K P Q rq :
  Tolerates R K P Q -> P (transaction rq) = true -> respects R (await env rq).
Proof.
  intros HT HP. unfold await. respects_walk HT.
  apply (tol_call _ _ _ _ HT). exact HP.
Qed.

Lemma fetch_respects K P Q rq op :
  Tolerates R K P Q -> P (transaction rq) = true -> respects R (fetch env rq op).
Proof.
  intros HT HP. unfold fetch. rapply respects_bind.
  - eapply await_respects; eassumption.
  - intros r. respects_walk HT.
Qed.

Lemma assignFrom_respects K P Q it keys :
  Tolerates R K P Q -> forallb K keys = true -> respects R (assignFrom it keys).
Proof.
  intros HT HK. unfold assignFrom. induction keys as [|k keys IH]; simpl.
  - rapply respects_ret.
  - simpl in HK. apply andb_true_iff in HK as [Hk HK].
    rapply respects_bind; [|intros _; apply IH; exact HK].
    rapply respects_modify. intros s. apply (tol_set _ _ _ _ HT). exact Hk.
Qed.

Ltac steps_walk HT :=
  repeat first
    [ eapply fetch_respects; [exact HT | reflexivity]
    | eapply await_respects; [exact HT | reflexivity]
    | eapply assignFrom_respects; [exact HT | reflexivity]
    | respects_step | solve [eauto with respects] | respects_prim HT ].

Lemma validateFields_respects P Q :
  Tolerates R (oneOf fetchKeys) P Q -> respects R (validateFields env).
Proof. intros HT. unfold validateFields. respects_walk HT. Qed.

Lemma getPOLine_respects Q :
  Tolerates R (oneOf fetchKeys) (oneOf fetchTransactions) Q ->
  respects R (getPOLine env).
Proof. intros HT. unfold getPOLine. steps_walk HT. Qed.

Lemma lookups_respects Q :
  Tolerates R (oneOf fetchKeys) (oneOf fetchTransactions) Q ->
  respects R (lookups env).
Proof. intros HT. unfold lookups. steps_walk HT. Qed.

Lemma fetchSteps_respects Q :
  Tolerates R (oneOf fetchKeys) (oneOf fetchTransactions) Q ->
  respects R (fetchSteps env).
Proof.
  intros HT. unfold fetchSteps.
  rapply respects_bind; [eapply validateFields_respects; eassumption |].
  intros _. rapply respects_bind; [eapply getPOLine_respects; eassumption |].
  intros _. eapply lookups_respects; eassumption.
Qed.

Lemma dialogWarn_respects K P w :
  Tolerates R K P isWarnDialog -> respects R (dialogWarn env w).
Proof. intros HT. unfold dialogWarn. respects_walk HT. Qed.

Lemma warnings_respects K P :
  Tolerates R K P isWarnDialog -> respects R (warnings env).
Proof.
  intros HT. unfold warnings.
  repeat first [ eapply dialogWarn_respects; exact HT
               | respects_step | solve [eauto with respects] ].
Qed.

Lemma serialDialog_respects K P qty clicks :
  Tolerates R K P isSerialPrompt -> respects R (serialDialog qty clicks).
Proof.
  intros HT. induction clicks as [|[entries|] clicks IH]; simpl.
  - rapply respects_pending.
  - destruct (saveSerials qty entries).
    + rapply respects_bind; [|intros _; exact IH].
      rapply respects_modify. intros s. apply (tol_shown _ _ _ _ HT). reflexivity.
    + rapply respects_ret.
  - rapply respects_throw.
Qed.

Lemma promptSerials_respects K P :
  Tolerates R K P isSerialPrompt -> respects R (promptSerials env).
Proof.
  intros HT. unfold promptSerials.
  repeat first [ eapply serialDialog_respects; exact HT
               | respects_step | solve [eauto with respects] | respects_prim HT ].
Qed.

Lemma checkSer_respects K Q arr :
  Tolerates R K (oneOf ["GetItmLot"]) Q -> respects R (checkSer env arr).
Proof.
  intros HT. unfold checkSer. rapply respects_promiseAll.
  - intros s a o. apply (tol_call _ _ _ _ HT). reflexivity.
  - intros a o. unfold checkOutcome. respects_walk HT.
Qed.

Lemma addWhsHead_respects Q :
  Tolerates R (oneOf ["MSGN"]) (oneOf ["AddWhsHead"]) Q ->
  respects R (addWhsHead env).
Proof. intros HT. unfold addWhsHead. steps_walk HT. Qed.

Lemma addWhsPackAndLines_respects K Q lines :
  Tolerates R K (oneOf ["AddWhsPack"; "AddWhsLine"]) Q ->
  respects R (addWhsPackAndLines env lines).
Proof. intros HT. unfold addWhsPackAndLines, lineAdded. steps_walk HT. Qed.

Lemma prcWhsTran_respects K Q :
  Tolerates R K (oneOf ["PrcWhsTran"]) Q ->
  respects R (prcWhsTran env).
Proof. intros HT. unfold prcWhsTran. steps_walk HT. Qed.

End Steps.

(** ** The steps before the branch *)

Lemma Qgtb_true (a b : Q) : Qgtb a b = true <-> (b < a)%Q.
Proof.
  unfold Qgtb. rewrite negb_true_iff. split; intros H.
  - apply Qnot_le_lt. intros Hle. apply Qle_bool_iff in Hle. congruence.
  - destruct (Qle_bool a b) eqn:E; [|reflexivity].
    apply Qle_bool_iff in E. exfalso. eapply Qlt_not_le; eassumption.
Qed.

Lemma Qgtb_false (a b : Q) : Qgtb a b = false <-> ~ (b < a)%Q.
Proof.
  rewrite <- Qgtb_true. destruct (Qgtb a b); split; congruence.
Qed.

Lemma read_not_write (c : MIRequest * MIOutcome) :
  oneOf fetchTransactions (transaction (fst c)) = true -> isWrite c = false.
Proof.
  unfold isWrite, oneOf, fetchTransactions. generalize (transaction (fst c)).
  intros t H. simpl in H.
  repeat (apply orb_true_iff in H as [H|H];
          [apply String.eqb_eq in H; subst; reflexivity|]).
  discriminate.
Qed.

Lemma prelude_respects env R `{!PreOrder R} :
  Tolerates R (oneOf fetchKeys) (oneOf fetchTransactions) isWarnDialog ->
  respects R (fetchSteps env ;; warnings env).
Proof.
  intros HT. rapply respects_bind.
  - eapply fetchSteps_respects; [exact _ | exact HT].
  - intros _. eapply warnings_respects; [exact _ | exact HT].
Qed.

Lemma runBody_split env s :
  runBody env s = ((fetchSteps env ;; warnings env) ;; branch env) s.
Proof. unfold runBody. symmetry. apply bind_assoc. Qed.

Lemma run_eq env s :
  run env s =
  match runBody env s with
  | (Ok _, s') => (Ok tt, addShown SuccessDialog s')
  | (Throw e, s') => (Ok tt, addShown (ErrorDialog e) s')
  | (Pending, s') => (Pending, s')
  end.
Proof.
  unfold run, tryCatch, bind, modify.
  destruct (runBody env s) as [[[]|e|] s']; reflexivity.
Qed.

Lemma prelude_reads env s1 r :
  (fetchSteps env ;; warnings env) initial = (r, s1) ->
  Forall (fun c => isWrite c = false) (calls s1) /\
  Forall (fun u => isWarnDialog u = true) (shown s1) /\
  createdEquipment s1 = None.
Proof.
  intros H. split; [|split].
  - assert (HT : Tolerates (callsGrow (fun c => isWrite c = false))
                   (oneOf fetchKeys) (oneOf fetchTransactions) isWarnDialog)
      by (apply callsGrow_tolerates, read_not_write).
    destruct (prelude_respects env _ HT initial) as (cs & Hcs & HF).
    rewrite H in Hcs. simpl in Hcs. rewrite Hcs. exact HF.
  - assert (HT : Tolerates (shownGrow (fun u => isWarnDialog u = true))
                   (oneOf fetchKeys) (oneOf fetchTransactions) isWarnDialog)
      by (apply shownGrow_tolerates; auto).
    destruct (prelude_respects env _ HT initial) as (cs & Hcs & HF).
    rewrite H in Hcs. simpl in Hcs. rewrite Hcs. exact HF.
  - assert (HT : Tolerates (keeps createdEquipment)
                   (oneOf fetchKeys) (oneOf fetchTransactions) isWarnDialog)
      by (apply keeps_tolerates; reflexivity).
    pose proof (prelude_respects env _ HT initial) as Hk.
    rewrite H in Hk. exact Hk.
Qed.




(** ** The over-receipt warning *)




(** ** Steps that never wait *)

Lemma settles_ret {A} (a : A) : settles (ret a).
Proof. intros s. discriminate. Qed.

Lemma settles_throw {A} e : settles (@throw A e).
Proof. intros s. discriminate. Qed.

Lemma settles_gets {A} (f : State -> A) : settles (gets f).
Proof. intros s. discriminate. Qed.

Lemma settles_modify f : settles (modify f).
Proof. intros s. discriminate. Qed.

Lemma settles_executeRequest env rq : settles (executeRequest env rq).
Proof. intros s. discriminate. Qed.

Lemma settles_bind {A B} (m : M A) (k : A -> M B) :
  settles m -> (forall a, settles (k a)) -> settles (bind m k).
Proof.
  intros Hm Hk s. unfold bind. specialize (Hm s).
  destruct (m s) as [[a|e|] s1]; simpl in *; [apply Hk | discriminate | congruence].
Qed.

Lemma settles_tryCatch {A} (m : M A) (h : Err -> M A) :
  settles m -> (forall e, settles (h e)) -> settles (tryCatch m h).
Proof.
  intros Hm Hh s. unfold tryCatch. specialize (Hm s).
  destruct (m s) as [[a|e|] s1]; simpl in *; [discriminate | apply Hh | congruence].
Qed.

Lemma settles_forEachM {A} (f : A -> M unit) (l : list A) :
  (forall a, settles (f a)) -> settles (forEachM f l).
Proof.
  intros Hf. induction l as [|x l IH]; simpl.
  - apply settles_ret.
  - apply settles_bind; [apply Hf | intros _; exact IH].
Qed.

Lemma settles_promiseAll {A} env picks (rq : State -> A -> MIRequest) k arr :
  (forall a o, settles (k a o)) -> settles (promiseAll env picks rq k arr).
Proof.
  intros Hk s. unfold promiseAll. destruct (issueAll env rq arr s) as [settled s'].
  apply settles_forEachM. intros [a o]. apply Hk.
Qed.

Ltac settles_walk :=
  repeat lazymatch goal with
    | |- settles (bind _ _) => apply settles_bind; [|intros ?]
    | |- settles (tryCatch _ _) => apply settles_tryCatch; [|intros ?]
    | |- settles (forEachM _ _) => apply settles_forEachM; intros ?
    | |- settles (promiseAll _ _ _ _ _) => apply settles_promiseAll; intros ? ?
    | |- settles (executeRequest _ _) => apply settles_executeRequest
    | |- settles (modify _) => apply settles_modify
    | |- settles (ret _) => apply settles_ret
    | |- settles (throw _) => apply settles_throw
    | |- settles (gets _) => apply settles_gets
    | |- settles (match ?x with _ => _ end) => destruct x
    end.




Lemma submit_settles env lines : settles (submit env lines).
Proof.
  unfold submit, addWhsHead, addWhsPackAndLines, prcWhsTran, lineAdded, await.
  settles_walk.
Qed.



(** ** The receipt engine *)

#[local] Instance quiet_preorder T : PreOrder (quiet T).
Proof.
  split.
  - intros s. split; [reflexivity | auto].
  - intros s1 s2 s3 (C1 & E1 & S1 & G1) (C2 & E2 & S2 & G2).
    split; [etransitivity; eassumption|]. split; [congruence|]. split; [congruence|].
    intros k Hk. rewrite G2, G1 by assumption. reflexivity.
Qed.

Lemma get_set_ne k k' v s : k' <> k -> get k' (set k v s) = get k' s.
Proof.
  intros H. unfold get, set. simpl.
  destruct v; [apply lookup_insert_ne | apply lookup_delete_ne]; congruence.
Qed.

Lemma quiet_tolerates T :
  Tolerates (quiet T) (oneOf ["MSGN"]) (oneOf T) none.
Proof.
  split.
  - intros k v s Hk. simpl in Hk. rewrite orb_false_r in Hk.
    apply String.eqb_eq in Hk. subst k.
    split; [apply callsGrow_same; reflexivity|]. split; [reflexivity|].
    split; [reflexivity|]. intros k Hk. apply get_set_ne. exact Hk.
  - intros b s. split; [apply callsGrow_same; reflexivity | auto].
  - intros c s Hc. split; [apply callsGrow_addCall; exact Hc | auto].
  - intros u s Hu. discriminate.
Qed.

Lemma oneOf_incl (l l' : list string) t :
  (forall x, In x l -> In x l') -> oneOf l t = true -> oneOf l' t = true.
Proof.
  unfold oneOf. rewrite !existsb_exists. intros H (x & Hx & E). exists x. auto.
Qed.

Lemma process_split env lines s :
  process env lines s = (let* packNumber := submit env lines in
                         finalStatusValidation env packNumber) s.
Proof.
  unfold process, submit, bind.
  destruct (addWhsHead env s) as [[[]|?|] ?]; try reflexivity.
  destruct (addWhsPackAndLines env lines _) as [[?|?|] ?]; try reflexivity.
  destruct (prcWhsTran env _) as [[[]|?|] ?]; reflexivity.
Qed.

Lemma submit_quiet env lines : respects (quiet submitTransactions) (submit env lines).
Proof.
  pose proof (quiet_tolerates submitTransactions) as HT.
  unfold submit. rapply respects_bind.
  - eapply addWhsHead_respects with (Q := none); [exact _|].
    eapply Tolerates_weaken; [exact HT|auto| |auto].
    intros t. apply oneOf_incl. simpl. tauto.
  - intros _. rapply respects_bind.
    + eapply addWhsPackAndLines_respects with (Q := none) (K := oneOf ["MSGN"]); [exact _|].
      eapply Tolerates_weaken; [exact HT|auto| |auto].
      intros t. apply oneOf_incl. simpl. tauto.
    + intros pack. rapply respects_bind; [|intros _; rapply respects_ret].
      eapply prcWhsTran_respects with (Q := none) (K := oneOf ["MSGN"]); [exact _|].
      eapply Tolerates_weaken; [exact HT|auto| |auto].
      intros t. apply oneOf_incl. simpl. tauto.
Qed.

Lemma filter_none {A} (f : A -> bool) (l : list A) :
  Forall (fun x => f x = false) l -> List.filter f l = [].
Proof.
  induction 1 as [|x l Hx _ IH]; simpl; [reflexivity|]. rewrite Hx. exact IH.
Qed.

Lemma filter_all {A} (f : A -> bool) (l : list A) :
  Forall (fun x => f x = true) l -> List.filter f l = l.
Proof.
  induction 1 as [|x l Hx _ IH]; simpl; [reflexivity|]. rewrite Hx, IH. reflexivity.
Qed.

Lemma callsOf_fst {A} (rq : A -> MIRequest) settled :
  map fst (callsOf rq settled) = map rq (map fst settled).
Proof.
  unfold callsOf. rewrite !map_map. apply map_ext. intros [a o]. reflexivity.
Qed.

Lemma callsOf_Forall {A} (P : MIRequest * MIOutcome -> Prop) (rq : A -> MIRequest) settled :
  (forall a o, P (rq a, o)) -> Forall P (callsOf rq settled).
Proof.
  intros H. unfold callsOf. apply Forall_map. apply Forall_forall.
  intros [a o] _. apply H.
Qed.

Lemma Forall_transaction (T : list string) (f : MIRequest * MIOutcome -> bool) cs :
  (forall c, oneOf T (transaction (fst c)) = true -> f c = false) ->
  Forall (fun c => oneOf T (transaction (fst c)) = true) cs ->
  List.filter f cs = [].
Proof.
  intros H HF. apply filter_none. eapply Forall_impl; [exact HF | exact H].
Qed.

Lemma isTransaction_other (T : list string) p t c :
  oneOf T t = false ->
  oneOf T (transaction (fst c)) = true -> isTransaction p t c = false.
Proof.
  intros Ht Hc. unfold isTransaction.
  destruct (String.eqb_spec (transaction (fst c)) t) as [E|_];
    [|apply andb_false_r]. congruence.
Qed.

Lemma no_poll (T : list string) cs :
  oneOf T "GetWhsHead" = false ->
  Forall (fun c => oneOf T (transaction (fst c)) = true) cs ->
  forall st, ~ polledStatus cs st.
Proof.
  intros HT HF st (rq & r & it & Hin & Htx & _).
  rewrite Forall_forall in HF. specialize (HF _ Hin). simpl in HF. congruence.
Qed.

Lemma lineRequest_this s s' pack rec :
  this s = this s' -> lineRequest s pack rec = lineRequest s' pack rec.
Proof. intros H. unfold lineRequest, get. rewrite H. reflexivity. Qed.

Lemma packRequest_this s s' pack :
  this s = this s' -> packRequest s pack = packRequest s' pack.
Proof. intros H. unfold packRequest, get. rewrite H. reflexivity. Qed.

Lemma forEach_lineAdded (l : list (Line * MIOutcome)) s :
  snd (forEachM (fun '(a, o) => lineAdded a o) l s) = s.
Proof.
  induction l as [|[a o] l IH]; simpl; [reflexivity|].
  unfold bind. destruct o; simpl; [exact IH | reflexivity].
Qed.

Lemma addWhsPackAndLines_ok env lines s pack s' :
  addWhsPackAndLines env lines s = (Ok pack, s') ->
  pack = packNumberOf s /\
  exists o settled,
    map fst settled = lines /\
    s' = addCalls ((packRequest s pack, o) :: callsOf (lineRequest s pack) settled) s.
Proof.
  unfold addWhsPackAndLines, bind, gets, await, bind, executeRequest, id.
  set (pk := packNumberOf s).
  destruct (mi env (calls s) (packRequest s pk)) as [r|e] eqn:Eo; simpl;
    [|discriminate].
  unfold promiseAll.
  pose proof (issueAll_spec env (fun st rec => lineRequest st pk rec) lines
                (addCall (packRequest s pk, Fulfilled r) s)) as Hi.
  destruct Hi as [H1 H2]; [intros ? ? ?; reflexivity|].
  destruct (issueAll env _ lines _) as [settled s1]. simpl in H1, H2.
  pose proof (forEach_lineAdded (arrival (picksLines env) settled) s1) as Hs.
  destruct (forEachM _ _ s1) as [[[]|?|] s2]; simpl in *; try discriminate.
  intros H. injection H as <- <-. split; [reflexivity|].
  exists (Fulfilled r), settled. split; [exact H1|].
  rewrite addCalls_cons. subst s2. exact H2.
Qed.

Lemma submit_ok env lines s pack s3 cs :
  submit env lines s = (Ok pack, s3) ->
  calls s3 = calls s ++ cs ->
  pack = packNumberOf s /\
  map fst (List.filter isLine cs) = map (lineRequest s3 pack) lines /\
  map fst (List.filter isPack cs) = [packRequest s3 pack].
Proof.
  unfold submit, bind. intros H Hcs.
  pose proof (addWhsHead_respects env (quiet ["AddWhsHead"]) none
                (quiet_tolerates _) s) as H1.
  destruct (addWhsHead env s) as [[[]|?|] s1]; try discriminate.
  destruct H1 as ((cs1 & Hc1 & HF1) & _ & _ & Hg1). simpl in Hc1, Hg1.
  pose proof (addWhsPackAndLines_ok env lines s1) as H2.
  destruct (addWhsPackAndLines env lines s1) as [[pack'|?|] s2]; try discriminate.
  destruct (H2 _ _ eq_refl) as (Hpack & o & settled & Hset & Hs2). clear H2.
  assert (HT3 : Tolerates (keeps this) none (oneOf ["PrcWhsTran"]) none)
    by (apply keeps_tolerates; intros; try reflexivity; discriminate).
  pose proof (prcWhsTran_respects env (keeps this) none none HT3 s2) as H3k.
  pose proof (prcWhsTran_respects env
                (callsGrow (fun c => oneOf ["PrcWhsTran"] (transaction (fst c)) = true))
                none none (callsGrow_tolerates _ _ _ _ (fun c H => H)) s2) as H3c.
  destruct (prcWhsTran env s2) as [[[]|?|] s3']; try discriminate.
  injection H as -> ->. simpl in H3k, H3c. destruct H3c as (cs3 & Hc3 & HF3).
  unfold keeps in H3k.
  assert (Hpk : packNumberOf s1 = packNumberOf s).
  { unfold packNumberOf. rewrite !Hg1 by discriminate. reflexivity. }
  split; [congruence|].
  assert (Hthis : this s3 = this s1) by (rewrite H3k, Hs2; reflexivity).
  assert (Hcs' : cs = cs1 ++ ((packRequest s1 pack, o)
                              :: callsOf (lineRequest s1 pack) settled) ++ cs3).
  { rewrite Hc3, Hs2 in Hcs. simpl in Hcs. rewrite Hc1 in Hcs.
    rewrite <- !app_assoc in Hcs. apply app_inv_head in Hcs. symmetry. exact Hcs. }
  rewrite Hcs', !List.filter_app. simpl.
  rewrite (Forall_transaction ["AddWhsHead"] isLine cs1),
          (Forall_transaction ["PrcWhsTran"] isLine cs3),
          (Forall_transaction ["AddWhsHead"] isPack cs1),
          (Forall_transaction ["PrcWhsTran"] isPack cs3); try assumption;
    try (intros c; apply isTransaction_other; reflexivity).
  rewrite (filter_all isLine), (filter_none isPack);
    try (apply callsOf_Forall; intros; reflexivity).
  simpl. rewrite app_nil_r, callsOf_fst, Hset.
  rewrite (packRequest_this s3 s1 pack Hthis). split; [|reflexivity].
  apply map_ext. intros rec. symmetry. apply lineRequest_this. exact Hthis.
Qed.

Lemma finalStatus_spec env pack s :
  let rq := statusRequest (get "MSGN" s) in
  let o := mi env (calls s) rq in
  exists deleted,
    map fst deleted = tracked s /\
    finalStatusValidation env pack s =
    match o with
    | Rejected e => (Throw (RemoteError e), addCall (rq, o) s)
    | Fulfilled r =>
        match itemOf r with
        | None => (Throw StatusUnavailable, addCall (rq, o) s)
        | Some sit =>
            if jsEq (sit !! "STAT") "90" then (Ok tt, addCall (rq, o) s)
            else (Throw (ProcessingFailed (sit !! "STAT") (category (sit !! "STAT"))
                           (get "MSGN" s) pack),
                  match tracked s with
                  | [] => addCall (rq, o) s
                  | _ => setCreated (Some [])
                           (addCalls ((rq, o) :: callsOf delRequest deleted) s)
                  end)
        end
    end.
Proof.
  intros rq o.
  destruct (rollbackEquipment_spec env (addCall (rq, o) s)) as (deleted & Hdel & Hroll).
  exists deleted. split; [exact Hdel|].
  unfold finalStatusValidation, bind, gets, await, bind, executeRequest.
  fold rq. fold o. destruct o as [r|e]; simpl; [|reflexivity].
  destruct (itemOf r) as [sit|]; [|reflexivity].
  destruct (jsEq (sit !! "STAT") "90"); simpl; [reflexivity|].
  change (tracked (addCall (rq, Fulfilled r) s)) with (tracked s) in *.
  destruct (tracked s) as [|x t] eqn:Ht; [reflexivity|].
  rewrite Hroll. simpl. rewrite addCalls_cons. reflexivity.
Qed.

Lemma polledOnly_status cs rq r sit dels :
  (forall st, ~ polledStatus cs st) ->
  transaction rq = "GetWhsHead" ->
  itemOf r = Some sit ->
  Forall (fun c => transaction (fst c) = "Del") dels ->
  polledOnly (cs ++ (rq, Fulfilled r) :: dels) (sit !! "STAT").
Proof.
  intros Hno Htx Hit Hdels. split.
  - exists rq, r, sit. split; [|auto]. apply elem_of_app. right. left.
  - intros st' (rq' & r' & it' & Hin & Htx' & Hit' & Hst).
    apply elem_of_app in Hin as [Hin|Hin].
    + exfalso. apply (Hno st'). exists rq', r', it'. auto.
    + apply elem_of_cons in Hin as [Heq|Hin].
      * injection Heq as -> ->. congruence.
      * rewrite Forall_forall in Hdels. specialize (Hdels _ Hin). simpl in Hdels.
        congruence.
Qed.

(** The three ways [process] can end. *)
Lemma process_spec env lines s :
  let r := fst (process env lines s) in
  let s' := snd (process env lines s) in
  exists cs,
    calls s' = calls s ++ cs /\ shown s' = shown s /\
    (forall k, k <> "MSGN" -> get k s' = get k s) /\
    ( ((exists e, r = Throw e) /\ (forall st, ~ polledStatus cs st) /\
       createdEquipment s' = createdEquipment s /\ List.filter isDel cs = [])
      \/ (exists st, jsEq st "90" = true /\ r = Ok tt /\ polledOnly cs st /\
          createdEquipment s' = createdEquipment s /\ List.filter isDel cs = [] /\
          map fst (List.filter isLine cs) = map (lineRequest s' (packNumberOf s)) lines /\
          map fst (List.filter isPack cs) = [packRequest s' (packNumberOf s)])
      \/ (exists st, jsEq st "90" = false /\
          r = Throw (ProcessingFailed st (category st) (get "MSGN" s') (packNumberOf s)) /\
          polledOnly cs st /\ tracked s' = [] /\
          map fst (List.filter isDel cs) = map delRequest (tracked s)) ).
Proof.
  intros r s'. subst r s'. rewrite process_split. unfold bind.
  pose proof (submit_quiet env lines s) as Hq.
  pose proof (submit_ok env lines s) as Hok.
  pose proof (submit_settles env lines s) as Hset.
  destruct (submit env lines s) as [[pack|e|] s3]; simpl in Hq;
    destruct Hq as ((cs & Hcs & HF) & Hcr & Hsh & Hget);
    [| |exfalso; apply Hset; reflexivity].
  2: (exists cs; simpl; split; [exact Hcs|]; split; [exact Hsh|];
        split; [exact Hget|]; left; split; [eexists; reflexivity|];
        split; [eapply no_poll; [|exact HF]; reflexivity|];
        split; [exact Hcr|];
        eapply Forall_transaction; [|exact HF];
        intros c; apply isTransaction_other; reflexivity).
  destruct (Hok pack s3 cs eq_refl Hcs) as (Hpack & Hlines & Hpk). clear Hok.
  subst pack.
  assert (Hnopoll : forall st, ~ polledStatus cs st)
    by (eapply no_poll; [|exact HF]; reflexivity).
  assert (Hnodel : List.filter isDel cs = [])
    by (eapply Forall_transaction; [|exact HF];
        intros c; apply isTransaction_other; reflexivity).
  destruct (finalStatus_spec env (packNumberOf s) s3) as (deleted & Hdel & ->).
  set (rq := statusRequest (get "MSGN" s3)).
  destruct (mi env (calls s3) rq) as [resp|e] eqn:Eo.
  2:{ exists (cs ++ [(rq, Rejected e)]). simpl. rewrite Hcs, app_assoc.
      split; [reflexivity|]. split; [exact Hsh|]. split; [exact Hget|].
      left. split; [eexists; reflexivity|]. split; [|split; [exact Hcr|]].
      - intros st (rq' & r' & it' & Hin & Htx & _).
        apply elem_of_app in Hin as [Hin|Hin].
        + rewrite Forall_forall in HF. specialize (HF _ Hin). simpl in HF.
          rewrite Htx in HF. discriminate.
        + apply list_elem_of_singleton in Hin. discriminate.
      - rewrite List.filter_app, Hnodel. reflexivity. }
  destruct (itemOf resp) as [sit|] eqn:Hit.
  2:{ exists (cs ++ [(rq, Fulfilled resp)]). simpl. rewrite Hcs, app_assoc.
      split; [reflexivity|]. split; [exact Hsh|]. split; [exact Hget|].
      left. split; [eexists; reflexivity|]. split; [|split; [exact Hcr|]].
      - intros st (rq' & r' & it' & Hin & Htx & Hit' & _).
        apply elem_of_app in Hin as [Hin|Hin].
        + rewrite Forall_forall in HF. specialize (HF _ Hin). simpl in HF.
          rewrite Htx in HF. discriminate.
        + apply list_elem_of_singleton in Hin. injection Hin as -> ->. congruence.
      - rewrite List.filter_app, Hnodel. reflexivity. }
  destruct (jsEq (sit !! "STAT") "90") eqn:Hst.
  - exists (cs ++ [(rq, Fulfilled resp)]). simpl. rewrite Hcs, app_assoc.
    split; [reflexivity|]. split; [exact Hsh|]. split; [exact Hget|].
    right. left. exists (sit !! "STAT"). split; [exact Hst|]. split; [reflexivity|].
    split; [apply polledOnly_status; auto|]. split; [exact Hcr|].
    rewrite !List.filter_app, Hnodel. simpl. rewrite !app_nil_r.
    split; [reflexivity|]. split; [exact Hlines | exact Hpk].
  - assert (Htr : tracked s3 = tracked s) by (unfold tracked; rewrite Hcr; reflexivity).
    rewrite Htr in *.
    destruct (tracked s) as [|x t] eqn:Ht.
    + exists (cs ++ [(rq, Fulfilled resp)]). simpl. rewrite Hcs, app_assoc.
      split; [reflexivity|]. split; [exact Hsh|]. split; [exact Hget|].
      right. right. exists (sit !! "STAT"). split; [exact Hst|]. split; [reflexivity|].
      split; [apply polledOnly_status; auto|].
      split; [unfold tracked; simpl; rewrite Hcr; exact Ht|].
      rewrite List.filter_app, Hnodel. reflexivity.
    + exists (cs ++ (rq, Fulfilled resp) :: callsOf delRequest deleted). simpl.
      rewrite Hcs, app_assoc. split; [reflexivity|]. split; [exact Hsh|].
      split; [exact Hget|].
      right. right. exists (sit !! "STAT"). split; [exact Hst|]. split; [reflexivity|].
      split; [apply polledOnly_status; auto;
              apply callsOf_Forall; intros; reflexivity|].
      split; [reflexivity|].
      rewrite List.filter_app, Hnodel. simpl.
      rewrite (filter_all isDel) by (apply callsOf_Forall; intros; reflexivity).
      rewrite callsOf_fst, Hdel. reflexivity.
Qed.

(** ** The receipt of the serials *)

Lemma no_poll_app cs dels :
  (forall st, ~ polledStatus cs st) ->
  Forall (fun c => transaction (fst c) = "Del") dels ->
  forall st, ~ polledStatus (cs ++ dels) st.
Proof.
  intros Hno Hd st (rq & r & it & Hin & Htx & Hit & Hst).
  apply elem_of_app in Hin as [Hin|Hin].
  - apply (Hno st). exists rq, r, it. auto.
  - rewrite Forall_forall in Hd. specialize (Hd _ Hin). simpl in Hd. congruence.
Qed.

Lemma receiveSerials_eq env serials s :
  receiveSerials env serials s =
  match process env (map serialLine serials) s with
  | (Ok _, s1) => (Ok tt, setCreated (Some []) s1)
  | (Throw e, s1) => (Throw e, snd (rollbackEquipment env s1))
  | (Pending, s1) => (Pending, s1)
  end.
Proof.
  unfold receiveSerials, tryCatch, bind, modify.
  destruct (process env (map serialLine serials) s) as [[[]|e|] s1]; try reflexivity.
  destruct (rollbackEquipment_spec env s1) as (deleted & _ & ->). reflexivity.
Qed.

Lemma receiveSerials_spec env serials s :
  let r := fst (receiveSerials env serials s) in
  let s' := snd (receiveSerials env serials s) in
  exists cs,
    calls s' = calls s ++ cs /\ shown s' = shown s /\
    (forall k, k <> "MSGN" -> get k s' = get k s) /\
    ( ((exists e, r = Throw e) /\ (forall st, ~ polledStatus cs st) /\
       tracked s' = [] /\ map fst (List.filter isDel cs) = map delRequest (tracked s))
      \/ (exists st, jsEq st "90" = true /\ r = Ok tt /\ polledOnly cs st /\
          createdEquipment s' = Some [] /\ List.filter isDel cs = [] /\
          map fst (List.filter isLine cs) =
            map (lineRequest s' (packNumberOf s)) (map serialLine serials) /\
          map fst (List.filter isPack cs) = [packRequest s' (packNumberOf s)])
      \/ (exists st, jsEq st "90" = false /\
          r = Throw (ProcessingFailed st (category st) (get "MSGN" s') (packNumberOf s)) /\
          polledOnly cs st /\ tracked s' = [] /\
          map fst (List.filter isDel cs) = map delRequest (tracked s)) ).
Proof.
  intros r s'. subst r s'. rewrite receiveSerials_eq.
  destruct (process_spec env (map serialLine serials) s)
    as (cs & Hcs & Hsh & Hget & Hcases).
  destruct (process env (map serialLine serials) s) as [[[]|e|] s1]; simpl in *.
  - exists cs. split; [exact Hcs|]. split; [exact Hsh|]. split; [exact Hget|].
    destruct Hcases as [((e & He) & _) | [(st & Hst & _ & Hp & _ & Hd & Hl & Hk)
                                         | (st & _ & He & _)]];
      try discriminate.
    right. left. exists st. auto 10.
  - destruct (rollbackEquipment_spec env s1) as (deleted & Hdel & Hroll).
    rewrite Hroll. simpl.
    destruct Hcases as [(_ & Hno & Hcr & Hd) | [(st & _ & He & _)
                                              | (st & Hst & He & Hp & Htr & Hd)]];
      try discriminate.
    + assert (Htr : tracked s1 = tracked s) by (unfold tracked; rewrite Hcr; reflexivity).
      rewrite Htr in *. destruct (tracked s) as [|x t] eqn:Hts.
      * exists cs. split; [exact Hcs|]. split; [exact Hsh|]. split; [exact Hget|].
        left. split; [eauto|]. split; [exact Hno|]. split; [exact Htr|].
        rewrite Hd. reflexivity.
      * exists (cs ++ callsOf delRequest deleted). simpl. rewrite Hcs, app_assoc.
        split; [reflexivity|]. split; [exact Hsh|]. split; [exact Hget|].
        left. split; [eauto|].
        split; [apply no_poll_app; [exact Hno|];
                apply callsOf_Forall; intros; reflexivity|].
        split; [reflexivity|].
        rewrite List.filter_app, Hd. simpl.
        rewrite (filter_all isDel) by (apply callsOf_Forall; intros; reflexivity).
        rewrite callsOf_fst, Hdel. reflexivity.
    + rewrite Htr. exists cs. split; [exact Hcs|]. split; [exact Hsh|].
      split; [exact Hget|]. right. right. exists st. auto 10.
  - exfalso.
    destruct Hcases as [((e & He) & _) | [(st & _ & He & _) | (st & _ & He & _)]];
      discriminate.
Qed.

Lemma category_spec (st : JsVal) :
  (category st = HeaderLevel <-> st = Some "15" \/ st = Some "20") /\
  (category st = PackageLineLevel <->
     st = Some "25" \/ st = Some "30" \/ st = Some "35" \/ st = Some "40") /\
  (category st = OtherLevel <->
     st ∉ [Some "15"; Some "20"; Some "25"; Some "30"; Some "35"; Some "40"]).
Proof.
  unfold category.
  destruct (bool_decide (st ∈ [Some "15"; Some "20"])) eqn:H1.
  - apply bool_decide_eq_true_1 in H1.
    assert (H1' : st = Some "15" \/ st = Some "20").
    { rewrite !elem_of_cons in H1. rewrite elem_of_nil in H1. tauto. }
    split; [tauto|]. split.
    + split; [discriminate|]. intros H. destruct H1' as [->| ->];
        repeat (destruct H as [H|H]; [discriminate|]); discriminate.
    + split; [discriminate|]. intros H. exfalso. apply H.
      rewrite !elem_of_cons. tauto.
  - apply bool_decide_eq_false_1 in H1.
    assert (H1' : ~ (st = Some "15" \/ st = Some "20")).
    { intros H. apply H1. rewrite !elem_of_cons. tauto. }
    destruct (bool_decide (st ∈ [Some "25"; Some "30"; Some "35"; Some "40"])) eqn:H2.
    + apply bool_decide_eq_true_1 in H2.
      assert (H2' : st = Some "25" \/ st = Some "30" \/ st = Some "35" \/ st = Some "40").
      { rewrite !elem_of_cons in H2. rewrite elem_of_nil in H2. tauto. }
      split; [split; [discriminate | tauto]|]. split; [tauto|].
      split; [discriminate|]. intros H. exfalso. apply H. rewrite !elem_of_cons. tauto.
    + apply bool_decide_eq_false_1 in H2.
      assert (H2' : ~ (st = Some "25" \/ st = Some "30" \/
                       st = Some "35" \/ st = Some "40")).
      { intros H. apply H2. rewrite !elem_of_cons. tauto. }
      split; [split; [discriminate | tauto]|].
      split; [split; [discriminate | tauto]|].
      split; [|reflexivity]. intros _ H.
      rewrite !elem_of_cons in H. rewrite elem_of_nil in H. tauto.
Qed.

Lemma jsEq_spec (v : JsVal) (lit : string) : jsEq v lit = true <-> v = Some lit.
Proof.
  destruct v as [x|]; simpl; [|split; discriminate].
  rewrite String.eqb_eq. split; congruence.
Qed.

(** ** The serial branch *)

Lemma serialBranch_split env s :
  serialBranch env s = (let* serials := serialPreparation env in
                        receiveSerials env serials) s.
Proof.
  unfold serialBranch, serialPreparation, bind.
  destruct (promptSerials env s) as [[serials|?|] s2]; try reflexivity.
  destruct (checkSer env serials s2) as [[[]|?|] s3]; try reflexivity.
  destruct (addEquip env serials s3) as [[[]|?|] s4]; reflexivity.
Qed.

Lemma run_serial env s1 serials s :
  (fetchSteps env ;; warnings env) initial = (Ok tt, s1) ->
  jsEq (get "INDI" s1) "2" = true ->
  serialPreparation env s1 = (Ok serials, s) ->
  run env initial =
  match receiveSerials env serials s with
  | (Ok _, s') => (Ok tt, addShown SuccessDialog s')
  | (Throw e, s') => (Ok tt, addShown (ErrorDialog e) s')
  | (Pending, s') => (Pending, s')
  end.
Proof.
  intros Hpre Hindi Hprep.
  rewrite run_eq, runBody_split. unfold bind at 1. rewrite Hpre.
  unfold branch, bind, gets. rewrite Hindi.
  rewrite serialBranch_split. unfold bind. rewrite Hprep. reflexivity.
Qed.

Lemma keeps_this_tolerates P Q : Tolerates (keeps this) none P Q.
Proof. split; intros; try reflexivity; discriminate. Qed.

Lemma keeps_created_tolerates K P Q : Tolerates (keeps createdEquipment) K P Q.
Proof. split; intros; reflexivity. Qed.

Lemma keeps_shown_tolerates K P : Tolerates (keeps shown) K P none.
Proof. split; intros; try reflexivity; discriminate. Qed.

Lemma keeps_calls_tolerates K Q : Tolerates (keeps calls) K none Q.
Proof. split; intros; try reflexivity; discriminate. Qed.

(** What the serial branch has done when the equipment records exist. *)
Lemma serialPreparation_ok env s1 serials s :
  serialPreparation env s1 = (Ok serials, s) ->
  exists s2 cs0,
    promptSerials env s1 = (Ok serials, s2) /\
    this s = this s1 /\
    shown s = shown s2 /\
    calls s = calls s1 ++ cs0 /\
    Forall (fun c => oneOf ["GetItmLot"; "Add"] (transaction (fst c)) = true) cs0 /\
    createdEquipment s = Some (tracked s) /\
    tracked s ≡ₚ map (equipOf (get "ITNO" s1)) serials.
Proof.
  unfold serialPreparation, bind. intros H.
  pose proof (promptSerials_respects env (keeps this) none none
                (keeps_this_tolerates _ _) s1) as Hp1.
  pose proof (promptSerials_respects env (keeps calls) none none
                (keeps_calls_tolerates _ _) s1) as Hp2.
  destruct (promptSerials env s1) as [[serials'|?|] s2]; try discriminate.
  pose proof (checkSer_respects env (keeps this) none none serials'
                (keeps_this_tolerates _ _) s2) as Hc1.
  pose proof (checkSer_respects env (keeps shown) none none serials'
                (keeps_shown_tolerates _ _) s2) as Hc2.
  pose proof (checkSer_respects env
                (callsGrow (fun c => oneOf ["GetItmLot"] (transaction (fst c)) = true))
                none none serials' (callsGrow_tolerates _ _ _ _ (fun c H => H)) s2) as Hc3.
  destruct (checkSer env serials' s2) as [[[]|?|] s3]; try discriminate.
  destruct (addEquip_spec env serials' s3) as (good & rest & Hfst & Hord & Hgood & Hres).
  destruct (addEquip env serials' s3) as [[[]|?|] s4] eqn:Eadd; try discriminate.
  injection H as -> ->.
  destruct rest as [|x rest]; [|destruct Hres as (_ & d & _ & Hres); discriminate].
  injection Hres as ->. rewrite app_nil_r in Hord.
  simpl in Hp1, Hp2, Hc1, Hc2. cbn [snd] in Hc3. unfold keeps in *.
  destruct Hc3 as (cs3 & Hcs3 & HF3).
  eexists s2, (cs3 ++ _). split; [reflexivity|].
  split; [simpl; congruence|]. split; [simpl; exact Hc2|].
  split; [simpl; rewrite Hcs3, Hp2, app_assoc; reflexivity|].
  split; [|split; [reflexivity|]].
  - apply Forall_app. split.
    + eapply Forall_impl; [exact HF3|]. intros c. cbv beta.
      apply oneOf_incl. simpl. tauto.
    + apply callsOf_Forall. intros. reflexivity.
  - unfold tracked. simpl.
    assert (Hitno : get "ITNO" s3 = get "ITNO" s1) by (unfold get; congruence).
    rewrite Hitno, <- Hfst, <- Hord.
    rewrite (arrival_perm (picksAdd env)
               (fst (issueAll env (addRequest env) serials (setCreated (Some []) s3)))).
    rewrite map_map. reflexivity.
Qed.

Lemma prelude_calls env s1 r :
  (fetchSteps env ;; warnings env) initial = (r, s1) ->
  Forall (fun c => oneOf fetchTransactions (transaction (fst c)) = true) (calls s1).
Proof.
  intros H.
  assert (HT : Tolerates
                 (callsGrow (fun c => oneOf fetchTransactions (transaction (fst c)) = true))
                 (oneOf fetchKeys) (oneOf fetchTransactions) isWarnDialog)
    by (apply callsGrow_tolerates; auto).
  destruct (prelude_respects env _ HT initial) as (cs & Hcs & HF).
  rewrite H in Hcs. simpl in Hcs. rewrite Hcs. exact HF.
Qed.

Lemma polled_skip (T : list string) pre cs st :
  oneOf T "GetWhsHead" = false ->
  Forall (fun c => oneOf T (transaction (fst c)) = true) pre ->
  polledStatus (pre ++ cs) st -> polledStatus cs st.
Proof.
  intros HT HF (rq & r & it & Hin & Htx & Hit & Hst).
  apply elem_of_app in Hin as [Hin|Hin].
  - rewrite Forall_forall in HF. specialize (HF _ Hin). simpl in HF. congruence.
  - exists rq, r, it. auto.
Qed.

Lemma polledStatusb_sound cs st : polledStatusb cs st = true -> polledStatus cs st.
Proof.
  unfold polledStatusb. rewrite existsb_exists. intros ([rq o] & Hin & H).
  apply andb_true_iff in H as [Htx H]. apply String.eqb_eq in Htx. simpl in *.
  destruct o as [r|e]; [|discriminate].
  destruct (itemOf r) as [it|] eqn:Hit; [|discriminate].
  apply bool_decide_eq_true_1 in H.
  exists rq, r, it. split; [apply list_elem_of_In; exact Hin | auto].
Qed.

(** The calls of a run that got to the receipt of the serials: the
    look-ups, the checks and creations, then the receipt. *)
Lemma serial_run_calls env s1 serials s :
  (fetchSteps env ;; warnings env) initial = (Ok tt, s1) ->
  serialPreparation env s1 = (Ok serials, s) ->
  Forall (fun c => oneOf (fetchTransactions ++ ["GetItmLot"; "Add"])
                     (transaction (fst c)) = true) (calls s).
Proof.
  intros Hpre Hprep.
  destruct (serialPreparation_ok env s1 serials s Hprep)
    as (s2 & cs0 & _ & _ & _ & Hcs0 & HF0 & _).
  rewrite Hcs0. apply Forall_app. split.
  - eapply Forall_impl; [exact (prelude_calls env s1 _ Hpre)|].
    intros c. cbv beta. apply oneOf_incl. intros x Hx. apply in_or_app. auto.
  - eapply Forall_impl; [exact HF0|].
    intros c. cbv beta. apply oneOf_incl. intros x Hx. apply in_or_app. auto.
Qed.

(** C2. Whatever status the poll returns, ["90"] alone lets [process]
    return, without any deletion and with the tracking list untouched;
    any other value makes it delete the tracked equipment and throw the
    processing error whose category follows the status.  In a run
    through the serial branch the first case ends in the success dialog
    with the tracking list cleared and no deletion in the whole trace,
    the second in the error dialog with the tracking list empty and one
    deletion per tracked record. *)
Theorem status_decides_outcome (env : Env) :
  (forall lines s0 cs st,
     calls (snd (process env lines s0)) = calls s0 ++ cs ->
     polledStatus cs st ->
     (st = Some "90" ->
      fst (process env lines s0) = Ok tt /\
      createdEquipment (snd (process env lines s0)) = createdEquipment s0 /\
      List.filter isDel cs = []) /\
     (st <> Some "90" ->
      (exists msgn pacn,
         fst (process env lines s0) =
           Throw (ProcessingFailed st (category st) msgn pacn)) /\
      tracked (snd (process env lines s0)) = [] /\
      map fst (List.filter isDel cs) = map delRequest (tracked s0))) /\
  (forall s1 serials s st,
     (fetchSteps env ;; warnings env) initial = (Ok tt, s1) ->
     jsEq (get "INDI" s1) "2" = true ->
     serialPreparation env s1 = (Ok serials, s) ->
     let final := snd (run env initial) in
     polledStatus (calls final) st ->
     (st = Some "90" ->
      reported final = Some SuccessDialog /\
      createdEquipment final = Some [] /\
      List.filter isDel (calls final) = []) /\
     (st <> Some "90" ->
      (exists msgn pacn,
         reported final =
           Some (ErrorDialog (ProcessingFailed st (category st) msgn pacn))) /\
      tracked final = [] /\
      map fst (List.filter isDel (calls final)) = map delRequest (tracked s))) /\
  (forall st,
     (category st = HeaderLevel <-> st = Some "15" \/ st = Some "20") /\
     (category st = PackageLineLevel <->
        st = Some "25" \/ st = Some "30" \/ st = Some "35" \/ st = Some "40") /\
     (category st = OtherLevel <->
        st ∉ [Some "15"; Some "20"; Some "25"; Some "30"; Some "35"; Some "40"])).
Proof.
  split; [|split; [|exact category_spec]].
  - intros lines s0 cs st Hcalls Hpoll.
    destruct (process_spec env lines s0) as (cs' & Hcs' & _ & _ & Hcases).
    rewrite Hcs' in Hcalls. apply app_inv_head in Hcalls. subst cs'.
    destruct Hcases as [(_ & Hno & _) | [(st0 & Hst & Hr & [_ Honly] & Hcr & Hd & _)
                                        | (st0 & Hst & Hr & [_ Honly] & Htr & Hd)]].
    + exfalso. exact (Hno st Hpoll).
    + rewrite (Honly st Hpoll). apply jsEq_spec in Hst. subst st0.
      split; [auto|]. intros Hne. congruence.
    + rewrite (Honly st Hpoll).
      assert (Hne : st0 <> Some "90")
        by (intros E; apply jsEq_spec in E; congruence).
      split; [intros E; congruence|]. intros _. split; [eauto|]. auto.
  - intros s1 serials s st Hpre Hindi Hprep final Hpoll. subst final.
    pose proof (serial_run_calls env s1 serials s Hpre Hprep) as HFs.
    assert (Hnodel : List.filter isDel (calls s) = []).
    { eapply Forall_transaction; [|exact HFs].
      intros c; apply isTransaction_other; reflexivity. }
    rewrite (run_serial env s1 serials s Hpre Hindi Hprep) in *.
    destruct (receiveSerials_spec env serials s) as (cs & Hcs & _ & _ & Hcases).
    destruct (receiveSerials env serials s) as [[[]|e|] s'] eqn:Erec;
      simpl in Hcs, Hcases, Hpoll |- *; rewrite Hcs in Hpoll |- *;
      apply (polled_skip (fetchTransactions ++ ["GetItmLot"; "Add"]) _ _ _ eq_refl HFs)
        in Hpoll;
      rewrite List.filter_app, Hnodel; simpl;
      destruct Hcases as [((e0 & He0) & Hno & Htr & Hd)
                         | [(st0 & Hst & Hr & [_ Honly] & Hcr & Hd & _)
                           | (st0 & Hst & Hr & [_ Honly] & Htr & Hd)]];
      try discriminate; try (exfalso; exact (Hno st Hpoll)).
    + rewrite (Honly st Hpoll). apply jsEq_spec in Hst. subst st0.
      split; [|intros Hne; congruence]. intros _.
      split; [apply last_snoc|]. split; [exact Hcr | exact Hd].
    + rewrite (Honly st Hpoll).
      assert (Hne : st0 <> Some "90")
        by (intros E; apply jsEq_spec in E; congruence).
      split; [intros E; congruence|]. intros _. injection Hr as ->.
      split; [eexists _, _; apply last_snoc|]. split; [exact Htr | exact Hd].
Qed.

Lemma status_decides_outcome_witness :
  let env := Demo.env "3" "2" "10" "" "B" "35" Proceed [ClickSave ["A"; "B"; "C"]] [1; 0] in
  let s := snd (serialPreparation env (snd ((fetchSteps env ;; warnings env) initial))) in
  let final := snd (run env initial) in
  (exists msgn pacn,
     reported final =
       Some (ErrorDialog (ProcessingFailed (Some "35") (category (Some "35")) msgn pacn))) /\
  tracked final = [] /\
  map fst (List.filter isDel (calls final)) = map delRequest (tracked s).
Proof.
  intros env s final.
  eapply (proj1 (proj2 (status_decides_outcome env))
            (snd ((fetchSteps env ;; warnings env) initial)) ["A"; "B"; "C"] s (Some "35")).
  - vm_compute. reflexivity.
  - vm_compute. reflexivity.
  - vm_compute. reflexivity.
  - apply polledStatusb_sound. vm_compute. reflexivity.
  - discriminate.
Defined.

(** ** The other branches *)

Section OtherBranches.

Context (env : Env) (R : State -> State -> Prop) `{!PreOrder R}.

Lemma lotDialog_respects K P expd clicks :
  Tolerates R K P isLotPrompt -> respects R (lotDialog expd clicks).
Proof.
  intros HT. induction clicks as [|[fields|] clicks IH]; simpl.
  - rapply respects_pending.
  - destruct (saveLot expd fields).
    + rapply respects_bind; [|intros _; exact IH].
      rapply respects_modify. intros s. apply (tol_shown _ _ _ _ HT). reflexivity.
    + rapply respects_ret.
  - rapply respects_throw.
Qed.

Lemma promptLot_respects K P :
  Tolerates R K P isLotPrompt -> respects R (promptLot env).
Proof.
  intros HT. unfold promptLot.
  repeat first [ eapply lotDialog_respects; exact HT
               | respects_step | solve [eauto with respects] | respects_prim HT ].
Qed.



End OtherBranches.






(** ** The serial dialog and the lines of a successful serial run *)

Lemma serialDialog_ok qty clicks s serials s' :
  serialDialog qty clicks s = (Ok serials, s') ->
  exists entries,
    In (ClickSave entries) clicks /\ saveSerials qty entries = Resolved serials.
Proof.
  revert s. induction clicks as [|[entries|] clicks IH]; intros s; simpl;
    try discriminate.
  destruct (saveSerials qty entries) as [err|ser] eqn:Hsave.
  - unfold bind, modify. intros H. destruct (IH _ H) as (en & Hin & Hen). eauto.
  - unfold ret. intros H. injection H as -> _. eauto.
Qed.

Lemma serialDialog_shown qty clicks s :
  exists ev,
    shown (snd (serialDialog qty clicks s)) = shown s ++ ev /\
    Forall (fun u => isValidationShown u = true) ev.
Proof.
  revert s. induction clicks as [|[entries|] clicks IH]; intros s; simpl.
  - exists []. rewrite app_nil_r. auto.
  - destruct (saveSerials qty entries) as [err|ser].
    + unfold bind, modify. destruct (IH (addShown (ValidationShown err) s)) as (ev & H1 & H2).
      destruct (serialDialog qty clicks _) as [[?|?|] s2]; simpl in *;
        exists (ValidationShown err :: ev); rewrite H1, <- app_assoc;
        (split; [reflexivity | constructor; [reflexivity | exact H2]]).
    + exists []. rewrite app_nil_r. auto.
  - exists []. rewrite app_nil_r. auto.
Qed.

Lemma promptSerials_ok env s1 serials s2 :
  promptSerials env s1 = (Ok serials, s2) ->
  let qty := num (get "RVQA" s1) in
  exists entries,
    In (ClickSave entries) (serialClicks env) /\
    saveSerials qty entries = Resolved serials.
Proof.
  unfold promptSerials, bind, gets, modify. simpl.
  destruct (Qgtb _ _); [discriminate|].
  destruct (serialDialog _ _ _) as [[ser|?|] s3] eqn:Hd; try discriminate.
  intros H. injection H as -> ->. eapply serialDialog_ok. exact Hd.
Qed.

Lemma promptSerials_shown_n env s1 (n : nat) :
  loopCount (num (get "RVQA" s1)) = n ->
  Qgtb (num (get "RVQA" s1)) (inject_Z (Z.of_nat MAX_SERIALS)) = false ->
  exists ev,
    shown (snd (promptSerials env s1)) = shown s1 ++ SerialDialog n :: ev /\
    Forall (fun u => isValidationShown u = true) ev.
Proof.
  intros Hn Hle. unfold promptSerials, bind, gets, modify. simpl.
  rewrite Hle, Hn.
  destruct (serialDialog_shown (num (get "RVQA" s1)) (serialClicks env)
              (addShown (SerialDialog n) s1)) as (ev & H1 & H2).
  exists ev. split; [|exact H2].
  destruct (serialDialog _ _ _) as [[?|?|] s3]; simpl in *;
    rewrite H1, <- app_assoc; reflexivity.
Qed.

Lemma promptSerials_shown env s1 (N : nat) :
  (num (get "RVQA" s1) == inject_Z (Z.of_nat N))%Q ->
  (N <= MAX_SERIALS)%nat ->
  exists ev,
    shown (snd (promptSerials env s1)) = shown s1 ++ SerialDialog N :: ev /\
    Forall (fun u => isValidationShown u = true) ev.
Proof.
  intros Hq HN. apply promptSerials_shown_n.
  - apply loopCount_inject. symmetry. exact Hq.
  - apply Qgtb_false. rewrite Hq. apply Qle_not_lt. rewrite <- Zle_Qle. lia.
Qed.

Lemma mkRequest_lookup p t (rec : list (string * JsVal)) n k v :
  NoDup (map fst rec) -> In (k, v) rec -> record (mkRequest p t rec n) !! k = v.
Proof.
  unfold mkRequest. simpl. induction rec as [|[k0 v0] rec IH]; simpl;
    intros Hnd Hin; [contradiction|].
  apply NoDup_cons in Hnd as [Hk0 Hnd].
  assert (Hnone : forall k', k' ∉ map fst rec ->
            (list_to_map (omap (fun '(k, v) => (fun x => (k, x)) <$> v) rec)
               : gmap string string) !! k' = None).
  { intros k' Hk'. apply not_elem_of_list_to_map_1. intros Hin'. apply Hk'.
    apply list_elem_of_fmap in Hin' as ([k1 x1] & -> & Hin1).
    apply list_elem_of_omap in Hin1 as ([k2 v2] & Hin2 & Hf).
    destruct v2; simpl in Hf; [|discriminate]. injection Hf as -> ->.
    apply list_elem_of_fmap. exists (k1, Some x1). auto. }
  destruct Hin as [Heq|Hin].
  - injection Heq as -> ->. destruct v as [x|]; simpl.
    + apply lookup_insert_eq.
    + apply Hnone. exact Hk0.
  - assert (Hne : k0 <> k).
    { intros ->. apply Hk0. apply list_elem_of_fmap. exists (k, v).
      split; [reflexivity | apply list_elem_of_In; exact Hin]. }
    destruct v0 as [x0|]; simpl.
    + rewrite lookup_insert_ne by exact Hne. apply IH; assumption.
    + apply IH; assumption.
Qed.

Lemma serialLine_record st pack x :
  x <> "" ->
  let rq := lineRequest st pack (serialLine x) in
  record rq !! "BANO" = Some x /\
  record rq !! "RVQA" = Some "1" /\
  record rq !! "EXPI" = None /\
  record rq !! "PACN" = Some pack.
Proof.
  intros Hx rq. subst rq. unfold lineRequest.
  assert (Ht : truthy (BANO (serialLine x)) = true).
  { simpl. apply negb_true_iff. apply String.eqb_neq. exact Hx. }
  rewrite Ht.
  repeat split; apply mkRequest_lookup;
    try (simpl; apply (bool_decide_unpack _); vm_compute; reflexivity);
    simpl; tauto.
Qed.

Lemma packRequest_record st pack : record (packRequest st pack) !! "PACN" = Some pack.
Proof.
  unfold packRequest. apply mkRequest_lookup;
    [simpl; apply (bool_decide_unpack _); vm_compute; reflexivity | simpl; tauto].
Qed.

Lemma violations_valid_batch (qty : Q) (entries serials : list string) :
  saveSerials qty entries = Resolved serials ->
  serials = map (valueAt entries) (seq 0 (loopCount qty)) /\
  Forall (fun v => fieldViolation v = None) serials /\
  NoDup serials.
Proof.
  intros H. unfold saveSerials in H.
  pose proof (scanFields_all_valid entries 0 (loopCount qty)) as Hall.
  destruct (scanFields entries 0 (loopCount qty)) as [ser invalid]. simpl in Hall.
  destruct invalid; [|discriminate].
  destruct (Qeq_bool (inject_Z (Z.of_nat (setSize ser))) qty) eqn:Hq;
    simpl in H; [|discriminate].
  injection H as <-. destruct (Hall eq_refl) as [Hs Hv].
  split; [exact Hs|]. split; [rewrite Hs; exact Hv|].
  apply (accepted_NoDup qty); [|exact Hq].
  rewrite Hs, length_map, length_seq. reflexivity.
Qed.

Lemma packNumberOf_this s s' : this s = this s' -> packNumberOf s = packNumberOf s'.
Proof. intros H. unfold packNumberOf, get. rewrite H. reflexivity. Qed.

(** A run through the serial branch whose [try] block completes. *)
Lemma serial_success env s1 :
  (fetchSteps env ;; warnings env) initial = (Ok tt, s1) ->
  jsEq (get "INDI" s1) "2" = true ->
  fst (runBody env initial) = Ok tt ->
  exists serials s2,
    promptSerials env s1 = (Ok serials, s2) /\
    let final := snd (run env initial) in
    let pack := packNumberOf s1 in
    reported final = Some SuccessDialog /\
    createdEquipment final = Some [] /\
    map fst (List.filter isLine (calls final)) =
      map (fun x => lineRequest final pack (serialLine x)) serials /\
    map fst (List.filter isPack (calls final)) = [packRequest final pack].
Proof.
  intros Hpre Hindi Hok.
  assert (Hbody : runBody env initial =
                  (let* serials := serialPreparation env in
                   receiveSerials env serials) s1).
  { rewrite runBody_split. unfold bind at 1. rewrite Hpre.
    unfold branch, bind, gets. rewrite Hindi. apply serialBranch_split. }
  rewrite Hbody in Hok. unfold bind in Hok.
  destruct (serialPreparation env s1) as [[serials|e|] s] eqn:Hprep;
    try discriminate.
  destruct (serialPreparation_ok env s1 serials s Hprep)
    as (s2 & cs0 & Hprompt & Hthis & _ & _ & _ & _ & _).
  exists serials, s2. split; [exact Hprompt|].
  pose proof (serial_run_calls env s1 serials s Hpre Hprep) as HFs.
  assert (Hnl : List.filter isLine (calls s) = []).
  { eapply Forall_transaction; [|exact HFs].
    intros c; apply isTransaction_other; reflexivity. }
  assert (Hnp : List.filter isPack (calls s) = []).
  { eapply Forall_transaction; [|exact HFs].
    intros c; apply isTransaction_other; reflexivity. }
  rewrite (run_serial env s1 serials s Hpre Hindi Hprep).
  destruct (receiveSerials_spec env serials s) as (cs & Hcs & _ & _ & Hcases).
  destruct (receiveSerials env serials s) as [[[]|e'|] s'] eqn:Erec; try discriminate.
  simpl in Hcs, Hcases |- *.
  destruct Hcases as [((e0 & He0) & _) | [(st & _ & _ & _ & Hcr & _ & Hl & Hp)
                                         | (st & _ & He & _)]];
    try discriminate.
  split; [apply last_snoc|]. split; [exact Hcr|].
  rewrite Hcs, !List.filter_app, Hnl, Hnp.
  simpl. rewrite Hl, Hp, map_map, (packNumberOf_this s s1 Hthis).
  split; reflexivity.
Qed.

(** C3. With a requested quantity [N] within the limit, the serial
    branch opens the dialog with exactly [N] inputs; and when the run
    succeeds, the serials it was given are the [N] trimmed inputs of an
    accepted Save, and the trace holds one [AddWhsPack] and exactly one
    [AddWhsLine] per serial, each with that serial as [BANO], quantity
    ["1"], no [EXPI], and the pack number of the single pack. *)
Theorem serial_lines_match_quantity (env : Env) (s1 : State) (N : nat) :
  (fetchSteps env ;; warnings env) initial = (Ok tt, s1) ->
  jsEq (get "INDI" s1) "2" = true ->
  (num (get "RVQA" s1) == inject_Z (Z.of_nat N))%Q ->
  (N <= MAX_SERIALS)%nat ->
  (exists ev,
     shown (snd (promptSerials env s1)) = shown s1 ++ SerialDialog N :: ev /\
     Forall (fun u => isValidationShown u = true) ev) /\
  (fst (runBody env initial) = Ok tt ->
   let final := snd (run env initial) in
   let pack := packNumberOf s1 in
   exists entries serials,
     In (ClickSave entries) (serialClicks env) /\
     serials = map (valueAt entries) (seq 0 N) /\
     List.length serials = N /\
     NoDup serials /\
     reported final = Some SuccessDialog /\
     map fst (List.filter isPack (calls final)) = [packRequest final pack] /\
     record (packRequest final pack) !! "PACN" = Some pack /\
     map fst (List.filter isLine (calls final)) =
       map (fun x => lineRequest final pack (serialLine x)) serials /\
     List.length (List.filter isLine (calls final)) = N /\
     forall x, x ∈ serials ->
       let rq := lineRequest final pack (serialLine x) in
       record rq !! "BANO" = Some x /\
       record rq !! "RVQA" = Some "1" /\
       record rq !! "EXPI" = None /\
       record rq !! "PACN" = Some pack).
Proof.
  intros Hpre Hindi Hq HN. split; [apply promptSerials_shown; assumption|].
  intros Hok final pack.
  destruct (serial_success env s1 Hpre Hindi Hok)
    as (serials & s2 & Hprompt & Hrep & _ & Hlines & Hpack).
  destruct (promptSerials_ok env s1 serials s2 Hprompt) as (entries & Hin & Hsave).
  destruct (violations_valid_batch (num (get "RVQA" s1)) entries serials Hsave)
    as (Hser & Hvalid & Hnd).
  rewrite (loopCount_inject N) in Hser by (symmetry; exact Hq).
  assert (Hlen : List.length serials = N)
    by (rewrite Hser, length_map, length_seq; reflexivity).
  exists entries, serials. fold final in Hrep, Hlines, Hpack. fold pack in Hlines, Hpack.
  split; [exact Hin|]. split; [exact Hser|]. split; [exact Hlen|]. split; [exact Hnd|].
  split; [exact Hrep|]. split; [exact Hpack|]. split; [apply packRequest_record|].
  split; [exact Hlines|]. split.
  - rewrite <- (length_map fst), Hlines, length_map. exact Hlen.
  - intros x Hx. apply serialLine_record.
    rewrite Forall_forall in Hvalid. specialize (Hvalid x Hx).
    apply fieldViolation_None in Hvalid. tauto.
Qed.

Lemma serial_lines_match_quantity_witness :
  let env := Demo.env "3" "2" "10" "" "" "90" Proceed
               [ClickSave ["A"; "B"; "A"]; ClickSave ["A"; " B "; "C"]] [1; 0] in
  let s1 := snd ((fetchSteps env ;; warnings env) initial) in
  let final := snd (run env initial) in
  let pack := packNumberOf s1 in
  exists entries serials,
    In (ClickSave entries) (serialClicks env) /\
    serials = map (valueAt entries) (seq 0 3) /\
    List.length serials = 3%nat /\
    NoDup serials /\
    reported final = Some SuccessDialog /\
    map fst (List.filter isPack (calls final)) = [packRequest final pack] /\
    record (packRequest final pack) !! "PACN" = Some pack /\
    map fst (List.filter isLine (calls final)) =
      map (fun x => lineRequest final pack (serialLine x)) serials /\
    List.length (List.filter isLine (calls final)) = 3%nat /\
    forall x, x ∈ serials ->
      let rq := lineRequest final pack (serialLine x) in
      record rq !! "BANO" = Some x /\
      record rq !! "RVQA" = Some "1" /\
      record rq !! "EXPI" = None /\
      record rq !! "PACN" = Some pack.
Proof.
  intros env s1 final pack.
  apply (serial_lines_match_quantity env s1 3).
  - vm_compute. reflexivity.
  - vm_compute. reflexivity.
  - vm_compute. reflexivity.
  - unfold MAX_SERIALS. lia.
  - vm_compute. reflexivity.
Defined.

(** ** Quantities that are not positive *)







(** ** The worked example of the serial branch *)

Example five_serials_received :
  let env := Demo.env "5" "2" "10" "" "" "90" Proceed
               [ClickSave ["SN-1"; "SN-2"; "SN-3"; "SN-4"; "SN-5"]] [3; 1] in
  let final := snd (run env initial) in
  reported final = Some SuccessDialog /\
  tracked final = [] /\
  List.length (List.filter isPack (calls final)) = 1%nat /\
  List.length (List.filter isLine (calls final)) = 5%nat /\
  List.filter isDel (calls final) = [].
Proof. vm_compute. repeat split; reflexivity. Qed.

(** ** Strings *)

Lemma append_cons (c : ascii) (s t : string) : String c s +:+ t = String c (s +:+ t).
Proof. reflexivity. Qed.

Lemma append_empty (t : string) : "" +:+ t = t.
Proof. reflexivity. Qed.

Lemma append_nil_r (s : string) : s +:+ "" = s.
Proof.
  induction s as [|c s IH]; [reflexivity|]. rewrite append_cons, IH. reflexivity.
Qed.

Lemma append_assoc (a b c : string) : (a +:+ b) +:+ c = a +:+ (b +:+ c).
Proof.
  induction a as [|x a IH]; [reflexivity|]. rewrite !append_cons, IH. reflexivity.
Qed.

Lemma append_eq_empty (s t : string) : s +:+ t = "" -> s = "" /\ t = "".
Proof.
  destruct s; [rewrite append_empty; intros ->; auto | rewrite append_cons; discriminate].
Qed.

Lemma append_inv_head (s a b : string) : s +:+ a = s +:+ b -> a = b.
Proof.
  induction s as [|c s IH]; [auto|]. rewrite !append_cons. intros [= H]. auto.
Qed.

Lemma append_inv_length (a a' b b' : string) :
  String.length a = String.length a' -> a +:+ b = a' +:+ b' -> a = a' /\ b = b'.
Proof.
  revert a'. induction a as [|c a IH]; intros [|c' a']; try discriminate.
  - auto.
  - rewrite !append_cons. simpl. intros [= Hl] [= -> H].
    destruct (IH _ Hl H) as [-> ->]. auto.
Qed.

Lemma chars_append (s t : string) : chars (s +:+ t) = chars s ++ chars t.
Proof.
  unfold chars. induction s as [|c s IH]; [reflexivity|].
  rewrite append_cons. simpl. rewrite IH. reflexivity.
Qed.

Lemma length_chars (s : string) : List.length (chars s) = String.length s.
Proof.
  unfold chars. induction s as [|c s IH]; simpl; [reflexivity | rewrite IH; reflexivity].
Qed.

Lemma length_append (s t : string) :
  String.length (s +:+ t) = (String.length s + String.length t)%nat.
Proof.
  induction s as [|c s IH]; [reflexivity|].
  rewrite append_cons. simpl. rewrite IH. reflexivity.
Qed.

Lemma unchars_chars (s : string) : unchars (chars s) = s.
Proof. apply string_of_list_ascii_of_string. Qed.

Lemma chars_unchars (l : list ascii) : chars (unchars l) = l.
Proof. apply list_ascii_of_string_of_list_ascii. Qed.

Lemma truthy_spec (v : JsVal) : truthy v = true <-> exists s, v = Some s /\ s <> "".
Proof.
  destruct v as [s|]; simpl.
  - rewrite negb_true_iff, String.eqb_neq. split; [eauto | intros (? & [= <-] & ?); auto].
  - split; [discriminate | intros (? & ? & _); discriminate].
Qed.

Lemma nonEmpty_orEmpty (v : JsVal) : nonEmpty (orEmpty v) = truthy v.
Proof.
  unfold orEmpty, nonEmpty. destruct (truthy v) eqn:E; [|reflexivity].
  apply truthy_spec in E as (s & -> & Hs). simpl.
  apply negb_true_iff, String.eqb_neq. exact Hs.
Qed.

(** ** The text of the error dialog *)

Lemma primaryMessage_nonempty error operation : primaryMessage error operation <> "".
Proof.
  assert (Hop : operation +:+ " failed" <> "")
    by (intros H; apply append_eq_empty in H as [_ H]; discriminate).
  unfold primaryMessage. destruct error as [e|]; [|exact Hop].
  destruct (truthy (ErrorObject.errorMessage e)) eqn:E1.
  { apply truthy_spec in E1 as (s & -> & Hs). exact Hs. }
  destruct (truthy (ErrorObject.message e)) eqn:E2.
  { apply truthy_spec in E2 as (s & -> & Hs). exact Hs. }
  exact Hop.
Qed.

Lemma extractErrorMessage_split error operation :
  exists details,
    extractErrorMessage error operation = primaryMessage error operation +:+ details /\
    (details = "" <->
     match error with
     | None => True
     | Some e =>
         truthy (ErrorObject.errorCode e) = false /\
         truthy (ErrorObject.errorMessage e) = false /\
         truthy (ErrorObject.errorField e) = false /\
         truthy (ErrorObject.program e) = false
     end).
Proof.
  destruct error as [e|]; simpl.
  { rewrite !nonEmpty_orEmpty.
    destruct (truthy (ErrorObject.errorCode e)) eqn:E1,
             (truthy (ErrorObject.errorMessage e)) eqn:E2,
             (truthy (ErrorObject.errorField e)) eqn:E3,
             (truthy (ErrorObject.program e)) eqn:E4;
      cbn [orb andb];
      eexists; (split; [reflexivity|]);
      try (split; [intros _; auto | reflexivity]);
      (split; [|intros (? & ? & ? & ?); discriminate]);
      repeat match goal with
             | |- context [if ?b then _ else _] => destruct b
             end; cbn; discriminate. }
  exists "". rewrite append_nil_r. split; [reflexivity | tauto].
Qed.

(** X1. The text of the error dialog is never empty.  It starts with
    the primary message ([errorMessage], else [message], else
    "<operation> failed"); the block of technical details follows
    exactly when one of [errorCode], [errorMessage], [errorField],
    [program] is set, so an [Error] that only carries a [message] (or a
    value that only carries a [transaction]) is shown as its message
    alone.  As soon as the value carries a message the name of the
    operation is not used, and the text that [run] shows for a caught
    error never depends on the fall-back sentence passed beside it. *)
Theorem error_text_shape (error : option ErrorObject.t) (operation : string) :
  extractErrorMessage error operation <> "" /\
  (exists details,
     extractErrorMessage error operation = primaryMessage error operation +:+ details /\
     (details = "" <->
      match error with
      | None => True
      | Some e =>
          truthy (ErrorObject.errorCode e) = false /\
          truthy (ErrorObject.errorMessage e) = false /\
          truthy (ErrorObject.errorField e) = false /\
          truthy (ErrorObject.program e) = false
      end)) /\
  (forall e operation',
     error = Some e ->
     truthy (ErrorObject.errorMessage e) = true \/ truthy (ErrorObject.message e) = true ->
     extractErrorMessage error operation' = extractErrorMessage error operation) /\
  (forall e m,
     error = Some e -> m <> "" ->
     ErrorObject.message e = Some m ->
     truthy (ErrorObject.errorMessage e) = false ->
     truthy (ErrorObject.errorCode e) = false ->
     truthy (ErrorObject.errorField e) = false ->
     truthy (ErrorObject.program e) = false ->
     extractErrorMessage error operation = m /\ reportCaught e = m) /\
  (forall e message,
     showErrorDialog message (Some e) = reportCaught e /\ reportCaught e <> "").
Proof.
  assert (Hne : forall error operation, extractErrorMessage error operation <> "").
  { intros err op H. destruct (extractErrorMessage_split err op) as (d & Hd & _).
    rewrite Hd in H. apply append_eq_empty in H as [H _].
    exact (primaryMessage_nonempty _ _ H). }
  split; [apply Hne|]. split; [apply extractErrorMessage_split|].
  split; [|split].
  - intros e op' -> Hmsg. simpl.
    destruct Hmsg as [H|H]; rewrite H; [reflexivity|].
    destruct (truthy (ErrorObject.errorMessage e)); reflexivity.
  - intros e m -> Hm Hmsg H1 H2 H3 H4.
    assert (Hplain : forall op, extractErrorMessage (Some e) op = m).
    { intros op. destruct (extractErrorMessage_split (Some e) op) as (d & Hd & Hiff).
      assert (d = "") as -> by (apply Hiff; auto).
      rewrite Hd, append_nil_r. simpl. rewrite H1, Hmsg. simpl.
      apply String.eqb_neq in Hm. rewrite Hm. reflexivity. }
    split; [apply Hplain|]. unfold reportCaught, showErrorDialog. apply Hplain.
  - intros e msg. split; [reflexivity|]. unfold reportCaught, showErrorDialog. apply Hne.
Qed.

Lemma error_text_shape_witness :
  let e := {| ErrorObject.errorMessage := None;
              ErrorObject.message := Some "Missing required fields: PUNO";
              ErrorObject.errorCode := None; ErrorObject.errorField := None;
              ErrorObject.program := None;
              ErrorObject.transaction := Some "GetLine" |} in
  extractErrorMessage (Some e) "Processing" = "Missing required fields: PUNO" /\
  reportCaught e = "Missing required fields: PUNO".
Proof.
  intros e.
  apply (error_text_shape (Some e) "Processing") with (e := e);
    [reflexivity | discriminate | reflexivity..].
Defined.

(** ** Decimal numerals *)

Lemma pretty_N_char_digit (k : N) :
  (k < 10)%N -> isDigit (pretty_N_char k) = true /\ digitVal (pretty_N_char k) = Z.of_N k.
Proof.
  intros H.
  assert (k = 0 \/ k = 1 \/ k = 2 \/ k = 3 \/ k = 4 \/ k = 5 \/ k = 6 \/ k = 7 \/
          k = 8 \/ k = 9)%N as Hk by lia.
  repeat (destruct Hk as [->|Hk]; [split; reflexivity|]). subst. split; reflexivity.
Qed.

Lemma pretty_N_go_app (x : N) (s : string) :
  pretty_N_go x s = pretty_N_go x "" +:+ s.
Proof.
  revert s. induction (N.lt_wf_0 x) as [x _ IH]. intros s.
  destruct (N.eq_dec x 0%N) as [->|Hx].
  - rewrite !pretty_N_go_0. reflexivity.
  - assert (0 < x)%N as Hpos by lia.
    rewrite (pretty_N_go_step x s), (pretty_N_go_step x "") by exact Hpos.
    assert (x / 10 < x)%N as Hlt by (apply N.div_lt; lia).
    rewrite (IH _ Hlt (String _ s)), (IH _ Hlt (String _ "")).
    rewrite append_assoc. reflexivity.
Qed.

Lemma pretty_N_go_snoc (x : N) :
  (0 < x)%N ->
  pretty_N_go x "" =
  pretty_N_go (x / 10)%N "" +:+ String (pretty_N_char (x mod 10)%N) "".
Proof. intros H. rewrite pretty_N_go_step by exact H. apply pretty_N_go_app. Qed.

Lemma digitsZ_snoc (l : list ascii) (c : ascii) :
  digitsZ (l ++ [c]) = (10 * digitsZ l + digitVal c)%Z.
Proof. unfold digitsZ. rewrite fold_left_app. reflexivity. Qed.

Lemma pretty_N_go_digits (x : N) :
  Forall (fun c => isDigit c = true) (chars (pretty_N_go x "")) /\
  digitsZ (chars (pretty_N_go x "")) = Z.of_N x.
Proof.
  induction (N.lt_wf_0 x) as [x _ IH].
  destruct (N.eq_dec x 0%N) as [->|Hx].
  - rewrite pretty_N_go_0. split; [constructor | reflexivity].
  - assert (0 < x)%N as Hpos by lia.
    assert (x / 10 < x)%N as Hlt by (apply N.div_lt; lia).
    destruct (IH _ Hlt) as [IHd IHv].
    destruct (pretty_N_char_digit (x mod 10)%N) as [Hd Hv]; [apply N.mod_lt; lia|].
    rewrite pretty_N_go_snoc by exact Hpos. rewrite chars_append. split.
    + apply Forall_app. split; [exact IHd|]. constructor; [exact Hd | constructor].
    + change (chars (String (pretty_N_char (x mod 10)%N) "")) with [pretty_N_char (x mod 10)%N].
      rewrite digitsZ_snoc, IHv, Hv.
      rewrite (N.div_mod x 10%N) at 3 by lia. lia.
Qed.

Lemma pretty_nat_digits (n : nat) :
  pretty n <> "" /\
  Forall (fun c => isDigit c = true) (chars (pretty n)) /\
  digitsZ (chars (pretty n)) = Z.of_nat n.
Proof.
  unfold pretty, pretty_nat, pretty, pretty_N.
  destruct (decide (N.of_nat n = 0%N)) as [H0|Hn].
  - assert (n = 0%nat) as -> by lia.
    split; [discriminate|]. split; [repeat constructor | reflexivity].
  - destruct (pretty_N_go_digits (N.of_nat n)) as [Hd Hv]. split; [|split].
    + intros He. rewrite He in Hv. change (0%Z = Z.of_N (N.of_nat n)) in Hv. lia.
    + exact Hd.
    + rewrite Hv. lia.
Qed.

(** ** [num] on decimal numerals *)


Lemma digit_not_hyphen (c : ascii) : isDigit c = true -> isHyphen c = false.
Proof.
  unfold isDigit, isHyphen. intros H. apply andb_true_iff in H as [H1 H2].
  apply Nat.leb_le in H1. apply Nat.eqb_neq. lia.
Qed.








(** ** The date of [today] *)

Lemma in_range (P : nat -> bool) (lo len : nat) :
  forallb P (seq lo len) = true ->
  forall k, (lo <= k < lo + len)%nat -> P k = true.
Proof.
  intros H k Hk. rewrite forallb_forall in H. apply H. apply in_seq. exact Hk.
Qed.

Lemma pretty_N_go_length (x : N) :
  (0 < x)%N ->
  String.length (pretty_N_go x "") = S (String.length (pretty_N_go (x / 10)%N "")).
Proof.
  intros H. rewrite pretty_N_go_snoc by exact H. rewrite length_append. simpl. lia.
Qed.

Lemma div10_spec (x : N) : (10 * (x / 10) <= x < 10 * (x / 10) + 10)%N.
Proof.
  pose proof (N.div_mod x 10 ltac:(lia)) as H.
  pose proof (N.mod_lt x 10 ltac:(lia)) as Hr.
  revert H Hr. generalize (x mod 10)%N (x / 10)%N. intros r q H Hr. lia.
Qed.

Lemma year_length (year : nat) :
  (1000 <= Z.of_nat year <= 9999)%Z -> String.length (pretty year) = 4%nat.
Proof.
  intros H. unfold pretty, pretty_nat, pretty, pretty_N.
  assert (1000 <= N.of_nat year <= 9999)%N as Hx by lia.
  generalize dependent (N.of_nat year). clear H. intros x Hx.
  destruct (decide (x = 0%N)) as [H0|_]; [lia|].
  pose proof (div10_spec x) as H1. set (x1 := (x / 10)%N) in *.
  pose proof (div10_spec x1) as H2. set (x2 := (x1 / 10)%N) in *.
  pose proof (div10_spec x2) as H3. set (x3 := (x2 / 10)%N) in *.
  pose proof (div10_spec x3) as H4.
  rewrite (pretty_N_go_length x) by lia. fold x1.
  rewrite (pretty_N_go_length x1) by lia. fold x2.
  rewrite (pretty_N_go_length x2) by lia. fold x3.
  rewrite (pretty_N_go_length x3) by lia.
  assert (x3 / 10 = 0)%N as -> by lia.
  reflexivity.
Qed.

Lemma two_digits (k : nat) :
  (1 <= k <= 31)%nat ->
  String.length (padStart 2 "0" (pretty k)) = 2%nat /\
  Forall (fun c => isDigit c = true) (chars (padStart 2 "0" (pretty k))) /\
  digitsZ (chars (padStart 2 "0" (pretty k))) = Z.of_nat k.
Proof.
  intros H.
  assert (Hall : forallb
    (fun k : nat => (String.length (padStart 2 "0" (pretty k)) =? 2)%nat &&
              forallb isDigit (chars (padStart 2 "0" (pretty k))) &&
              (digitsZ (chars (padStart 2 "0" (pretty k))) =? Z.of_nat k)%Z)
    (seq 1 31) = true) by (vm_compute; reflexivity).
  pose proof (in_range _ _ _ Hall k ltac:(lia)) as Hk.
  cbv beta in Hk. apply andb_true_iff in Hk as [Hk H3].
  apply andb_true_iff in Hk as [H1 H2].
  apply Nat.eqb_eq in H1. apply Z.eqb_eq in H3.
  rewrite forallb_forall in H2. split; [exact H1|]. split; [|exact H3].
  apply List.Forall_forall. exact H2.
Qed.

(** X3. [today] yields the eight digits YYYYMMDD, month and day padded
    with a zero, for every date of a year with four digits; different
    dates give different texts. *)
Theorem today_is_eight_digits (year month day : nat) :
  (1000 <= Z.of_nat year <= 9999)%Z -> (month <= 11)%nat -> (1 <= day <= 31)%nat ->
  String.length (Clock.today year month day) = 8%nat /\
  isDigitString (Clock.today year month day) = true /\
  (forall year' month' day',
     (1000 <= Z.of_nat year' <= 9999)%Z -> (month' <= 11)%nat -> (1 <= day' <= 31)%nat ->
     Clock.today year' month' day' = Clock.today year month day ->
     year' = year /\ month' = month /\ day' = day).
Proof.
  intros Hy Hm Hd. unfold Clock.today.
  pose proof (year_length year Hy) as Ly.
  destruct (two_digits (month + 1)) as (Lm & Dm & Vm); [lia|].
  destruct (two_digits day) as (Ld & Dd & Vd); [lia|].
  split; [|split].
  - rewrite !length_append, Ly, Lm, Ld. reflexivity.
  - unfold isDigitString. rewrite !chars_append. apply forallb_forall.
    apply List.Forall_forall. repeat (apply Forall_app; split); try assumption.
    apply pretty_nat_digits.
  - intros y' m' d' Hy' Hm' Hd' Heq.
    pose proof (year_length y' Hy') as Ly'.
    destruct (two_digits (m' + 1)) as (Lm' & _ & Vm'); [lia|].
    destruct (two_digits d') as (Ld' & _ & Vd'); [lia|].
    apply append_inv_length in Heq as [Hyy Heq]; [|congruence].
    apply append_inv_length in Heq as [Hmm Hdd]; [|congruence].
    apply (inj pretty) in Hyy. rewrite Hmm in Vm'. rewrite Hdd in Vd'. lia.
Qed.

Lemma today_is_eight_digits_witness :
  String.length (Clock.today 2025 7 5) = 8%nat /\
  isDigitString (Clock.today 2025 7 5) = true /\
  (forall year' month' day',
     (1000 <= Z.of_nat year' <= 9999)%Z -> (month' <= 11)%nat -> (1 <= day' <= 31)%nat ->
     Clock.today year' month' day' = Clock.today 2025 7 5 ->
     year' = 2025%nat /\ month' = 7%nat /\ day' = 5%nat).
Proof. apply (today_is_eight_digits 2025 7 5); lia. Defined.

(** ** Generated serials *)

Lemma dropSpace_id (l : list ascii) :
  Forall (fun c => isSpace c = false) l -> dropSpace l = l.
Proof. destruct 1 as [|c l Hc _]; simpl; [reflexivity | rewrite Hc; reflexivity]. Qed.

Lemma trim_id (s : string) :
  Forall (fun c => isSpace c = false) (chars s) -> trim s = s.
Proof.
  intros H. unfold trim. rewrite (dropSpace_id _ H).
  rewrite dropSpace_id by (apply Forall_rev; exact H).
  rewrite rev_involutive. apply unchars_chars.
Qed.

Lemma dropSpace_keeps (l : list ascii) (c : ascii) :
  c ∈ l -> isSpace c = false -> c ∈ dropSpace l.
Proof.
  intros Hin Hc. induction l as [|x l IH]; simpl; [exact Hin|].
  destruct (isSpace x) eqn:Ex; [|exact Hin].
  apply IH. apply elem_of_cons in Hin as [->|Hin]; [congruence | exact Hin].
Qed.

Lemma trim_keeps (s : string) (c : ascii) :
  c ∈ chars s -> isSpace c = false -> c ∈ chars (trim s).
Proof.
  intros Hin Hc. unfold trim. rewrite chars_unchars.
  apply list_elem_of_In, in_rev. rewrite rev_involutive. apply list_elem_of_In.
  apply dropSpace_keeps; [|exact Hc].
  apply list_elem_of_In, in_rev. rewrite rev_involutive. apply list_elem_of_In.
  apply dropSpace_keeps; assumption.
Qed.

Lemma serialChar_not_space (c : ascii) : serialChar c = true -> isSpace c = false.
Proof.
  unfold serialChar, isSpace, isUpper, isDigit, isHyphen. intros H.
  repeat match type of H with
         | (_ || _ = true) => apply orb_true_iff in H as [H|H]
         | (_ && _ = true) => apply andb_true_iff in H as [? H]
         end;
    repeat match goal with
           | H : (_ <=? _)%nat = true |- _ => apply Nat.leb_le in H
           | H : (_ =? _)%nat = true |- _ => apply Nat.eqb_eq in H
           end;
    repeat (apply orb_false_iff; split);
    try apply andb_false_iff;
    rewrite ?Nat.leb_gt, ?Nat.eqb_neq; lia.
Qed.

Lemma digit_serialChar (c : ascii) : isDigit c = true -> serialChar c = true.
Proof. unfold serialChar. intros ->. destruct (isUpper c); reflexivity. Qed.

Lemma small_numeral_length (k : nat) :
  (1 <= k <= 25)%nat -> (String.length (pretty k) <= 2)%nat.
Proof.
  intros H.
  assert (Hall : forallb (fun k : nat => (String.length (pretty k) <=? 2)%nat)
                   (seq 1 25) = true) by (vm_compute; reflexivity).
  apply Nat.leb_le. apply (in_range _ _ _ Hall). lia.
Qed.

Lemma generateSerials_lookup (poNumber : string) (N i : nat) :
  (i < N)%nat ->
  fieldVal (generateSerials poNumber (inject_Z (Z.of_nat N))) i =
  poNumber +:+ "-" +:+ pretty (i + 1)%nat.
Proof.
  intros Hi. unfold fieldVal, generateSerials.
  rewrite (loopCount_inject N) by reflexivity.
  rewrite list_lookup_fmap, lookup_seq_lt by exact Hi. reflexivity.
Qed.

(** X4. The button that fills the serial dialog writes one value per
    input, all different.  When the order number only has characters
    of the serial rule and at most 17 of them, a Save right after it
    is accepted with exactly the generated values; when the order
    number has a character outside the rule that is not white space
    (a lower-case letter, say), every input is rejected. *)
Theorem generated_serials_accepted (poNumber : string) (N : nat) :
  (N <= MAX_SERIALS)%nat ->
  let qty := inject_Z (Z.of_nat N) in
  let batch := generateSerials poNumber qty in
  List.length batch = N /\
  NoDup batch /\
  (Forall (fun c => serialChar c = true) (chars poNumber) ->
   (String.length poNumber <= 17)%nat ->
   saveSerials qty batch = Resolved batch) /\
  ((exists c, c ∈ chars poNumber /\ serialChar c = false /\ isSpace c = false) ->
   (1 <= N)%nat ->
   exists invalid,
     saveSerials qty batch = Shown (InvalidInput invalid) /\ List.length invalid = N).
Proof.
  intros HN qty batch.
  assert (Hloop : loopCount qty = N) by (apply loopCount_inject; reflexivity).
  assert (Hlen : List.length batch = N).
  { unfold batch, generateSerials. rewrite Hloop, length_map, length_seq. reflexivity. }
  assert (Hnd : NoDup batch).
  { unfold batch, generateSerials. apply NoDup_fmap_2; [|apply NoDup_seq].
    intros i j H. apply append_inv_head, append_inv_head in H.
    apply (inj pretty) in H. lia. }
  split; [exact Hlen|]. split; [exact Hnd|]. split.
  - intros Hchars Hpo.
    assert (Hvalid : Forall (fun e => fieldViolation e = None /\ trim e = e) batch).
    { unfold batch, generateSerials. rewrite Hloop. apply Forall_fmap, Forall_seq.
      intros i Hi. simpl.
      destruct (pretty_nat_digits (i + 1)) as (Hne & Hd & _).
      pose proof (small_numeral_length (i + 1) ltac:(unfold MAX_SERIALS in HN; lia)) as Hl.
      assert (Hall : Forall (fun c => serialChar c = true)
                       (chars (poNumber +:+ "-" +:+ pretty (i + 1)%nat))).
      { rewrite !chars_append. apply Forall_app. split; [exact Hchars|].
        apply Forall_app. split; [repeat constructor|].
        eapply Forall_impl; [exact Hd|]. apply digit_serialChar. }
      split.
      - apply fieldViolation_None. split; [|split; [|exact Hall]].
        + intros H. apply append_eq_empty in H as [_ H]. discriminate.
        + rewrite !length_append. simpl. lia.
      - apply trim_id. eapply Forall_impl; [exact Hall|]. apply serialChar_not_space. }
    assert (Htrim : map trim batch = batch).
    { rewrite <- (map_id batch) at 2. apply map_ext_Forall.
      eapply Forall_impl; [exact Hvalid|]. intros e [_ He]. exact He. }
    rewrite saveSerials_valid.
    + rewrite Htrim.
      assert (setSize batch = N) as -> by (rewrite <- Hlen; apply setSize_NoDup; exact Hnd).
      unfold qty. rewrite (proj2 (Qeq_bool_iff _ _)) by reflexivity. reflexivity.
    + rewrite Hlen, Hloop. reflexivity.
    + eapply Forall_impl; [exact Hvalid|]. intros e [He1 He2]. rewrite He2. exact He1.
  - intros (c & Hin & Hc & Hsp) H1.
    assert (Hbad : forall j, (j < N)%nat -> fieldViolation (valueAt batch j) <> None).
    { intros j Hj Hnone. apply fieldViolation_None in Hnone as (_ & _ & Hall).
      unfold valueAt in Hall. unfold batch, qty in Hall.
      rewrite generateSerials_lookup in Hall by exact Hj.
      rewrite List.Forall_forall in Hall.
      assert (serialChar c = true); [|congruence].
      apply Hall. apply list_elem_of_In. apply trim_keeps; [|exact Hsp].
      rewrite chars_append. apply elem_of_app. left. exact Hin. }
    assert (Hinv : List.length (snd (scanFields batch 0 N)) = N).
    { rewrite scanFields_snd. clear -Hbad. revert Hbad.
      change N with (0 + N)%nat at 1. generalize 0%nat as lo.
      assert (forall len lo,
                (forall j, (lo <= j < lo + len)%nat ->
                           fieldViolation (valueAt batch j) <> None) ->
                List.length
                  (omap (fun j => (fun v => (S j, v)) <$> fieldViolation (valueAt batch j))
                        (seq lo len)) = len) as Hgen.
      { induction len as [|len IH]; intros lo H; [reflexivity|]. simpl.
        destruct (fieldViolation (valueAt batch lo)) eqn:E.
        - simpl. f_equal. apply IH. intros j Hj. apply H. lia.
        - exfalso. apply (H lo); [lia | exact E]. }
      intros lo H. apply Hgen. intros j Hj. apply H. lia. }
    unfold saveSerials. rewrite Hloop.
    destruct (scanFields batch 0 N) as [serials invalid]. simpl in Hinv.
    destruct invalid as [|x invalid]; [simpl in Hinv; lia|].
    eexists. split; [reflexivity | exact Hinv].
Qed.

Lemma generated_serials_accepted_witness :
  let qty := inject_Z (Z.of_nat 3) in
  let batch := generateSerials "4500001" qty in
  List.length batch = 3%nat /\
  NoDup batch /\
  (Forall (fun c => serialChar c = true) (chars "4500001") ->
   (String.length "4500001" <= 17)%nat ->
   saveSerials qty batch = Resolved batch) /\
  ((exists c, c ∈ chars "4500001" /\ serialChar c = false /\ isSpace c = false) ->
   (1 <= 3)%nat ->
   exists invalid,
     saveSerials qty batch = Shown (InvalidInput invalid) /\ List.length invalid = 3%nat).
Proof. apply (generated_serials_accepted "4500001" 3). vm_compute. lia. Defined.

(** ** Quantities the serial dialog can accept *)

Lemma saveSerials_size (qty : Q) (entries serials : list string) :
  saveSerials qty entries = Resolved serials ->
  (inject_Z (Z.of_nat (setSize serials)) == qty)%Q.
Proof.
  unfold saveSerials. destruct (scanFields entries 0 (loopCount qty)) as [l invalid].
  destruct invalid; [|discriminate].
  destruct (Qeq_bool (inject_Z (Z.of_nat (setSize l))) qty) eqn:E; [|discriminate].
  simpl. intros [= <-]. apply Qeq_bool_iff. exact E.
Qed.

(** X5. A Save of the serial dialog is only ever accepted when the
    requested quantity is a whole number, and then with exactly that
    many serials, all different.  For a quantity that is not a whole
    number (2.5, or a negative one) every Save ends in a validation
    message, so the dialog can only be cancelled. *)
Theorem accepted_batch_matches_quantity (qty : Q) (entries : list string) :
  (forall serials,
     saveSerials qty entries = Resolved serials ->
     (qty == inject_Z (Z.of_nat (List.length serials)))%Q /\
     List.length serials = loopCount qty /\
     NoDup serials) /\
  ((forall n : nat, ~ (qty == inject_Z (Z.of_nat n))%Q) ->
   exists e, saveSerials qty entries = Shown e).
Proof.
  assert (Hok : forall serials,
            saveSerials qty entries = Resolved serials ->
            (qty == inject_Z (Z.of_nat (List.length serials)))%Q /\
            List.length serials = loopCount qty /\ NoDup serials).
  { intros serials H.
    destruct (violations_valid_batch _ _ _ H) as (Hs & _ & Hnd).
    pose proof (saveSerials_size _ _ _ H) as Hsize.
    apply setSize_NoDup in Hnd as Hlen. rewrite Hlen in Hsize.
    split; [symmetry; exact Hsize|]. split; [|exact Hnd].
    rewrite Hs, length_map, length_seq. reflexivity. }
  split; [exact Hok|].
  intros Hfrac. destruct (saveSerials qty entries) as [e|serials] eqn:E; [eauto|].
  exfalso. destruct (Hok serials eq_refl) as (Hq & _). exact (Hfrac _ Hq).
Qed.

Lemma accepted_batch_matches_quantity_witness :
  exists e, saveSerials (5 # 2) ["A"; "B"; "C"] = Shown e.
Proof.
  apply (accepted_batch_matches_quantity (5 # 2) ["A"; "B"; "C"]).
  intros n H. unfold Qeq, inject_Z in H. simpl in H. lia.
Defined.

(** ** The Save handler of the lot dialog *)

Lemma lot_rule (lot : string) :
  String.eqb lot "" || (20 <? String.length lot)%nat || negb (matchesSerialRule lot) =
  match fieldViolation lot with Some _ => true | None => false end.
Proof.
  unfold fieldViolation. destruct (String.eqb lot ""); [reflexivity|].
  destruct (20 <? String.length lot)%nat; [reflexivity|].
  destruct (matchesSerialRule lot); reflexivity.
Qed.

Lemma filter_digits_hyphen (l : list ascii) :
  Forall (fun c => isDigit c = true) l ->
  List.filter (fun c => negb (isHyphen c)) l = l.
Proof.
  intros H. apply filter_all. eapply Forall_impl; [exact H|].
  intros c Hc. cbv beta. rewrite (digit_not_hyphen c Hc). reflexivity.
Qed.

(** X6. A Save of the lot dialog is accepted exactly when the trimmed
    lot number passes the rule of the serials and, for an item with
    expiration dates, a date is entered; otherwise both complaints are
    shown together, the lot first.  The expiration date is handed on
    without its hyphens, so that the date [yyyy-mm-dd] of the date
    input becomes the text [today] would give for that day; without
    expiration dates nothing is handed on, whatever the date field
    holds. *)
Theorem lot_save_outcome (expd : JsVal) (lotField dateField : string) :
  let lot := trim lotField in
  let dated := jsEq expd "1" in
  let lotBad := match fieldViolation lot with Some _ => true | None => false end in
  let dateBad := dated && String.eqb dateField "" in
  saveLot expd (lotField, dateField) =
    (if lotBad || dateBad
     then inl ((if lotBad then [LotNumberRequired] else []) ++
               (if dateBad then [ExpirationDateRequired] else []))
     else inr (lot, if dated then Some (withoutHyphens dateField) else None)) /\
  (forall year month day,
     (month <= 11)%nat -> (1 <= day <= 31)%nat ->
     withoutHyphens (isoDate year month day) = Clock.today year month day).
Proof.
  intros lot dated lotBad dateBad. split.
  - unfold saveLot. cbn [fst snd]. fold lot. rewrite lot_rule. fold lotBad. fold dated.
    unfold dateBad. destruct lotBad, dated; cbn [orb andb app];
      destruct (String.eqb dateField ""); reflexivity.
  - intros year month day Hm Hd. unfold withoutHyphens, isoDate, Clock.today.
    destruct (pretty_nat_digits year) as (_ & Dy & _).
    destruct (two_digits (month + 1)) as (_ & Dm & _); [lia|].
    destruct (two_digits day) as (_ & Dd & _); [lia|].
    rewrite !chars_append, !List.filter_app.
    rewrite (filter_digits_hyphen _ Dy), (filter_digits_hyphen _ Dm),
      (filter_digits_hyphen _ Dd).
    change (List.filter (fun c => negb (isHyphen c)) (chars "-")) with (@nil ascii).
    rewrite !app_nil_l. rewrite <- !chars_append. apply unchars_chars.
Qed.

Lemma lot_save_outcome_witness :
  saveLot (Some "1") (" LOT-7 ", isoDate 2025 7 5) =
    inr ("LOT-7", Some (Clock.today 2025 7 5)).
Proof.
  destruct (lot_save_outcome (Some "1") " LOT-7 " (isoDate 2025 7 5)) as [H1 H2].
  rewrite H1, (H2 2025%nat 7%nat 5%nat) by lia. reflexivity.
Defined.

(** ** Retrying in the serial and lot dialogs *)

Lemma serialDialog_failed (qty : Q) (failed : list (list string))
    (rest : list (DialogAction (list string))) (s : State) :
  Forall (fun entries => exists e, saveSerials qty entries = Shown e) failed ->
  serialDialog qty (map ClickSave failed ++ rest) s =
  serialDialog qty rest (addShownAll (flat_map (complaints qty) failed) s).
Proof.
  intros H. revert s. induction H as [|entries failed (e & He) _ IH]; intros s.
  - reflexivity.
  - simpl. rewrite He. unfold bind, modify. rewrite IH.
    unfold complaints at 2. rewrite He. reflexivity.
Qed.

Lemma lotDialog_failed (expd : JsVal) (failed : list (string * string))
    (rest : list (DialogAction (string * string))) (s : State) :
  Forall (fun fields => exists errors, saveLot expd fields = inl errors) failed ->
  lotDialog expd (map ClickSave failed ++ rest) s =
  lotDialog expd rest (addShownAll (flat_map (lotComplaints expd) failed) s).
Proof.
  intros H. revert s. induction H as [|fields failed (e & He) _ IH]; intros s.
  - reflexivity.
  - simpl. rewrite He. unfold bind, modify. rewrite IH.
    unfold lotComplaints at 2. rewrite He. reflexivity.
Qed.

(** X7. A Save that fails validation leaves the dialog open and shows
    one message; the operator may retry any number of times.  The
    dialog ends at the first Save that is accepted, with its values,
    or at a Cancel, with the cancellation error; clicks after that
    are not looked at, and until then the run waits.  Nothing but the
    messages is changed meanwhile.  The same holds for the lot
    dialog. *)
Theorem dialogs_retry_until_valid (qty : Q) (failed : list (list string)) (s : State) :
  Forall (fun entries => exists e, saveSerials qty entries = Shown e) failed ->
  let s' := addShownAll (flat_map (complaints qty) failed) s in
  (forall good serials rest,
     saveSerials qty good = Resolved serials ->
     serialDialog qty (map ClickSave failed ++ ClickSave good :: rest) s = (Ok serials, s')) /\
  (forall rest,
     serialDialog qty (map ClickSave failed ++ ClickCancel :: rest) s =
       (Throw (Cancelled AtSerials), s')) /\
  serialDialog qty (map ClickSave failed) s = (Pending, s') /\
  List.length (flat_map (complaints qty) failed) = List.length failed /\
  calls s' = calls s /\ this s' = this s /\ createdEquipment s' = createdEquipment s /\
  (forall expd lotFailed lotGood entered rest st,
     Forall (fun fields => exists errors, saveLot expd fields = inl errors) lotFailed ->
     saveLot expd lotGood = inr entered ->
     let st' := addShownAll (flat_map (lotComplaints expd) lotFailed) st in
     lotDialog expd (map ClickSave lotFailed ++ ClickSave lotGood :: rest) st =
       (Ok entered, st') /\
     lotDialog expd (map ClickSave lotFailed ++ ClickCancel :: rest) st =
       (Throw (Cancelled AtLot), st') /\
     lotDialog expd (map ClickSave lotFailed) st = (Pending, st')).
Proof.
  intros Hfailed s'.
  assert (Hkeep : forall evs st, calls (addShownAll evs st) = calls st /\
                                 this (addShownAll evs st) = this st /\
                                 createdEquipment (addShownAll evs st) = createdEquipment st).
  { induction evs as [|u evs IH]; intros st; [auto|]. apply (IH (addShown u st)). }
  split; [|split; [|split; [|split; [|split; [|split; [|split]]]]]];
    try apply Hkeep.
  - intros good serials rest Hgood. rewrite serialDialog_failed by exact Hfailed.
    simpl. rewrite Hgood. reflexivity.
  - intros rest. rewrite serialDialog_failed by exact Hfailed. reflexivity.
  - rewrite <- (app_nil_r (map ClickSave failed)).
    rewrite serialDialog_failed by exact Hfailed. reflexivity.
  - clear s'. induction Hfailed as [|entries failed (e & He) _ IH]; [reflexivity|].
    simpl. unfold complaints at 1. rewrite He. simpl. rewrite IH. reflexivity.
  - intros expd lotFailed lotGood entered rest st HlotFailed Hgood st'.
    split; [|split].
    + rewrite lotDialog_failed by exact HlotFailed. simpl. rewrite Hgood. reflexivity.
    + rewrite lotDialog_failed by exact HlotFailed. reflexivity.
    + rewrite <- (app_nil_r (map ClickSave lotFailed)).
      rewrite lotDialog_failed by exact HlotFailed. reflexivity.
Qed.

Lemma dialogs_retry_until_valid_witness :
  serialDialog 2 (map ClickSave [["A"; ""]; ["A"; "A"]] ++
                  ClickSave ["A"; "B"] :: [ClickCancel]) initial =
  (Ok ["A"; "B"],
   addShownAll (flat_map (complaints 2) [["A"; ""]; ["A"; "A"]]) initial).
Proof.
  apply (dialogs_retry_until_valid 2 [["A"; ""]; ["A"; "A"]] initial).
  - repeat constructor; eexists; vm_compute; reflexivity.
  - vm_compute. reflexivity.
Defined.

(** ** Reading and writing the fields of [this] *)

Lemma get_set_eq k v s : get k (set k v s) = v.
Proof.
  unfold get, set. destruct v as [x|]; simpl.
  - apply lookup_insert_eq.
  - apply lookup_delete_eq.
Qed.

Lemma fetch_eq env rq op s :
  fetch env rq op s =
  let o := mi env (calls s) rq in
  (match o with
   | Fulfilled r =>
       match itemOf r with
       | Some it => Ok it
       | None => Throw (NoRecord op r)
       end
   | Rejected e => Throw (RemoteError e)
   end, addCall (rq, o) s).
Proof.
  unfold fetch, await, executeRequest, bind, ret, throw. cbv zeta.
  destruct (mi env (calls s) rq) as [r|e]; [|reflexivity].
  destruct (itemOf r); reflexivity.
Qed.

Lemma await_eq env rq s :
  await env rq s =
  let o := mi env (calls s) rq in
  (match o with
   | Fulfilled r => Ok r
   | Rejected e => Throw (RemoteError e)
   end, addCall (rq, o) s).
Proof.
  unfold await, executeRequest, bind, ret, throw. cbv zeta.
  destruct (mi env (calls s) rq) as [r|e]; reflexivity.
Qed.

Lemma get_setWms k b s : get k (setWms b s) = get k s.
Proof. reflexivity. Qed.

Lemma get_setCreated k c s : get k (setCreated c s) = get k s.
Proof. reflexivity. Qed.

Lemma get_addShown k u s : get k (addShown u s) = get k s.
Proof. reflexivity. Qed.

Lemma calls_set k v s : calls (set k v s) = calls s.
Proof. reflexivity. Qed.

Lemma calls_setWms b s : calls (setWms b s) = calls s.
Proof. reflexivity. Qed.

Lemma calls_setCreated c s : calls (setCreated c s) = calls s.
Proof. reflexivity. Qed.

Lemma calls_addShown u s : calls (addShown u s) = calls s.
Proof. reflexivity. Qed.

Lemma calls_addCall c s : calls (addCall c s) = calls s ++ [c].
Proof. reflexivity. Qed.

Lemma shown_set k v s : shown (set k v s) = shown s.
Proof. reflexivity. Qed.

Lemma shown_setWms b s : shown (setWms b s) = shown s.
Proof. reflexivity. Qed.

Lemma shown_setCreated c s : shown (setCreated c s) = shown s.
Proof. reflexivity. Qed.

Lemma shown_addCall c s : shown (addCall c s) = shown s.
Proof. reflexivity. Qed.

Lemma shown_addShown u s : shown (addShown u s) = shown s ++ [u].
Proof. reflexivity. Qed.

Lemma isWmsWhs_set k v s : isWmsWhs (set k v s) = isWmsWhs s.
Proof. reflexivity. Qed.

Lemma isWmsWhs_setWms b s : isWmsWhs (setWms b s) = b.
Proof. reflexivity. Qed.

Lemma isWmsWhs_addCall c s : isWmsWhs (addCall c s) = isWmsWhs s.
Proof. reflexivity. Qed.

Lemma created_set k v s : createdEquipment (set k v s) = createdEquipment s.
Proof. reflexivity. Qed.

Lemma created_setWms b s : createdEquipment (setWms b s) = createdEquipment s.
Proof. reflexivity. Qed.

Lemma created_addCall c s : createdEquipment (addCall c s) = createdEquipment s.
Proof. reflexivity. Qed.

Lemma created_addShown u s : createdEquipment (addShown u s) = createdEquipment s.
Proof. reflexivity. Qed.

Create Rewrite HintDb state.

#[local] Hint Rewrite get_addCall get_setWms get_setCreated get_addShown get_set_eq
  calls_set calls_setWms calls_setCreated calls_addShown calls_addCall
  shown_set shown_setWms shown_setCreated shown_addCall shown_addShown
  isWmsWhs_set isWmsWhs_setWms isWmsWhs_addCall
  created_set created_setWms created_addCall created_addShown : state.

(** Normal form of the observations of a state built by the primitive
    updates. *)
Ltac norm_in H :=
  repeat first
    [ rewrite get_set_ne in H by discriminate
    | progress (autorewrite with state in H) ].

Ltac norm :=
  repeat first
    [ rewrite get_set_ne by discriminate
    | progress (autorewrite with state) ].

(** The observation [t] of the current state, which occurs in [H], is
    put in normal form on its own. *)
Ltac settle H t :=
  let x := fresh "x" in
  let Ex := fresh "Ex" in
  remember t as x eqn:Ex in H;
  cbv beta in Ex; norm_in Ex; subst x.

(** Symbolic execution of a monadic term in a hypothesis: the head
    step is unfolded and the answer of the oracle is named. *)
Ltac exec_head H :=
  lazymatch type of H with
  | bind (bind _ _) _ _ = _ => rewrite bind_assoc in H
  | bind (gets ?f) ?k ?S = _ =>
      change (bind (gets f) k S) with (k (f S) S) in H;
      settle H (f S); cbv beta in H
  | bind (modify ?f) ?k ?S = _ =>
      change (bind (modify f) k S) with (k tt (f S)) in H; cbv beta in H
  | bind (ret ?a) ?k ?S = _ =>
      change (bind (ret a) k S) with (k a S) in H; cbv beta in H
  | bind (throw ?e) ?k ?S = _ =>
      change (bind (throw e) k S) with (@Throw unit e, S) in H
  | bind (assignFrom _ _) _ _ = _ => unfold assignFrom at 1 in H; cbn [forEachM] in H
  | bind (fetch ?env ?rq ?op) _ ?S = _ =>
      let E := fresh "E" in
      pose proof (fetch_eq env rq op S) as E; cbv zeta in E;
      settle E (calls S);
      unfold bind at 1 in H; rewrite E in H; clear E;
      lazymatch type of H with
      | context [mi ?e ?c ?q] =>
          destruct (mi e c q) as [?r|?e] eqn:?; cbv beta iota in H
      end
  | bind (await ?env ?rq) _ ?S = _ =>
      let E := fresh "E" in
      pose proof (await_eq env rq S) as E; cbv zeta in E;
      settle E (calls S);
      unfold bind at 1 in H; rewrite E in H; clear E;
      lazymatch type of H with
      | context [mi ?e ?c ?q] =>
          destruct (mi e c q) as [?r|?e] eqn:?; cbv beta iota in H
      end
  | bind (if ?b then _ else _) _ _ = _ => destruct b eqn:?
  | (if ?b then _ else _) _ = _ => destruct b eqn:?
  | gets _ _ = _ => unfold gets in H
  | modify _ _ = _ => unfold modify in H
  | ret _ _ = _ => unfold ret in H
  | throw _ _ = _ => unfold throw in H
  | fetch ?env ?rq ?op ?S = _ =>
      let E := fresh "E" in
      pose proof (fetch_eq env rq op S) as E; cbv zeta in E;
      settle E (calls S);
      rewrite E in H; clear E;
      lazymatch type of H with
      | context [mi ?e ?c ?q] =>
          destruct (mi e c q) as [?r|?e] eqn:?; cbv beta iota in H
      end
  | context [match itemOf ?r with _ => _ end] =>
      destruct (itemOf r) as [?it|] eqn:?; cbv beta iota in H
  end.

Ltac exec H := repeat (exec_head H; try discriminate H).

(** ** The validation of the screen fields *)

Lemma filter_keys (kvs : list (string * JsVal)) (g : string -> JsVal) :
  Forall (fun kv => g (fst kv) = snd kv) kvs ->
  List.filter (fun k => negb (truthy (g k))) (map fst kvs) =
  map fst (List.filter (fun kv => negb (truthy (snd kv))) kvs).
Proof.
  induction 1 as [|[k v] kvs Hk _ IH]; [reflexivity|].
  cbn [map List.filter fst snd] in *. rewrite Hk, IH.
  destruct (negb (truthy v)); reflexivity.
Qed.

Lemma validateFields_eq env s :
  validateFields env s =
  (match missing env with
   | [] => Ok tt
   | m => Throw (MissingFields m)
   end,
   set "OEND" (fieldValue env "OEND")
     (set "ITNO" (fieldValue env "ITNO")
        (set "WHSL" (fieldValue env "WHSL")
           (set "RVQA" (ctrlValue env "RVQA")
              (set "PNLS" (fieldValue env "PNLS")
                 (set "PNLI" (fieldValue env "PNLI")
                    (set "WHLO" (fieldValue env "WWWHLO")
                       (set "SUNO" (fieldValue env "WWSUNO")
                          (set "PUNO" (fieldValue env "WWPUNO") s))))))))).
Proof.
  unfold validateFields, bind, modify, gets. cbv beta iota.
  match goal with
  | |- (match List.filter ?f ?l with _ => _ end ?S) = _ =>
      assert (Hf : List.filter f l = missing env);
      [|rewrite Hf; destruct (missing env); reflexivity];
      apply (filter_keys (mandatory env) (fun k => get k S))
  end.
  unfold mandatory. repeat constructor; cbn [fst snd]; norm; reflexivity.
Qed.

(** X8. [validateFields] fails exactly when one of the eight mandatory
    fields is empty on the screen, and its error names the empty ones,
    all of them, in the order of the check; the location is not among
    them.  The received quantity is read from the controller, the
    others from the screen fields.  Nothing is sent and nothing is
    shown by the validation, and a run with a mandatory field missing
    ends with that error before any remote call. *)
Theorem missing_fields_stop_the_run (env : Env) :
  (forall s,
     fst (validateFields env s) =
       match missing env with
       | [] => Ok tt
       | m => Throw (MissingFields m)
       end /\
     calls (snd (validateFields env s)) = calls s /\
     shown (snd (validateFields env s)) = shown s /\
     (forall k v, (k, v) ∈ mandatory env -> get k (snd (validateFields env s)) = v) /\
     get "WHSL" (snd (validateFields env s)) = fieldValue env "WHSL") /\
  (forall k, k ∈ missing env <-> exists v, (k, v) ∈ mandatory env /\ truthy v = false) /\
  (missing env <> [] ->
   fst (run env initial) = Ok tt /\
   shown (snd (run env initial)) = [ErrorDialog (MissingFields (missing env))] /\
   calls (snd (run env initial)) = []).
Proof.
  split; [|split].
  - intros s. rewrite validateFields_eq. cbn [fst snd].
    split; [reflexivity|]. split; [reflexivity|]. split; [reflexivity|].
    split; [|norm; reflexivity].
    intros k v Hin. unfold mandatory in Hin.
    repeat (apply elem_of_cons in Hin as [[= -> ->]|Hin]; [norm; reflexivity|]).
    inversion Hin.
  - intros k. unfold missing. rewrite list_elem_of_fmap. split.
    + intros ([k' v] & -> & Hin). apply list_elem_of_In, filter_In in Hin as [Hin Hv].
      exists v. split; [apply list_elem_of_In; exact Hin|].
      apply negb_true_iff in Hv. exact Hv.
    + intros (v & Hin & Hv). exists (k, v). split; [reflexivity|].
      apply list_elem_of_In, filter_In. split; [apply list_elem_of_In; exact Hin|].
      simpl. rewrite Hv. reflexivity.
  - intros Hm.
    assert (Hrun : exists s1, run env initial =
                     (Ok tt, addShown (ErrorDialog (MissingFields (missing env))) s1) /\
                   calls s1 = [] /\ shown s1 = []).
    { rewrite run_eq. unfold runBody, fetchSteps.
      rewrite !bind_assoc. unfold bind at 1. rewrite validateFields_eq.
      destruct (missing env) as [|k m]; [congruence|].
      eexists. split; [reflexivity|]. split; reflexivity. }
    destruct Hrun as (s1 & -> & Hc & Hs). cbn [fst snd].
    split; [reflexivity|]. norm. rewrite Hc, Hs. split; reflexivity.
Qed.

Lemma missing_fields_stop_the_run_witness :
  let env := Cases.blank in
  fst (run env initial) = Ok tt /\
  shown (snd (run env initial)) = [ErrorDialog (MissingFields (missing env))] /\
  calls (snd (run env initial)) = [].
Proof.
  intros env. apply (missing_fields_stop_the_run env). vm_compute. discriminate.
Defined.

(** ** The look-up of the order line *)

Lemma get_other (keys : list string) (k : string) (s s' : State) :
  k ∉ keys ->
  (forall k', k' ∉ keys -> get k' s' = get k' s) -> get k s' = get k s.
Proof. auto. Qed.

Ltac other_key Hk :=
  repeat first
    [ rewrite get_addCall | rewrite get_setWms
    | rewrite get_set_ne by (intros ->; apply Hk; repeat constructor) ].

(** X9. [getPOLine] sends one look-up, for the order line named on
    the screen.  When it brings a record, the six fields PUPR, RORC,
    RORN, RORL, ITDS, GETY take the values of the record (one the
    record lacks becomes undefined, whatever it was before) and no
    other field changes; when the answer has no record the step fails
    with the text of [extractErrorMessage] for "PO line retrieval",
    and a rejection is thrown on as it is.  Nothing is shown. *)
Theorem po_line_fields (env : Env) (s : State) :
  let rq := mkRequest "PPS200MI" "GetLine"
              [("PUNO", get "PUNO" s); ("PNLI", get "PNLI" s); ("PNLS", get "PNLS" s)] 1 in
  let o := mi env (calls s) rq in
  let r := fst (getPOLine env s) in
  let s' := snd (getPOLine env s) in
  calls s' = calls s ++ [(rq, o)] /\
  shown s' = shown s /\
  createdEquipment s' = createdEquipment s /\
  match o with
  | Rejected e => r = Throw (RemoteError e) /\ this s' = this s
  | Fulfilled resp =>
      match itemOf resp with
      | None => r = Throw (NoRecord "PO line retrieval" resp) /\ this s' = this s
      | Some it =>
          r = Ok tt /\
          (forall k, k ∈ ["PUPR"; "RORC"; "RORN"; "RORL"; "ITDS"; "GETY"] ->
                     get k s' = it !! k) /\
          (forall k, k ∉ ["PUPR"; "RORC"; "RORN"; "RORL"; "ITDS"; "GETY"] ->
                     get k s' = get k s)
      end
  end.
Proof.
  intros rq o r s'. subst r s'.
  destruct (getPOLine env s) as [r s'] eqn:H. cbn [fst snd].
  unfold getPOLine in H. exec H; injection H as <- <-; norm.
  - subst o rq.
    match goal with Hm : mi _ _ _ = _ |- _ => rewrite Hm end.
    match goal with Hi : itemOf _ = _ |- _ => rewrite Hi end.
    repeat split; try reflexivity.
    + intros k Hk.
      repeat (apply elem_of_cons in Hk as [->|Hk]; [norm; reflexivity|]).
      inversion Hk.
    + intros k Hk. other_key Hk. reflexivity.
  - subst o rq.
    match goal with Hm : mi _ _ _ = _ |- _ => rewrite Hm end.
    match goal with Hi : itemOf _ = _ |- _ => rewrite Hi end.
    repeat split; reflexivity.
  - subst o rq.
    match goal with Hm : mi _ _ _ = _ |- _ => rewrite Hm end.
    repeat split; reflexivity.
Qed.

(** ** The look-ups *)

(** X10. A [lookups] that succeeds has sent, in this order, the
    look-ups of the order header, the warehouse group, the item and
    the remaining quantity, followed by the look-up of the customer
    order exactly for a drop-ship line (RORC '3' with an order number);
    all of them were answered.  The warehouse counts as WMS-managed
    exactly when the second look-up brought a record.  A material item
    has a location afterwards.  Only the fields the look-ups fill are
    touched, and the customer number only for a drop-ship line. *)
Theorem lookups_calls_in_order (env : Env) (s s' : State) :
  lookups env s = (Ok tt, s') ->
  exists cs,
    calls s' = calls s ++ cs /\
    map endpoint cs = lookupEndpoints s /\
    Forall (fun c => fulfilledCall c = true) cs /\
    (forall c, cs !! 1%nat = Some c -> isWmsWhs s' = returnsRecord (snd c)) /\
    (isNonMaterial s' = true \/ truthy (get "WHSL" s') = true) /\
    shown s' = shown s /\
    createdEquipment s' = createdEquipment s /\
    (forall k, k ∉ ["PUDT"; "CUCD"; "FACI"; "EXPD"; "INDI"; "TPCD"; "RMQA"; "CUNO"] ->
               get k s' = get k s) /\
    (isDropShip s = false -> get "CUNO" s' = get "CUNO" s).
Proof.
  intros H. unfold lookups in H. exec H; injection H as <-.
  all: eexists; split; [norm; rewrite <- !app_assoc; reflexivity|].
  all: unfold lookupEndpoints, isDropShip;
    match goal with Hd : _ && truthy _ = _ |- _ => rewrite Hd end.
  all: split; [reflexivity|].
  all: split; [repeat constructor|].
  all: split; [intros c [= <-]; norm; reflexivity|].
  all: split;
    [unfold isNonMaterial; norm;
     match goal with
     | Hw : negb ?a && negb ?b = false |- _ =>
         destruct a; [left; reflexivity | right; destruct b; [reflexivity | discriminate]]
     end|].
  all: split; [norm; reflexivity|].
  all: split; [norm; reflexivity|].
  all: split; [intros k Hk; other_key Hk; reflexivity|].
  all: intros Hds; try discriminate; norm; reflexivity.
Qed.

Lemma lookups_calls_in_order_witness :
  let env := Demo.env "2" "2" "10" "" "" "90" Proceed [] [] in
  let s := snd ((validateFields env ;; getPOLine env) initial) in
  let s' := snd (lookups env s) in
  exists cs,
    calls s' = calls s ++ cs /\
    map endpoint cs = lookupEndpoints s /\
    Forall (fun c => fulfilledCall c = true) cs /\
    (forall c, cs !! 1%nat = Some c -> isWmsWhs s' = returnsRecord (snd c)) /\
    (isNonMaterial s' = true \/ truthy (get "WHSL" s') = true) /\
    shown s' = shown s /\
    createdEquipment s' = createdEquipment s /\
    (forall k, k ∉ ["PUDT"; "CUCD"; "FACI"; "EXPD"; "INDI"; "TPCD"; "RMQA"; "CUNO"] ->
               get k s' = get k s) /\
    (isDropShip s = false -> get "CUNO" s' = get "CUNO" s).
Proof.
  intros env s s'. apply (lookups_calls_in_order env s s'). vm_compute. reflexivity.
Defined.

(** X11. [lookups] asks for a location exactly for a material item:
    it fails with the location error when the item look-up brought a
    record that is not of a non-material item (INDI '0' with TPCD
    '13') while the location field is empty, and then the remaining
    quantity has not been asked for; with such an item and no location
    it cannot end in any other way once the item record is there. *)
Theorem location_required_for_material (env : Env) (s : State) :
  (forall s',
     lookups env s = (Throw WhslRequired, s') ->
     truthy (get "WHSL" s) = false /\
     isNonMaterial s' = false /\
     exists cs,
       calls s' = calls s ++ cs /\
       map endpoint cs =
         [("PPS200MI", "GetHead"); ("MMS009MI", "Get"); ("MMS200MI", "GetItmBasic")]) /\
  (forall r s' c1 c2 rq resp it rest,
     lookups env s = (r, s') ->
     calls s' = calls s ++ c1 :: c2 :: (rq, Fulfilled resp) :: rest ->
     itemOf resp = Some it ->
     jsEq (it !! "INDI") "0" && jsEq (it !! "TPCD") "13" = false ->
     truthy (get "WHSL" s) = false ->
     r = Throw WhslRequired /\ rest = []).
Proof.
  split.
  - intros s' H. unfold lookups in H. exec H; injection H as <-.
    match goal with
    | Hw : negb ?a && negb ?b = true |- _ =>
        apply andb_true_iff in Hw as [Ha Hb];
        apply negb_true_iff in Ha; apply negb_true_iff in Hb
    end.
    split; [assumption|]. split; [unfold isNonMaterial; norm; assumption|].
    eexists. split; [norm; rewrite <- !app_assoc; reflexivity | reflexivity].
  - intros r s' c1 c2 rq resp it rest H Hcalls Hit Hmat Hwhsl.
    unfold lookups in H. exec H; injection H as <- <-; norm_in Hcalls;
      rewrite <- ?app_assoc in Hcalls; apply app_inv_head in Hcalls;
      cbn [app] in Hcalls; try discriminate Hcalls;
      injection Hcalls as <- <- <- <- ?; subst;
      try congruence.
    all: try match goal with
         | Hi : itemOf ?r' = Some ?it', Hw : negb (jsEq (?it' !! _) _ && _) && _ = _ |- _ =>
             rewrite Hit in Hi; injection Hi as <-;
             rewrite Hmat, Hwhsl in Hw; try discriminate Hw
         end.
    all: split; reflexivity.
Qed.

(** ** What the receipt and the branches touch *)

Section Receipt.

Context (env : Env) (R : State -> State -> Prop) `{!PreOrder R}.
Context (HT : Tolerates R (oneOf ["MSGN"]) (oneOf processTransactions) none).
Context (Hcreated : forall c s, R s (setCreated c s)).

Ltac receipt_walk :=
  repeat first
    [ respects_step
    | solve [eauto with respects]
    | respects_prim HT
    | apply Hcreated
    | rapply respects_issueAll; intros ? ? ? ].

Lemma rollbackEquipment_respects : respects R (rollbackEquipment env).
Proof. unfold rollbackEquipment. receipt_walk. Qed.

Lemma process_respects lines : respects R (process env lines).
Proof.
  unfold process, addWhsHead, addWhsPackAndLines, prcWhsTran, finalStatusValidation,
    lineAdded, await.
  receipt_walk; apply rollbackEquipment_respects.
Qed.

End Receipt.

Section Branches.

Context (env : Env) (R : State -> State -> Prop) `{!PreOrder R}.
Context (HT : Tolerates R (oneOf ["MSGN"]) (oneOf branchTransactions) isBranchDialog).
Context (Hcreated : forall c s, R s (setCreated c s)).

Lemma branch_receipt :
  Tolerates R (oneOf ["MSGN"]) (oneOf processTransactions) none.
Proof.
  eapply Tolerates_weaken; [exact HT | auto | | discriminate].
  intros t Ht. unfold oneOf, processTransactions in Ht. simpl in Ht.
  repeat (apply orb_true_iff in Ht as [Ht|Ht];
          [apply String.eqb_eq in Ht; subst; reflexivity|]).
  discriminate.
Qed.

Ltac branch_walk :=
  repeat first
    [ respects_step
    | solve [eauto with respects]
    | respects_prim HT
    | apply Hcreated
    | rapply respects_issueAll; intros ? ? ? ].

Lemma addEquip_respects arr : respects R (addEquip env arr).
Proof.
  unfold addEquip, equipAdded. branch_walk.
  apply rollbackEquipment_respects; [exact _ | exact branch_receipt | exact Hcreated].
Qed.

Lemma checkSer_respects_all arr : respects R (checkSer env arr).
Proof. unfold checkSer, checkOutcome. branch_walk. Qed.

Lemma checkLot_respects_all lot : respects R (checkLot env lot).
Proof. unfold checkLot, checkOutcome. branch_walk. Qed.

Lemma receiveSerials_respects serials : respects R (receiveSerials env serials).
Proof.
  unfold receiveSerials. branch_walk;
    first [ apply process_respects | apply rollbackEquipment_respects ];
    first [ exact _ | exact branch_receipt | exact Hcreated ].
Qed.

Lemma serialDialog_respects_all qty clicks : respects R (serialDialog qty clicks).
Proof.
  induction clicks as [|[entries|] clicks IH]; simpl; branch_walk; try exact IH.
Qed.

Lemma lotDialog_respects_all expd clicks : respects R (lotDialog expd clicks).
Proof.
  induction clicks as [|[fields|] clicks IH]; simpl; branch_walk; try exact IH.
Qed.

Lemma branch_respects : respects R (branch env).
Proof.
  unfold branch, serialBranch, lotBranch, nonLottedBranch, promptSerials, promptLot,
    promptConfirm.
  branch_walk;
    first [ apply serialDialog_respects_all | apply lotDialog_respects_all
          | apply checkSer_respects_all | apply checkLot_respects_all
          | apply addEquip_respects | apply receiveSerials_respects
          | apply process_respects; [exact _ | exact branch_receipt | exact Hcreated] ].
Qed.

End Branches.

(** ** Rejections that end a step *)

Lemma failFast_quiet {A} (m : M A) :
  (forall s, calls (snd (m s)) = calls s) -> failFast m.
Proof.
  intros H s. exists []. rewrite app_nil_r. split; [apply H | left; constructor].
Qed.

Lemma failFast_bind {A B} (m : M A) (k : A -> M B) :
  failFast m -> (forall a, failFast (k a)) -> failFast (bind m k).
Proof.
  intros Hm Hk s. destruct (Hm s) as (cs1 & Hc1 & H1). unfold bind.
  destruct (m s) as [[a|e|] s1]; cbn [fst snd] in *.
  2,3: exists cs1; split; [exact Hc1|];
       destruct H1 as [H1|(cs' & rq & e' & -> & H1 & He)];
       [left; exact H1 | right; exists cs', rq, e';
                          split; [reflexivity|]; split; [exact H1 | congruence] ..].
  destruct H1 as [H1|(? & ? & ? & _ & _ & ?)]; [|discriminate].
  destruct (Hk a s1) as (cs2 & Hc2 & H2). exists (cs1 ++ cs2).
  split; [rewrite Hc2, Hc1, app_assoc; reflexivity|].
  destruct H2 as [H2|(cs' & rq & e & -> & H2 & Hr)].
  - left. apply Forall_app. auto.
  - right. exists (cs1 ++ cs'), rq, e. rewrite app_assoc.
    split; [reflexivity|]. split; [apply Forall_app; auto | exact Hr].
Qed.

Lemma failFast_await env rq : failFast (await env rq).
Proof.
  intros s. rewrite await_eq. cbv zeta. cbn [fst snd]. eexists. split; [reflexivity|].
  destruct (mi env (calls s) rq) as [r|e].
  - left. repeat constructor.
  - right. exists [], rq, e. repeat split; constructor.
Qed.

Lemma failFast_fetch env rq op : failFast (fetch env rq op).
Proof.
  intros s. rewrite fetch_eq. cbv zeta. cbn [fst snd]. eexists. split; [reflexivity|].
  destruct (mi env (calls s) rq) as [r|e].
  - left. repeat constructor.
  - right. exists [], rq, e. repeat split; constructor.
Qed.

Lemma failFast_forEachM {A} (f : A -> M unit) (l : list A) :
  (forall a, failFast (f a)) -> failFast (forEachM f l).
Proof.
  intros Hf. induction l as [|x l IH]; simpl.
  - apply failFast_quiet. reflexivity.
  - apply failFast_bind; [apply Hf | intros _; exact IH].
Qed.

Ltac failFast_walk :=
  repeat lazymatch goal with
    | |- failFast (bind _ _) => apply failFast_bind; [|intros ?]
    | |- failFast (forEachM _ _) => apply failFast_forEachM; intros ?
    | |- failFast (assignFrom _ _) => apply failFast_forEachM; intros ?
    | |- failFast (await _ _) => apply failFast_await
    | |- failFast (fetch _ _ _) => apply failFast_fetch
    | |- failFast (modify _) => apply failFast_quiet; reflexivity
    | |- failFast (ret _) => apply failFast_quiet; reflexivity
    | |- failFast (throw _) => apply failFast_quiet; reflexivity
    | |- failFast (gets _) => apply failFast_quiet; reflexivity
    | |- failFast (match ?x with _ => _ end) => destruct x
    end.

Lemma prelude_failFast env : failFast (fetchSteps env ;; warnings env).
Proof.
  unfold fetchSteps, validateFields, getPOLine, lookups, warnings, dialogWarn.
  failFast_walk.
Qed.

Lemma branch_calls env s :
  callsGrow (fun c => oneOf branchTransactions (transaction (fst c)) = true)
    s (snd (branch env s)).
Proof.
  apply branch_respects; [exact _ | | intros; apply callsGrow_same; reflexivity].
  apply callsGrow_tolerates. auto.
Qed.

Lemma fetch_not_branch (t : string) :
  oneOf fetchTransactions t = true -> oneOf branchTransactions t = false.
Proof.
  unfold oneOf, fetchTransactions. simpl. intros H.
  repeat (apply orb_true_iff in H as [H|H];
          [apply String.eqb_eq in H; subst; reflexivity|]).
  discriminate.
Qed.

Lemma last_snoc' {A} (l : list A) (x : A) : last (l ++ [x]) = Some x.
Proof. apply last_snoc. Qed.

(** X12. A look-up of the steps before the branch that is rejected,
    whatever its status (the not-found status that the
    already-registered check lets pass included), ends the run: the
    error dialog shows that very rejection, the rejected call is the
    last call of the run, and the run has only sent look-ups. *)
Theorem rejected_lookup_ends_the_run (env : Env) (rq : MIRequest) (e : MIError) :
  let final := snd (run env initial) in
  (rq, Rejected e) ∈ calls final ->
  oneOf fetchTransactions (transaction rq) = true ->
  fst (run env initial) = Ok tt /\
  reported final = Some (ErrorDialog (RemoteError e)) /\
  last (calls final) = Some (rq, Rejected e) /\
  Forall (fun c => oneOf fetchTransactions (transaction (fst c)) = true) (calls final).
Proof.
  intros final Hin Hrq. subst final.
  pose proof (run_eq env initial) as Hrun. rewrite runBody_split in Hrun.
  unfold bind at 1 in Hrun.
  destruct (prelude_failFast env initial) as (cs & Hcs & Hff).
  change (calls initial ++ cs) with cs in Hcs.
  pose proof (prelude_calls env) as Hpre.
  destruct ((fetchSteps env ;; warnings env) initial) as [[[]|e0|] s1] eqn:Hp;
    cbn [fst snd] in *; specialize (Hpre _ _ eq_refl).
  - exfalso.
    destruct Hff as [Hff|(? & ? & ? & _ & _ & ?)]; [|discriminate].
    destruct (branch_calls env s1) as (csB & HcB & HB).
    assert (Hcalls : calls (snd (run env initial)) = calls (snd (branch env s1))).
    { rewrite Hrun. destruct (branch env s1) as [[[]|e1|] s2]; reflexivity. }
    rewrite Hcalls, HcB, Hcs in Hin.
    apply elem_of_app in Hin as [Hin|Hin].
    + rewrite Forall_forall in Hff. specialize (Hff _ Hin). discriminate.
    + rewrite Forall_forall in HB. specialize (HB _ Hin). cbn [fst] in HB.
      rewrite (fetch_not_branch _ Hrq) in HB. discriminate.
  - rewrite Hrun in *. cbn [fst snd] in *. norm_in Hin. rewrite Hcs in Hin.
    destruct Hff as [Hff|(cs' & rq' & e' & -> & Hff & [= ->])].
    { rewrite Forall_forall in Hff. specialize (Hff _ Hin). discriminate. }
    apply elem_of_app in Hin as [Hin|Hin].
    { rewrite Forall_forall in Hff. specialize (Hff _ Hin). discriminate. }
    apply list_elem_of_singleton in Hin. injection Hin as <- <-.
    split; [reflexivity|]. unfold reported. norm. rewrite Hcs.
    rewrite !last_snoc. split; [reflexivity|]. split; [reflexivity|].
    rewrite <- Hcs. exact Hpre.
  - exfalso. rewrite Hrun in Hin. cbn [snd] in Hin. rewrite Hcs in Hin.
    destruct Hff as [Hff|(? & ? & ? & _ & _ & ?)]; [|discriminate].
    rewrite Forall_forall in Hff. specialize (Hff _ Hin). discriminate.
Qed.

Lemma rejected_lookup_ends_the_run_witness :
  let env := Cases.unreachable in
  let final := snd (run env initial) in
  let rq := mkRequest "PPS200MI" "GetLine"
              [("PUNO", Some "4500001"); ("PNLI", Some "10"); ("PNLS", Some "0")] 1 in
  let e := {| statusCode := Some 500%Z; message := Some "Server error" |} in
  fst (run env initial) = Ok tt /\
  reported final = Some (ErrorDialog (RemoteError e)) /\
  last (calls final) = Some (rq, Rejected e) /\
  Forall (fun c => oneOf fetchTransactions (transaction (fst c)) = true) (calls final).
Proof.
  intros env final rq e.
  apply (rejected_lookup_ends_the_run env rq e).
  - apply list_elem_of_In. vm_compute. left. reflexivity.
  - reflexivity.
Defined.

(** ** The errors a step can throw *)

Lemma throwsOnly_quiet {A} (E : Err -> Prop) (m : M A) :
  (forall s e, fst (m s) <> Throw e) -> throwsOnly E m.
Proof. intros H s e He. destruct (H s e He). Qed.

Lemma throwsOnly_throw {A} (E : Err -> Prop) e : E e -> throwsOnly E (@throw A e).
Proof. intros H s e' [= <-]. exact H. Qed.

Lemma throwsOnly_bind {A B} (E : Err -> Prop) (m : M A) (k : A -> M B) :
  throwsOnly E m -> (forall a, throwsOnly E (k a)) -> throwsOnly E (bind m k).
Proof.
  intros Hm Hk s e. unfold bind. specialize (Hm s).
  destruct (m s) as [[a|e0|] s1]; cbn [fst] in *.
  - apply Hk.
  - intros [= <-]. apply Hm. reflexivity.
  - discriminate.
Qed.

Lemma throwsOnly_tryCatch {A} (E : Err -> Prop) (m : M A) (h : Err -> M A) :
  throwsOnly E m -> (forall e, E e -> throwsOnly E (h e)) ->
  throwsOnly E (tryCatch m h).
Proof.
  intros Hm Hh s e. unfold tryCatch. specialize (Hm s).
  destruct (m s) as [[a|e0|] s1]; cbn [fst] in *; try discriminate.
  apply Hh. apply Hm. reflexivity.
Qed.

Lemma throwsOnly_forEachM {A} (E : Err -> Prop) (f : A -> M unit) (l : list A) :
  (forall a, throwsOnly E (f a)) -> throwsOnly E (forEachM f l).
Proof.
  intros Hf. induction l as [|x l IH]; simpl.
  - apply throwsOnly_quiet. discriminate.
  - apply throwsOnly_bind; [apply Hf | intros _; exact IH].
Qed.

Lemma throwsOnly_promiseAll {A} (E : Err -> Prop) env picks
    (rq : State -> A -> MIRequest) k arr :
  (forall a o, throwsOnly E (k a o)) -> throwsOnly E (promiseAll env picks rq k arr).
Proof.
  intros Hk s. unfold promiseAll. destruct (issueAll env rq arr s) as [settled s'].
  apply throwsOnly_forEachM. intros [a o]. apply Hk.
Qed.

Ltac throwsOnly_walk :=
  repeat lazymatch goal with
    | |- throwsOnly _ (bind _ _) => apply throwsOnly_bind; [|intros ?]
    | |- throwsOnly _ (tryCatch _ _) => apply throwsOnly_tryCatch; [|intros ? ?]
    | |- throwsOnly _ (forEachM _ _) => apply throwsOnly_forEachM; intros ?
    | |- throwsOnly _ (promiseAll _ _ _ _ _) => apply throwsOnly_promiseAll; intros ? ?
    | |- throwsOnly _ (executeRequest _ _) => apply throwsOnly_quiet; discriminate
    | |- throwsOnly _ (modify _) => apply throwsOnly_quiet; discriminate
    | |- throwsOnly _ (ret _) => apply throwsOnly_quiet; discriminate
    | |- throwsOnly _ (gets _) => apply throwsOnly_quiet; discriminate
    | |- throwsOnly _ (throw _) => apply throwsOnly_throw
    | |- throwsOnly _ (match ?x with _ => _ end) => destruct x
    end.

Lemma rollbackEquipment_throws env E : throwsOnly E (rollbackEquipment env).
Proof. unfold rollbackEquipment. throwsOnly_walk. Qed.

Lemma checkSer_throws env arr : throwsOnly notCancelled (checkSer env arr).
Proof. unfold checkSer, checkOutcome. throwsOnly_walk; reflexivity. Qed.

Lemma checkLot_throws env lot : throwsOnly notCancelled (checkLot env lot).
Proof. unfold checkLot, checkOutcome. throwsOnly_walk; reflexivity. Qed.

Lemma addEquip_throws env arr : throwsOnly notCancelled (addEquip env arr).
Proof.
  unfold addEquip, equipAdded. throwsOnly_walk;
    first [reflexivity | assumption | apply rollbackEquipment_throws].
Qed.

Lemma process_throws env lines : throwsOnly notCancelled (process env lines).
Proof.
  unfold process, addWhsHead, addWhsPackAndLines, prcWhsTran, finalStatusValidation,
    lineAdded, await.
  throwsOnly_walk; first [reflexivity | apply rollbackEquipment_throws].
Qed.

Lemma receiveSerials_throws env serials :
  throwsOnly notCancelled (receiveSerials env serials).
Proof.
  unfold receiveSerials. throwsOnly_walk;
    first [apply process_throws | assumption | apply rollbackEquipment_throws].
Qed.

(** ** Steps that never wait, continued *)



Lemma promptConfirm_settles env : settles (promptConfirm env).
Proof. unfold promptConfirm. settles_walk. Qed.


(** ** The dialogs of the branches *)

Lemma keeps_state_tolerates {X} (f : State -> X) K P Q :
  (forall k v s, f (set k v s) = f s) ->
  (forall b s, f (setWms b s) = f s) ->
  (forall c s, f (addCall c s) = f s) ->
  (forall u s, f (addShown u s) = f s) ->
  Tolerates (keeps f) K P Q.
Proof. intros H1 H2 H3 H4. split; unfold keeps; auto. Qed.

Lemma serialDialog_throws qty clicks :
  throwsOnly (fun e => e = Cancelled AtSerials) (serialDialog qty clicks).
Proof.
  induction clicks as [|[entries|] clicks IH]; simpl.
  - apply throwsOnly_quiet. discriminate.
  - destruct (saveSerials qty entries).
    + apply throwsOnly_bind; [apply throwsOnly_quiet; discriminate | intros _; exact IH].
    + apply throwsOnly_quiet. discriminate.
  - apply throwsOnly_throw. reflexivity.
Qed.

Lemma lotDialog_throws expd clicks :
  throwsOnly (fun e => e = Cancelled AtLot) (lotDialog expd clicks).
Proof.
  induction clicks as [|[fields|] clicks IH]; simpl.
  - apply throwsOnly_quiet. discriminate.
  - destruct (saveLot expd fields).
    + apply throwsOnly_bind; [apply throwsOnly_quiet; discriminate | intros _; exact IH].
    + apply throwsOnly_quiet. discriminate.
  - apply throwsOnly_throw. reflexivity.
Qed.

(** What a prompt leaves behind: it sends nothing and tracks nothing. *)
Lemma promptSerials_keeps env s :
  calls (snd (promptSerials env s)) = calls s /\
  createdEquipment (snd (promptSerials env s)) = createdEquipment s /\
  this (snd (promptSerials env s)) = this s.
Proof.
  split; [|split].
  - apply (promptSerials_respects env (keeps calls) none none
             (keeps_calls_tolerates _ _)).
  - apply (promptSerials_respects env (keeps createdEquipment) none none
             (keeps_created_tolerates _ _ _)).
  - apply (promptSerials_respects env (keeps this) none none
             (keeps_this_tolerates _ _)).
Qed.

Lemma promptLot_keeps env s :
  calls (snd (promptLot env s)) = calls s /\
  createdEquipment (snd (promptLot env s)) = createdEquipment s /\
  this (snd (promptLot env s)) = this s.
Proof.
  split; [|split].
  - apply (promptLot_respects env (keeps calls) none none
             (keeps_calls_tolerates _ _)).
  - apply (promptLot_respects env (keeps createdEquipment) none none
             (keeps_created_tolerates _ _ _)).
  - apply (promptLot_respects env (keeps this) none none
             (keeps_this_tolerates _ _)).
Qed.

Lemma promptConfirm_eq env s :
  promptConfirm env s =
  (match onConfirm env with
   | Proceed => Ok tt
   | Cancel => Throw (Cancelled AtConfirm)
   end, addShown ConfirmDialog s).
Proof. unfold promptConfirm, bind, modify. destruct (onConfirm env); reflexivity. Qed.

Lemma promptLot_shown env s :
  exists ev,
    shown (snd (promptLot env s)) =
      shown s ++ LotDialog (jsEq (get "EXPD" s) "1") :: ev /\
    Forall (fun u => isLotPrompt u = true) ev.
Proof.
  unfold promptLot, bind, gets, modify. cbv beta iota.
  assert (HT : Tolerates (shownGrow (fun u => isLotPrompt u = true)) none none isLotPrompt)
    by (apply shownGrow_tolerates; auto).
  destruct (lotDialog_respects (shownGrow (fun u => isLotPrompt u = true)) none none
              (get "EXPD" s) (lotClicks env) HT
              (addShown (LotDialog (jsEq (get "EXPD" s) "1")) s)) as (ev & Hev & HF).
  exists ev. split; [|exact HF].
  destruct (lotDialog _ _ _) as [[r|e|] s2]; cbn [snd] in *;
    rewrite Hev; norm; rewrite <- app_assoc; reflexivity.
Qed.

Lemma promptSerials_cases env s :
  let qty := num (get "RVQA" s) in
  (Qgtb qty (inject_Z (Z.of_nat MAX_SERIALS)) = true /\
   promptSerials env s = (Throw (LimitExceeded qty MAX_SERIALS), s)) \/
  (Qgtb qty (inject_Z (Z.of_nat MAX_SERIALS)) = false /\
   (exists ev,
      shown (snd (promptSerials env s)) = shown s ++ SerialDialog (loopCount qty) :: ev /\
      Forall (fun u => isValidationShown u = true) ev) /\
   forall e, fst (promptSerials env s) = Throw e -> e = Cancelled AtSerials).
Proof.
  intros qty. destruct (Qgtb qty (inject_Z (Z.of_nat MAX_SERIALS))) eqn:E.
  - left. split; [reflexivity|]. unfold promptSerials, bind, gets. cbv beta iota.
    fold qty. rewrite E. reflexivity.
  - right. split; [reflexivity|]. split.
    + apply promptSerials_shown_n; [reflexivity | exact E].
    + intros e. unfold promptSerials, bind, gets, modify. cbv beta iota.
      fold qty. rewrite E. apply serialDialog_throws.
Qed.


(** ** Cancelling *)

Lemma rest_of_serial_throws env serials :
  throwsOnly notCancelled
    (checkSer env serials ;; addEquip env serials ;; receiveSerials env serials).
Proof.
  throwsOnly_walk;
    first [apply checkSer_throws | apply addEquip_throws | apply receiveSerials_throws].
Qed.

Ltac by_process H e :=
  match type of H with
  | process ?env ?l ?s = _ =>
      let Hp := fresh "Hp" in
      pose proof (process_throws env l s e) as Hp; rewrite H in Hp;
      specialize (Hp eq_refl); unfold notCancelled in Hp; congruence
  end.

Lemma branch_cancelled env s e s' :
  branch env s = (Throw e, s') ->
  isCancelled e = true ->
  calls s' = calls s /\ createdEquipment s' = createdEquipment s.
Proof.
  unfold branch, bind, gets. cbv beta iota.
  destruct (jsEq (get "INDI" s) "2"); [|destruct (jsEq (get "INDI" s) "3")].
  - unfold serialBranch, bind.
    destruct (promptSerials_keeps env s) as (Hc & Hcr & _).
    destruct (promptSerials env s) as [[serials|e1|] s2]; cbn [fst snd] in *;
      [|intros [= <- <-] _; auto|discriminate].
    intros H Hcan. exfalso.
    pose proof (rest_of_serial_throws env serials s2 e) as Hrest.
    unfold bind in Hrest. rewrite H in Hrest. specialize (Hrest eq_refl).
    unfold notCancelled in Hrest. congruence.
  - unfold lotBranch, bind.
    destruct (promptLot_keeps env s) as (Hc & Hcr & _).
    destruct (promptLot env s) as [[[lot expi]|e1|] s2]; cbn [fst snd] in *;
      [|intros [= <- <-] _; auto|discriminate].
    intros H Hcan. exfalso.
    pose proof (checkLot_throws env lot s2 e) as Hcheck.
    destruct (checkLot env lot s2) as [[[]|e2|] s3]; cbn [fst] in *.
    + unfold gets in H. cbv beta iota in H.
      by_process H e.
    + injection H as -> _. specialize (Hcheck eq_refl).
      unfold notCancelled in Hcheck. congruence.
    + discriminate.
  - unfold nonLottedBranch, bind. rewrite promptConfirm_eq.
    destruct (onConfirm env); cbn [fst snd].
    + unfold gets. cbv beta iota. intros H Hcan. exfalso.
      by_process H e.
    + intros [= <- <-] _. split; reflexivity.
Qed.

Lemma runBody_shown env :
  Forall (fun u => isFinalDialog u = false) (shown (snd (runBody env initial))).
Proof.
  rewrite runBody_split. unfold bind at 1.
  pose proof (prelude_reads env) as Hpre.
  destruct ((fetchSteps env ;; warnings env) initial) as [[[]|e0|] s1];
    destruct (Hpre _ _ eq_refl) as (_ & Hs & _); cbn [snd].
  2,3: eapply Forall_impl; [exact Hs|]; intros [] Hu; try discriminate; reflexivity.
  assert (HT : Tolerates (shownGrow (fun u => isFinalDialog u = false))
                 (oneOf ["MSGN"]) (oneOf branchTransactions) isBranchDialog).
  { apply shownGrow_tolerates. intros [] Hu; try discriminate; reflexivity. }
  destruct (branch_respects env _ HT
              ltac:(intros; apply shownGrow_same; reflexivity) s1) as (ev & Hev & HF).
  rewrite Hev. apply Forall_app. split; [|exact HF].
  eapply Forall_impl; [exact Hs|]. intros [] Hu; try discriminate; reflexivity.
Qed.

(** X13. Whenever a run ends with the error of a cancelled dialog, no
    write has gone to the remote system and no equipment record is
    tracked: the dialogs come before any write, and no later step can
    fail with a cancellation.  A Cancel in the confirmation dialog,
    or as the first click in the serial or lot dialog, ends the run in
    this way. *)
Theorem cancelling_sends_nothing (env : Env) :
  (forall at_,
     reported (snd (run env initial)) = Some (ErrorDialog (Cancelled at_)) ->
     fst (run env initial) = Ok tt /\
     Forall (fun c => isWrite c = false) (calls (snd (run env initial))) /\
     createdEquipment (snd (run env initial)) = None) /\
  (forall s1,
     (fetchSteps env ;; warnings env) initial = (Ok tt, s1) ->
     (jsEq (get "INDI" s1) "2" = false -> jsEq (get "INDI" s1) "3" = false ->
      onConfirm env = Cancel ->
      reported (snd (run env initial)) = Some (ErrorDialog (Cancelled AtConfirm))) /\
     (jsEq (get "INDI" s1) "2" = true ->
      Qgtb (num (get "RVQA" s1)) (inject_Z (Z.of_nat MAX_SERIALS)) = false ->
      (exists rest, serialClicks env = ClickCancel :: rest) ->
      reported (snd (run env initial)) = Some (ErrorDialog (Cancelled AtSerials))) /\
     (jsEq (get "INDI" s1) "2" = false -> jsEq (get "INDI" s1) "3" = true ->
      (exists rest, lotClicks env = ClickCancel :: rest) ->
      reported (snd (run env initial)) = Some (ErrorDialog (Cancelled AtLot)))).
Proof.
  split.
  - intros at_ Hrep.
    pose proof (run_eq env initial) as Hrun.
    pose proof (runBody_shown env) as Hshown.
    destruct (runBody env initial) as [[[]|e|] s'] eqn:Hbody; cbn [snd] in Hshown;
      rewrite Hrun in *; cbn [fst snd] in *; unfold reported in Hrep; norm_in Hrep.
    + rewrite last_snoc in Hrep. discriminate.
    + rewrite last_snoc in Hrep. injection Hrep as ->.
      split; [reflexivity|]. norm.
      rewrite runBody_split in Hbody. unfold bind at 1 in Hbody.
      pose proof (prelude_reads env) as Hpre.
      destruct ((fetchSteps env ;; warnings env) initial) as [[[]|e0|] s1];
        destruct (Hpre _ _ eq_refl) as (Hc & _ & Hcr).
      * destruct (branch_cancelled env s1 _ _ Hbody eq_refl) as (-> & ->). auto.
      * injection Hbody as _ <-. auto.
      * discriminate.
    + exfalso. apply last_Some_elem_of in Hrep.
      rewrite Forall_forall in Hshown. specialize (Hshown _ Hrep). discriminate.
  - intros s1 Hpre.
    assert (Hrun : run env initial =
                   match branch env s1 with
                   | (Ok _, s') => (Ok tt, addShown SuccessDialog s')
                   | (Throw e, s') => (Ok tt, addShown (ErrorDialog e) s')
                   | (Pending, s') => (Pending, s')
                   end).
    { rewrite run_eq, runBody_split. unfold bind at 1. rewrite Hpre. reflexivity. }
    rewrite Hrun. unfold branch, bind, gets. cbv beta iota.
    split; [|split].
    + intros -> -> Hcancel. unfold nonLottedBranch, bind. rewrite promptConfirm_eq, Hcancel.
      unfold reported. cbn [snd]. norm. rewrite !last_snoc. reflexivity.
    + intros -> Hqty (rest & Hclicks).
      unfold serialBranch, bind, promptSerials, bind, gets, modify. cbv beta iota.
      rewrite Hqty, Hclicks. cbn [serialDialog]. unfold throw.
      unfold reported. cbn [snd]. norm. rewrite !last_snoc. reflexivity.
    + intros -> -> (rest & Hclicks).
      unfold lotBranch, bind, promptLot, bind, gets, modify. cbv beta iota.
      rewrite Hclicks. cbn [lotDialog]. unfold throw.
      unfold reported. cbn [snd]. norm. rewrite !last_snoc. reflexivity.
Qed.

(** ** Writes come after the entry dialog *)

Lemma shown_kept {A} (m : M A) (s : State) (u : UiEvent) :
  respects (shownGrow (fun _ => True)) m -> u ∈ shown s -> u ∈ shown (snd (m s)).
Proof.
  intros Hm Hu. destruct (Hm s) as (ev & -> & _). apply elem_of_app. left. exact Hu.
Qed.

Lemma shownGrow_any_branch :
  Tolerates (shownGrow (fun _ => True)) (oneOf ["MSGN"]) (oneOf branchTransactions)
    isBranchDialog.
Proof. apply shownGrow_tolerates. auto. Qed.

Lemma shownGrow_any_created c s : shownGrow (fun _ : UiEvent => True) s (setCreated c s).
Proof. apply shownGrow_same. reflexivity. Qed.

Lemma rest_of_serial_shown env serials :
  respects (shownGrow (fun _ => True))
    (checkSer env serials ;; addEquip env serials ;; receiveSerials env serials).
Proof.
  rapply respects_bind;
    [apply checkSer_respects_all;
       [exact _ | exact shownGrow_any_branch]|intros _].
  rapply respects_bind;
    [apply addEquip_respects;
       [exact _ | exact shownGrow_any_branch | exact shownGrow_any_created]|intros _].
  apply receiveSerials_respects;
    [exact _ | exact shownGrow_any_branch | exact shownGrow_any_created].
Qed.

Lemma process_shown env lines : respects (shownGrow (fun _ => True)) (process env lines).
Proof.
  apply process_respects; [exact _ | | exact shownGrow_any_created].
  apply shownGrow_tolerates. auto.
Qed.

Lemma branch_entry env s :
  calls (snd (branch env s)) = calls s \/
  exists u, u ∈ shown (snd (branch env s)) /\ isEntryDialog u = true.
Proof.
  unfold branch, bind, gets. cbv beta iota.
  destruct (jsEq (get "INDI" s) "2"); [|destruct (jsEq (get "INDI" s) "3")].
  - unfold serialBranch, bind.
    destruct (promptSerials_cases env s) as [(_ & ->)|(_ & (ev & Hev & _) & _)];
      [left; reflexivity|].
    destruct (promptSerials_keeps env s) as (Hc & _).
    destruct (promptSerials env s) as [[serials|e1|] s2]; cbn [fst snd] in *;
      [|left; exact Hc..].
    right. exists (SerialDialog (loopCount (num (get "RVQA" s)))). split; [|reflexivity].
    apply (shown_kept _ _ _ (rest_of_serial_shown env serials)).
    rewrite Hev. apply elem_of_app. right. left.
  - unfold lotBranch, bind.
    destruct (promptLot_shown env s) as (ev & Hev & _).
    destruct (promptLot_keeps env s) as (Hc & _).
    destruct (promptLot env s) as [[[lot expi]|e1|] s2]; cbn [fst snd] in *;
      [|left; exact Hc..].
    right. exists (LotDialog (jsEq (get "EXPD" s) "1")). split; [|reflexivity].
    assert (Hin : LotDialog (jsEq (get "EXPD" s) "1") ∈ shown s2)
      by (rewrite Hev; apply elem_of_app; right; left).
    pose proof (checkLot_respects_all env _ shownGrow_any_branch lot s2)
      as (ev2 & Hev2 & _).
    destruct (checkLot env lot s2) as [[[]|e2|] s3]; cbn [fst snd] in *.
    + unfold gets. cbv beta iota. apply (shown_kept _ _ _ (process_shown env _)).
      rewrite Hev2. apply elem_of_app. left. exact Hin.
    + rewrite Hev2. apply elem_of_app. left. exact Hin.
    + rewrite Hev2. apply elem_of_app. left. exact Hin.
  - unfold nonLottedBranch, bind. rewrite promptConfirm_eq.
    right. exists ConfirmDialog. split; [|reflexivity].
    destruct (onConfirm env); cbn [fst snd].
    + unfold gets. cbv beta iota. apply (shown_kept _ _ _ (process_shown env _)).
      norm. apply elem_of_app. right. left.
    + norm. apply elem_of_app. right. left.
Qed.

(** X14. No run writes to the remote system before the operator has
    been shown the dialog of the branch: whenever the trace of a run
    holds a write, the serial dialog, the lot dialog or the
    confirmation dialog has been shown. *)
Theorem writes_follow_the_entry_dialog (env : Env) (c : MIRequest * MIOutcome) :
  c ∈ calls (snd (run env initial)) ->
  isWrite c = true ->
  exists u, u ∈ shown (snd (run env initial)) /\ isEntryDialog u = true.
Proof.
  intros Hin Hw.
  assert (Hrun : calls (snd (run env initial)) = calls (snd (runBody env initial)) /\
                 forall u, u ∈ shown (snd (runBody env initial)) ->
                           u ∈ shown (snd (run env initial))).
  { rewrite run_eq. destruct (runBody env initial) as [[[]|e|] s']; cbn [snd]; norm;
      split; try reflexivity; intros u Hu; try (apply elem_of_app; left); exact Hu. }
  destruct Hrun as (Hcalls & Hshown). rewrite Hcalls in Hin.
  rewrite runBody_split in Hin, Hshown. unfold bind at 1 in Hin. unfold bind at 1 in Hshown.
  pose proof (prelude_reads env) as Hpre.
  destruct ((fetchSteps env ;; warnings env) initial) as [[[]|e0|] s1];
    destruct (Hpre _ _ eq_refl) as (Hreads & _); cbn [snd] in *.
  - destruct (branch_entry env s1) as [Hsame|(u & Hu & Hentry)].
    + exfalso. rewrite Hsame in Hin. rewrite Forall_forall in Hreads.
      specialize (Hreads _ Hin). congruence.
    + exists u. split; [apply Hshown; exact Hu | exact Hentry].
  - exfalso. rewrite Forall_forall in Hreads. specialize (Hreads _ Hin). congruence.
  - exfalso. rewrite Forall_forall in Hreads. specialize (Hreads _ Hin). congruence.
Qed.

Lemma writes_follow_the_entry_dialog_witness :
  let env := Demo.env "5" "0" "10" "" "" "90" Proceed [] [] in
  exists u, u ∈ shown (snd (run env initial)) /\ isEntryDialog u = true.
Proof.
  intros env.
  destruct (nth_error (calls (snd (run env initial))) 5) as [c|] eqn:E;
    [|vm_compute in E; discriminate E].
  apply (writes_follow_the_entry_dialog env c).
  - apply list_elem_of_In. eapply nth_error_In. exact E.
  - vm_compute in E. injection E as <-. vm_compute. reflexivity.
Defined.

(** ** How a run ends *)



(** ** The blocks of the receipt *)

Lemma addWhsHead_eq env s :
  let rq := headRequest (get "WHLO" s) in
  let o := mi env (calls s) rq in
  addWhsHead env s =
  match o with
  | Rejected e => (Throw (RemoteError e), addCall (rq, o) s)
  | Fulfilled h =>
      match itemOf h with
      | Some hit =>
          if truthy (hit !! "MSGN")
          then (Ok tt, set "MSGN" (hit !! "MSGN") (addCall (rq, o) s))
          else (Throw (NoRecord "Warehouse transaction header creation" h),
                addCall (rq, o) s)
      | None => (Throw (NoRecord "Warehouse transaction header creation" h),
                 addCall (rq, o) s)
      end
  end.
Proof.
  intros rq o. unfold addWhsHead, bind, gets. cbv beta iota. rewrite await_eq.
  cbv zeta. fold rq. fold o. destruct o as [h|e]; [|reflexivity].
  destruct (itemOf h) as [hit|]; [|reflexivity].
  destruct (truthy (hit !! "MSGN")); reflexivity.
Qed.

Lemma prcWhsTran_eq env s :
  let rq := processRequest (get "MSGN" s) in
  let o := mi env (calls s) rq in
  prcWhsTran env s =
  (match o with
   | Rejected e => Throw (RemoteError e)
   | Fulfilled prc =>
       match itemOf prc with
       | Some _ => Ok tt
       | None => Throw (NoRecord "Transaction processing" prc)
       end
   end, addCall (rq, o) s).
Proof.
  intros rq o. unfold prcWhsTran, bind, gets. cbv beta iota. rewrite await_eq.
  cbv zeta. fold rq. fold o. destruct o as [h|e]; [|reflexivity].
  destruct (itemOf h); reflexivity.
Qed.

Lemma forEach_lineAdded_ok (l : list (Line * MIOutcome)) s (rq : Line -> MIRequest) :
  fst (forEachM (fun '(a, o) => lineAdded a o) l s) = Ok tt ->
  Forall (fun c => fulfilledCall c = true) (callsOf rq l).
Proof.
  induction l as [|[a o] l IH]; simpl; [constructor|].
  unfold bind. destruct o; simpl; [|discriminate].
  intros H. constructor; [reflexivity | apply IH; exact H].
Qed.

Lemma callsOf_perm {A} (rq : A -> MIRequest) (l l' : list (A * MIOutcome)) :
  l ≡ₚ l' -> callsOf rq l ≡ₚ callsOf rq l'.
Proof. intros H. unfold callsOf. apply fmap_Permutation. exact H. Qed.

Lemma length_callsOf {A} (rq : A -> MIRequest) (l : list (A * MIOutcome)) :
  List.length (callsOf rq l) = List.length l.
Proof. unfold callsOf. apply length_map. Qed.

Lemma addWhsPackAndLines_fulfilled env lines s pack s' :
  addWhsPackAndLines env lines s = (Ok pack, s') ->
  pack = packNumberOf s /\
  exists o settled,
    map fst settled = lines /\
    s' = addCalls ((packRequest s pack, o) :: callsOf (lineRequest s pack) settled) s /\
    Forall (fun c => fulfilledCall c = true)
      ((packRequest s pack, o) :: callsOf (lineRequest s pack) settled).
Proof.
  unfold addWhsPackAndLines, bind, gets, await, bind, executeRequest, id.
  set (pk := packNumberOf s).
  destruct (mi env (calls s) (packRequest s pk)) as [r|e] eqn:Eo; simpl;
    [|discriminate].
  unfold promiseAll.
  pose proof (issueAll_spec env (fun st rec => lineRequest st pk rec) lines
                (addCall (packRequest s pk, Fulfilled r) s)) as Hi.
  destruct Hi as [H1 H2]; [intros ? ? ?; reflexivity|].
  destruct (issueAll env _ lines _) as [settled s1]. simpl in H1, H2.
  pose proof (forEach_lineAdded (arrival (picksLines env) settled) s1) as Hs.
  pose proof (forEach_lineAdded_ok (arrival (picksLines env) settled) s1
                (lineRequest s pk)) as Hok.
  destruct (forEachM _ _ s1) as [[[]|?|] s2]; simpl in *; try discriminate.
  intros H. injection H as <- <-. split; [reflexivity|].
  exists (Fulfilled r), settled. split; [exact H1|]. split.
  - rewrite addCalls_cons. subst s2. exact H2.
  - constructor; [reflexivity|].
    eapply Permutation_Forall; [|apply Hok; reflexivity].
    apply callsOf_perm, arrival_perm.
Qed.

Lemma get_addCalls k cs s : get k (addCalls cs s) = get k s.
Proof. reflexivity. Qed.

Lemma calls_addCalls cs s : calls (addCalls cs s) = calls s ++ cs.
Proof. reflexivity. Qed.

(** A [process] that succeeds, step by step. *)
Lemma process_ok env lines s s' :
  process env lines s = (Ok tt, s') ->
  exists h hit msgn o settled prc sr sit,
    let s1 := set "MSGN" (Some msgn) (addCall (headRequest (get "WHLO" s), Fulfilled h) s) in
    let pack := packNumberOf s in
    itemOf h = Some hit /\ hit !! "MSGN" = Some msgn /\ msgn <> "" /\
    map fst settled = lines /\
    Forall (fun c => fulfilledCall c = true)
      ((packRequest s1 pack, o) :: callsOf (lineRequest s1 pack) settled) /\
    is_Some (itemOf prc) /\
    itemOf sr = Some sit /\ sit !! "STAT" = Some "90" /\
    s' = addCall (statusRequest (Some msgn), Fulfilled sr)
           (addCall (processRequest (Some msgn), Fulfilled prc)
              (addCalls ((packRequest s1 pack, o) :: callsOf (lineRequest s1 pack) settled)
                 s1)).
Proof.
  unfold process. unfold bind at 1. rewrite addWhsHead_eq. cbv zeta.
  destruct (mi env (calls s) (headRequest (get "WHLO" s))) as [h|e]; [|discriminate].
  destruct (itemOf h) as [hit|] eqn:Hh; [|discriminate].
  destruct (truthy (hit !! "MSGN")) eqn:Hm; [|discriminate].
  apply truthy_spec in Hm as (msgn & Hmsgn & Hne). rewrite Hmsgn.
  set (s1 := set "MSGN" (Some msgn) (addCall (headRequest (get "WHLO" s), Fulfilled h) s)).
  unfold bind at 1.
  pose proof (addWhsPackAndLines_fulfilled env lines s1) as Hpl.
  destruct (addWhsPackAndLines env lines s1) as [[pack|?|] s2]; [|discriminate..].
  destruct (Hpl _ _ eq_refl) as (Hpack & o & settled & Hset & Hs2 & Hful). clear Hpl.
  assert (Hpk : packNumberOf s1 = packNumberOf s).
  { unfold packNumberOf, s1. norm. reflexivity. }
  rewrite Hpk in Hpack. subst pack.
  unfold bind at 1. rewrite prcWhsTran_eq. cbv zeta.
  assert (Hg2 : get "MSGN" s2 = Some msgn).
  { rewrite Hs2, get_addCalls. unfold s1. norm. reflexivity. }
  rewrite Hg2.
  destruct (mi env (calls s2) (processRequest (Some msgn))) as [prc|e]; [|discriminate].
  destruct (itemOf prc) as [pit|] eqn:Hprc; [|discriminate].
  destruct (finalStatus_spec env (packNumberOf s)
              (addCall (processRequest (Some msgn), Fulfilled prc) s2))
    as (deleted & _ & Hfin).
  rewrite Hfin. clear Hfin. norm. rewrite Hg2.
  destruct (mi env _ (statusRequest (Some msgn))) as [sr|e]; [|discriminate].
  destruct (itemOf sr) as [sit|] eqn:Hsr; [|discriminate].
  destruct (jsEq (sit !! "STAT") "90") eqn:Hst; [|discriminate].
  intros [= <-]. apply jsEq_spec in Hst.
  exists h, hit, msgn, o, settled, prc, sr, sit. cbv zeta. fold s1.
  repeat split; try assumption; try (rewrite Hprc; eexists; reflexivity).
  rewrite Hs2. reflexivity.
Qed.

Lemma nodup_keys (l : list string) : bool_decide (NoDup l) = true -> NoDup l.
Proof. apply bool_decide_eq_true_1. Qed.

Ltac request_lookup :=
  apply mkRequest_lookup;
  [ apply nodup_keys; vm_compute; reflexivity | simpl; tauto ].

Lemma packRequest_msgn st pack : record (packRequest st pack) !! "MSGN" = get "MSGN" st.
Proof. unfold packRequest. request_lookup. Qed.

Lemma lineRequest_msgn st pack rec :
  record (lineRequest st pack rec) !! "MSGN" = get "MSGN" st.
Proof. unfold lineRequest. request_lookup. Qed.

Lemma processRequest_msgn msgn : record (processRequest msgn) !! "MSGN" = msgn.
Proof. unfold processRequest. request_lookup. Qed.

Lemma statusRequest_msgn msgn : record (statusRequest msgn) !! "MSGN" = msgn.
Proof. unfold statusRequest. request_lookup. Qed.

Lemma endpoint_lines st pack (settled : list (Line * MIOutcome)) :
  map endpoint (callsOf (lineRequest st pack) settled) =
  replicate (List.length settled) ("MHS850MI", "AddWhsLine").
Proof.
  induction settled as [|[rec o] settled IH]; simpl; [reflexivity|].
  rewrite IH. reflexivity.
Qed.

(** X16. A [process] that succeeds has sent, in this order and
    nothing else, one AddWhsHead, one AddWhsPack, one AddWhsLine per
    line, one PrcWhsTran and one GetWhsHead, each of which was
    answered.  The message number is the one the header call brought
    back, it is not empty, and every later call carries it; the status
    that was polled is '90'. *)
Theorem receipt_calls_in_order (env : Env) (lines : list Line) (s s' : State) :
  process env lines s = (Ok tt, s') ->
  exists cs msgn,
    calls s' = calls s ++ cs /\
    map endpoint cs =
      [("MHS850MI", "AddWhsHead"); ("MHS850MI", "AddWhsPack")] ++
      replicate (List.length lines) ("MHS850MI", "AddWhsLine") ++
      [("MHS850MI", "PrcWhsTran"); ("MHS850MI", "GetWhsHead")] /\
    Forall (fun c => fulfilledCall c = true) cs /\
    msgn <> "" /\
    get "MSGN" s' = Some msgn /\
    (exists rq h hit,
       cs !! 0%nat = Some (rq, Fulfilled h) /\ itemOf h = Some hit /\
       hit !! "MSGN" = Some msgn) /\
    Forall (fun c => record (fst c) !! "MSGN" = Some msgn) (drop 1 cs) /\
    polledStatus cs (Some "90").
Proof.
  intros H.
  destruct (process_ok env lines s s' H)
    as (h & hit & msgn & o & settled & prc & sr & sit & Hh & Hm & Hne & Hset & Hful &
        Hprc & Hsr & Hst & ->).
  cbv zeta in Hful.
  set (s1 := set "MSGN" (Some msgn)
               (addCall (headRequest (get "WHLO" s), Fulfilled h) s)) in *.
  set (pack := packNumberOf s) in *.
  assert (Hg1 : get "MSGN" s1 = Some msgn) by (unfold s1; norm; reflexivity).
  exists ((headRequest (get "WHLO" s), Fulfilled h) ::
          ((packRequest s1 pack, o) :: callsOf (lineRequest s1 pack) settled) ++
          [(processRequest (Some msgn), Fulfilled prc);
           (statusRequest (Some msgn), Fulfilled sr)]), msgn.
  split; [|split; [|split; [|split; [|split; [|split; [|split]]]]]].
  - norm. rewrite calls_addCalls. unfold s1. norm.
    rewrite <- !app_assoc. reflexivity.
  - cbn [map app]. rewrite map_app, endpoint_lines.
    rewrite <- Hset, length_map. reflexivity.
  - constructor; [reflexivity|]. apply Forall_app. split; [exact Hful|].
    repeat constructor.
  - exact Hne.
  - norm. rewrite get_addCalls. exact Hg1.
  - exists (headRequest (get "WHLO" s)), h, hit. auto.
  - cbn [drop]. apply Forall_app. split.
    + constructor; [cbn [fst]; rewrite packRequest_msgn; exact Hg1|].
      apply callsOf_Forall. intros rec o'. cbn [fst].
      rewrite lineRequest_msgn. exact Hg1.
    + repeat constructor; cbn [fst];
        first [apply processRequest_msgn | apply statusRequest_msgn].
  - exists (statusRequest (Some msgn)), sr, sit.
    split; [|split; [reflexivity | split; assumption]].
    apply elem_of_cons. right. apply elem_of_app. right. right. left.
Qed.

Lemma receipt_calls_in_order_witness :
  let env := Demo.env "5" "0" "10" "" "" "90" Proceed [] [] in
  let lines := [{| BANO := None; RVQA := Some "5"; EXPI := None |};
                {| BANO := None; RVQA := Some "2"; EXPI := None |}] in
  let s := set "WHLO" (Some "W01") initial in
  let s' := snd (process env lines s) in
  exists cs msgn,
    calls s' = calls s ++ cs /\
    map endpoint cs =
      [("MHS850MI", "AddWhsHead"); ("MHS850MI", "AddWhsPack")] ++
      replicate (List.length lines) ("MHS850MI", "AddWhsLine") ++
      [("MHS850MI", "PrcWhsTran"); ("MHS850MI", "GetWhsHead")] /\
    Forall (fun c => fulfilledCall c = true) cs /\
    msgn <> "" /\
    get "MSGN" s' = Some msgn /\
    (exists rq h hit,
       cs !! 0%nat = Some (rq, Fulfilled h) /\ itemOf h = Some hit /\
       hit !! "MSGN" = Some msgn) /\
    Forall (fun c => record (fst c) !! "MSGN" = Some msgn) (drop 1 cs) /\
    polledStatus cs (Some "90").
Proof.
  intros env lines s s'.
  apply (receipt_calls_in_order env lines s s'). vm_compute. reflexivity.
Defined.

(** ** Runs that end with the success dialog *)

Lemma run_success env :
  reported (snd (run env initial)) = Some SuccessDialog ->
  exists s1 s2,
    (fetchSteps env ;; warnings env) initial = (Ok tt, s1) /\
    branch env s1 = (Ok tt, s2) /\
    run env initial = (Ok tt, addShown SuccessDialog s2).
Proof.
  intros Hrep. pose proof (run_eq env initial) as Hrun.
  pose proof (runBody_shown env) as Hshown.
  destruct (runBody env initial) as [[[]|e|] s'] eqn:Hbody; cbn [snd] in Hshown;
    rewrite Hrun in Hrep; cbn [snd] in Hrep; unfold reported in Hrep; norm_in Hrep.
  - rewrite runBody_split in Hbody. unfold bind at 1 in Hbody.
    destruct ((fetchSteps env ;; warnings env) initial) as [[[]|e0|] s1] eqn:Hpre;
      try discriminate.
    exists s1, s'. rewrite Hrun. auto.
  - rewrite last_snoc in Hrep. discriminate.
  - exfalso. apply last_Some_elem_of in Hrep.
    rewrite Forall_forall in Hshown. specialize (Hshown _ Hrep). discriminate.
Qed.

Lemma lotDialog_ok expd clicks s r s' :
  lotDialog expd clicks s = (Ok r, s') ->
  exists fields, ClickSave fields ∈ clicks /\ saveLot expd fields = inr r.
Proof.
  revert s. induction clicks as [|[fields|] clicks IH]; intros s; simpl;
    try discriminate.
  destruct (saveLot expd fields) as [errors|r'] eqn:Hsave.
  - unfold bind, modify. intros H. destruct (IH _ H) as (f & Hin & Hf).
    exists f. split; [right; exact Hin | exact Hf].
  - unfold ret. intros H. injection H as -> _. exists fields. split; [left | exact Hsave].
Qed.

Lemma promptLot_ok env s r s' :
  promptLot env s = (Ok r, s') ->
  exists fields,
    ClickSave fields ∈ lotClicks env /\ saveLot (get "EXPD" s) fields = inr r.
Proof.
  unfold promptLot, bind, gets, modify. cbv beta iota.
  intros H. eapply lotDialog_ok. exact H.
Qed.

(** A lot branch that succeeds: its dialog, its check, its receipt. *)
Lemma lotBranch_ok env s s' :
  lotBranch env s = (Ok tt, s') ->
  exists fields lot expi sp,
    let rq := lotRequest (get "ITNO" s) lot in
    let o := mi env (calls s) rq in
    ClickSave fields ∈ lotClicks env /\
    saveLot (get "EXPD" s) fields = inr (lot, expi) /\
    this sp = this s /\ calls sp = calls s /\
    createdEquipment sp = createdEquipment s /\
    passes (get "ITNO" s) lot o /\
    process env [{| BANO := Some lot; RVQA := get "RVQA" s; EXPI := expi |}]
      (addCall (rq, o) sp) = (Ok tt, s').
Proof.
  unfold lotBranch. unfold bind at 1. intros H.
  destruct (promptLot_keeps env s) as (Hc & Hcr & Ht).
  pose proof (promptLot_ok env s) as Hok.
  destruct (promptLot env s) as [[[lot expi]|?|] sp]; try discriminate.
  destruct (Hok _ _ eq_refl) as (fields & Hin & Hsave). clear Hok.
  cbn [snd] in Hc, Hcr, Ht.
  assert (Hg : forall k, get k sp = get k s) by (intros k; unfold get; rewrite Ht; reflexivity).
  exists fields, lot, expi, sp. cbv zeta.
  unfold bind at 1 in H.
  pose proof (checkOne_eq env LotId lot sp) as Hchk. cbv zeta in Hchk.
  change (checkOne env LotId lot sp) with (checkLot env lot sp) in Hchk.
  rewrite Hchk, Hg, Hc in H.
  pose proof (checkOutcome_passes LotId (get "ITNO" s) lot
                (mi env (calls s) (lotRequest (get "ITNO" s) lot))
                (addCall (lotRequest (get "ITNO" s) lot,
                          mi env (calls s) (lotRequest (get "ITNO" s) lot)) sp)) as Hp.
  rewrite checkOutcome_pure in H. rewrite checkOutcome_pure in Hp. cbn [fst] in Hp.
  destruct (fst (checkOutcome LotId _ lot _ initial)) as [[]|?|]; try discriminate.
  unfold bind, gets in H. cbv beta iota in H.
  rewrite get_addCall, Hg in H.
  repeat split; try assumption. apply Hp. reflexivity.
Qed.

Lemma nonLottedBranch_ok env s s' :
  nonLottedBranch env s = (Ok tt, s') ->
  onConfirm env = Proceed /\
  process env [{| BANO := None; RVQA := get "RVQA" s; EXPI := None |}]
    (addShown ConfirmDialog s) = (Ok tt, s').
Proof.
  unfold nonLottedBranch. unfold bind at 1. rewrite promptConfirm_eq.
  destruct (onConfirm env); [|discriminate].
  unfold bind, gets. cbv beta iota. rewrite get_addShown. auto.
Qed.

(** The five calls of a receipt of one line that succeeds. *)
Lemma single_line_receipt env line s s' :
  process env [line] s = (Ok tt, s') ->
  exists msgn h o1 o2 prc sr,
    let st := set "MSGN" (Some msgn) s in
    msgn <> "" /\
    this s' = this st /\ shown s' = shown s /\
    createdEquipment s' = createdEquipment s /\
    polledStatus [(statusRequest (Some msgn), Fulfilled sr)] (Some "90") /\
    calls s' = calls s ++
      [(headRequest (get "WHLO" s), Fulfilled h);
       (packRequest st (packNumberOf s), Fulfilled o1);
       (lineRequest st (packNumberOf s) line, Fulfilled o2);
       (processRequest (Some msgn), Fulfilled prc);
       (statusRequest (Some msgn), Fulfilled sr)].
Proof.
  intros H.
  destruct (process_ok env [line] s s' H)
    as (h & hit & msgn & o & settled & prc & sr & sit & Hh & Hm & Hne & Hset & Hful &
        Hprc & Hsr & Hst & ->).
  cbv zeta in Hful.
  set (s1 := set "MSGN" (Some msgn)
               (addCall (headRequest (get "WHLO" s), Fulfilled h) s)) in *.
  destruct settled as [|[l o2] [|? ?]]; try discriminate.
  injection Hset as ->.
  apply Forall_cons in Hful as [Ho1 Hful]. apply Forall_cons in Hful as [Ho2 _].
  destruct o as [o1|]; [|discriminate]. destruct o2 as [o2|]; [|discriminate].
  exists msgn, h, o1, o2, prc, sr. cbv zeta.
  assert (Hthis : this s1 = this (set "MSGN" (Some msgn) s)) by reflexivity.
  split; [exact Hne|]. split; [reflexivity|]. split; [reflexivity|].
  split; [reflexivity|]. split.
  - exists (statusRequest (Some msgn)), sr, sit.
    split; [left|]. split; [reflexivity|]. auto.
  - norm. rewrite calls_addCalls. unfold s1 at 1. norm.
    cbn [callsOf map]. rewrite <- !app_assoc. cbn [app].
    rewrite (packRequest_this _ _ _ Hthis), (lineRequest_this _ _ _ _ Hthis).
    reflexivity.
Qed.

Lemma forEach_check_state (l : list (string * MIOutcome)) (st : State) :
  snd (forEachM (fun '(s, o) => let* itno := gets (get "ITNO") in
                                checkOutcome SerialId itno s o) l st) = st.
Proof.
  induction l as [|[s o] l IH]; [reflexivity|]. cbn [forEachM].
  unfold bind at 1. unfold bind at 1, gets. cbv beta iota.
  rewrite (checkOutcome_pure SerialId (get "ITNO" st) s o st).
  destruct (fst (checkOutcome SerialId (get "ITNO" st) s o initial)) as [[]|?|];
    [exact IH | reflexivity | reflexivity].
Qed.

(** A batch check that passes: one look-up per serial, in the order of
    the batch, each of which let its serial through. *)
Lemma checkSer_ok env arr s s' :
  checkSer env arr s = (Ok tt, s') ->
  exists settled,
    map fst settled = arr /\
    s' = addCalls (callsOf (lotRequest (get "ITNO" s)) settled) s /\
    Forall (fun x => passes (get "ITNO" s) (fst x) (snd x)) settled.
Proof.
  intros H. destruct (checkSer_batch env arr s) as (Hfst & Hok & _).
  cbv zeta in Hfst, Hok.
  pose proof (issueAll_spec env (fun st x => lotRequest (get "ITNO" st) x) arr s) as Hi.
  destruct Hi as [_ Hsnd]; [intros ? ? ?; reflexivity|].
  assert (Hr : fst (checkSer env arr s) = Ok tt) by (rewrite H; reflexivity).
  pose proof (proj1 Hok Hr) as Hpass. clear Hok Hr.
  unfold checkSer, promiseAll in H.
  destruct (issueAll env _ arr s) as [settled st1]. cbn [fst snd] in *.
  exists settled. split; [exact Hfst|]. split.
  - pose proof (forEach_check_state (arrival (picksCheck env) settled) st1) as Hst.
    rewrite H in Hst. cbn [snd] in Hst. subst s'. exact Hsnd.
  - apply Forall_forall. intros [x o] Hin. apply Hpass. exact Hin.
Qed.

Lemma addRequest_this env s s' x :
  this s = this s' -> addRequest env s x = addRequest env s' x.
Proof. intros H. unfold addRequest, get. rewrite H. reflexivity. Qed.

(** A serial branch that succeeds: the dialog, one look-up and one
    creation per serial, then the receipt. *)
Lemma serialBranch_ok env s s' :
  serialBranch env s = (Ok tt, s') ->
  exists serials sp checked added s4 s5,
    promptSerials env s = (Ok serials, sp) /\
    map fst checked = serials /\ map fst added = serials /\
    Forall (fun x => passes (get "ITNO" s) (fst x) (snd x)) checked /\
    Forall (fun x => returnsRecord (snd x) = true) added /\
    this s4 = this s /\ shown s4 = shown sp /\
    calls s4 = calls s ++ callsOf (lotRequest (get "ITNO" s)) checked ++
                          callsOf (addRequest env s) added /\
    process env (map serialLine serials) s4 = (Ok tt, s5) /\
    s' = setCreated (Some []) s5.
Proof.
  unfold serialBranch. unfold bind at 1. intros H.
  destruct (promptSerials_keeps env s) as (Hc & _ & Ht).
  destruct (promptSerials env s) as [[serials|?|] sp] eqn:Hprompt; try discriminate.
  cbn [snd] in Hc, Ht.
  unfold bind at 1 in H.
  destruct (checkSer env serials sp) as [[[]|?|] s3] eqn:Hchk; try discriminate.
  destruct (checkSer_ok env serials sp s3 Hchk) as (checked & Hck1 & -> & Hck3).
  assert (Hg : get "ITNO" sp = get "ITNO" s) by (unfold get; rewrite Ht; reflexivity).
  rewrite Hg in *.
  set (s3 := addCalls (callsOf (lotRequest (get "ITNO" s)) checked) sp) in *.
  unfold bind at 1 in H.
  destruct (addEquip_spec env serials s3) as (good & rest & Hfst & Hord & Hgood & Hres).
  cbv zeta in Hfst, Hord, Hres.
  destruct rest as [|x rest].
  2:{ destruct Hres as (_ & d & _ & Hres). rewrite Hres in H. discriminate. }
  rewrite Hres in H. rewrite app_nil_r in Hord.
  rewrite receiveSerials_eq in H.
  match type of H with
  | context [process env ?l ?st] => set (s4 := st) in *;
      destruct (process env l s4) as [[[]|?|] s5] eqn:Hproc; try discriminate
  end.
  injection H as <-.
  exists serials, sp, checked,
    (fst (issueAll env (addRequest env) serials (setCreated (Some []) s3))), s4, s5.
  split; [reflexivity|]. split; [exact Hck1|]. split; [exact Hfst|].
  split; [exact Hck3|]. split.
  { eapply Permutation_Forall; [|exact Hgood]. rewrite <- Hord. apply arrival_perm. }
  split; [exact Ht|]. split; [reflexivity|]. split.
  - unfold s4, s3. cbn [calls setCreated addCalls]. rewrite Hc, <- app_assoc.
    f_equal. f_equal. unfold callsOf. apply map_ext. intros [x o].
    rewrite (addRequest_this env _ s x); [reflexivity | exact Ht].
  - split; [exact Hproc | reflexivity].
Qed.

(** The fields of an AddWhsLine record. *)
Lemma lineRequest_lookup st pack rec k v :
  In (k, v)
    [("WHLO", get "WHLO" st); ("MSGN", get "MSGN" st);
     ("PACN", Some pack); ("QLFR", Some "20");
     ("ITNO", get "ITNO" st); ("RVQA", RVQA rec);
     ("RIDN", get "PUNO" st); ("RIDL", get "PNLI" st); ("RIDX", get "PNLS" st);
     ("OEND", get "OEND" st);
     ("WHSL", if isNonMaterial st then None else get "WHSL" st);
     ("BANO", if truthy (BANO rec) then BANO rec else None);
     ("EXPI", if truthy (EXPI rec) then EXPI rec else None)] ->
  record (lineRequest st pack rec) !! k = v.
Proof.
  intros H. unfold lineRequest.
  apply mkRequest_lookup; [apply nodup_keys; vm_compute; reflexivity | exact H].
Qed.


Lemma saveLot_inr expd fields lot expi :
  saveLot expd fields = inr (lot, expi) ->
  lot = trim (fst fields) /\ fieldViolation lot = None /\
  expi = (if jsEq expd "1" then Some (withoutHyphens (snd fields)) else None) /\
  (jsEq expd "1" = true -> snd fields <> "").
Proof.
  unfold saveLot. rewrite lot_rule.
  destruct (fieldViolation (trim (fst fields))) eqn:Hv.
  { destruct (jsEq expd "1"); [destruct (String.eqb (snd fields) "")|]; discriminate. }
  destruct (jsEq expd "1").
  - destruct (String.eqb_spec (snd fields) "") as [E|E]; [discriminate|].
    cbn [app]. intros [= <- <-]. auto.
  - cbn [app]. intros [= <- <-]. split; [reflexivity|]. split; [exact Hv|].
    split; [reflexivity | discriminate].
Qed.

Lemma prelude_not_branch env s1 r :
  (fetchSteps env ;; warnings env) initial = (r, s1) ->
  Forall (fun c => oneOf branchTransactions (transaction (fst c)) = false) (calls s1).
Proof.
  intros H. eapply Forall_impl; [exact (prelude_calls env s1 r H)|].
  intros c. apply fetch_not_branch.
Qed.

(** X17. A run for a lot-controlled item (INDI '3') that ends with the
    success dialog has, after its look-ups, sent exactly six calls: the
    look-up of the lot that a Save of the lot dialog accepted, which
    let the lot through, then AddWhsHead, AddWhsPack, one AddWhsLine,
    PrcWhsTran and GetWhsHead, all answered, the status being '90'.
    The one line carries the trimmed lot number as BANO, the quantity
    text of the screen as it stands as RVQA and, for an item with
    expiration dates, the entered date without hyphens as EXPI; without
    expiration dates, or when nothing but hyphens was entered, it has
    no EXPI. *)
Theorem lot_receipt_line (env : Env) (s1 : State) :
  (fetchSteps env ;; warnings env) initial = (Ok tt, s1) ->
  get "INDI" s1 = Some "3" ->
  reported (snd (run env initial)) = Some SuccessDialog ->
  exists fields lot check h o1 line o2 prc sr msgn,
    ClickSave fields ∈ lotClicks env /\
    lot = trim (fst fields) /\ fieldViolation lot = None /\
    (jsEq (get "EXPD" s1) "1" = true -> snd fields <> "") /\
    passes (get "ITNO" s1) lot check /\
    calls (snd (run env initial)) =
      calls s1 ++
      [(lotRequest (get "ITNO" s1) lot, check);
       (headRequest (get "WHLO" s1), Fulfilled h);
       (packRequest (set "MSGN" (Some msgn) s1) (packNumberOf s1), Fulfilled o1);
       (line, Fulfilled o2);
       (processRequest (Some msgn), Fulfilled prc);
       (statusRequest (Some msgn), Fulfilled sr)] /\
    polledStatus [(statusRequest (Some msgn), Fulfilled sr)] (Some "90") /\
    program line = "MHS850MI" /\ transaction line = "AddWhsLine" /\
    record line !! "BANO" = Some lot /\
    record line !! "RVQA" = get "RVQA" s1 /\
    record line !! "EXPI" =
      (if jsEq (get "EXPD" s1) "1" && nonEmpty (withoutHyphens (snd fields))
       then Some (withoutHyphens (snd fields)) else None).
Proof.
  intros Hpre Hindi Hrep.
  destruct (run_success env Hrep) as (s1' & s2 & Hpre' & Hbr & Hrun).
  rewrite Hpre in Hpre'. injection Hpre' as <-.
  rewrite Hrun. cbn [snd]. norm.
  unfold branch, bind, gets in Hbr. cbv beta iota in Hbr. rewrite Hindi in Hbr.
  change (jsEq (Some "3") "2") with false in Hbr.
  change (jsEq (Some "3") "3") with true in Hbr. cbv iota in Hbr.
  destruct (lotBranch_ok env s1 s2 Hbr)
    as (fields & lot & expi & sp & Hin & Hsave & Ht & Hc & _ & Hpass & Hproc).
  destruct (saveLot_inr _ _ _ _ Hsave) as (Hlot & Hv & Hexpi & Hdate).
  destruct (single_line_receipt env _ _ _ Hproc)
    as (msgn & h & o1 & o2 & prc & sr & Hne & _ & _ & _ & Hpoll & Hcalls).
  cbv zeta in Hcalls.
  set (st := set "MSGN" (Some msgn) s1).
  assert (Hst : this (set "MSGN" (Some msgn)
                        (addCall (lotRequest (get "ITNO" s1) lot,
                                  mi env (calls s1) (lotRequest (get "ITNO" s1) lot)) sp))
                = this st).
  { unfold st, set. cbn [this addCall]. rewrite Ht. reflexivity. }
  assert (Hg : forall k, get k (addCall (lotRequest (get "ITNO" s1) lot,
                                  mi env (calls s1) (lotRequest (get "ITNO" s1) lot)) sp)
                         = get k s1).
  { intros k. unfold get. cbn [this addCall]. rewrite Ht. reflexivity. }
  assert (Hpk : packNumberOf (addCall (lotRequest (get "ITNO" s1) lot,
                                  mi env (calls s1) (lotRequest (get "ITNO" s1) lot)) sp)
                = packNumberOf s1).
  { unfold packNumberOf. rewrite !Hg. reflexivity. }
  rewrite Hpk, Hg, (packRequest_this _ _ _ Hst), (lineRequest_this _ _ _ _ Hst) in Hcalls.
  rewrite calls_addCall, Hc, <- app_assoc in Hcalls. cbn [app] in Hcalls.
  assert (Hlt : truthy (Some lot) = true).
  { apply fieldViolation_None in Hv as (Hne' & _). cbn [truthy].
    destruct (String.eqb_spec lot ""); [contradiction | reflexivity]. }
  eexists fields, lot, _, h, o1, _, o2, prc, sr, msgn.
  split; [exact Hin|]. split; [exact Hlot|]. split; [exact Hv|].
  split; [exact Hdate|]. split; [exact Hpass|]. split; [exact Hcalls|].
  split; [exact Hpoll|]. split; [reflexivity|]. split; [reflexivity|].
  split; [|split].
  - erewrite lineRequest_lookup; [reflexivity|].
    cbn [In BANO]. rewrite Hlt. tauto.
  - erewrite lineRequest_lookup; [reflexivity|]. cbn [In RVQA]. tauto.
  - erewrite lineRequest_lookup; [reflexivity|]. cbn [In EXPI].
    do 12 right. left. f_equal. rewrite Hexpi.
    destruct (jsEq (get "EXPD" s1) "1"); [|reflexivity].
    cbn [truthy andb]. unfold nonEmpty.
    destruct (negb (String.eqb (withoutHyphens (snd fields)) "")); reflexivity.
Qed.

Lemma lot_receipt_line_witness :
  let env := Demo.env "5" "3" "10" "" "" "90" Proceed [] [] in
  let s1 := snd ((fetchSteps env ;; warnings env) initial) in
  exists fields lot check h o1 line o2 prc sr msgn,
    ClickSave fields ∈ lotClicks env /\
    lot = trim (fst fields) /\ fieldViolation lot = None /\
    (jsEq (get "EXPD" s1) "1" = true -> snd fields <> "") /\
    passes (get "ITNO" s1) lot check /\
    calls (snd (run env initial)) =
      calls s1 ++
      [(lotRequest (get "ITNO" s1) lot, check);
       (headRequest (get "WHLO" s1), Fulfilled h);
       (packRequest (set "MSGN" (Some msgn) s1) (packNumberOf s1), Fulfilled o1);
       (line, Fulfilled o2);
       (processRequest (Some msgn), Fulfilled prc);
       (statusRequest (Some msgn), Fulfilled sr)] /\
    polledStatus [(statusRequest (Some msgn), Fulfilled sr)] (Some "90") /\
    program line = "MHS850MI" /\ transaction line = "AddWhsLine" /\
    record line !! "BANO" = Some lot /\
    record line !! "RVQA" = get "RVQA" s1 /\
    record line !! "EXPI" =
      (if jsEq (get "EXPD" s1) "1" && nonEmpty (withoutHyphens (snd fields))
       then Some (withoutHyphens (snd fields)) else None).
Proof.
  intros env s1.
  apply (lot_receipt_line env s1); vm_compute; reflexivity.
Defined.

(** X18. A run for an item that is neither serial- nor lot-controlled
    (any INDI other than '2' and '3', or none) that ends with the
    success dialog went through the confirmation dialog, which the
    operator accepted, and has sent, after its look-ups, exactly
    AddWhsHead, AddWhsPack, one AddWhsLine, PrcWhsTran and GetWhsHead,
    all answered, the status being '90'.  The one line has neither
    BANO nor EXPI, and its RVQA is the quantity text of the screen as
    it stands. *)
Theorem plain_receipt_line (env : Env) (s1 : State) :
  (fetchSteps env ;; warnings env) initial = (Ok tt, s1) ->
  jsEq (get "INDI" s1) "2" = false ->
  jsEq (get "INDI" s1) "3" = false ->
  reported (snd (run env initial)) = Some SuccessDialog ->
  onConfirm env = Proceed /\
  shown (snd (run env initial)) = shown s1 ++ [ConfirmDialog; SuccessDialog] /\
  exists h o1 line o2 prc sr msgn,
    calls (snd (run env initial)) =
      calls s1 ++
      [(headRequest (get "WHLO" s1), Fulfilled h);
       (packRequest (set "MSGN" (Some msgn) s1) (packNumberOf s1), Fulfilled o1);
       (line, Fulfilled o2);
       (processRequest (Some msgn), Fulfilled prc);
       (statusRequest (Some msgn), Fulfilled sr)] /\
    polledStatus [(statusRequest (Some msgn), Fulfilled sr)] (Some "90") /\
    program line = "MHS850MI" /\ transaction line = "AddWhsLine" /\
    record line !! "BANO" = None /\
    record line !! "EXPI" = None /\
    record line !! "RVQA" = get "RVQA" s1.
Proof.
  intros Hpre H2 H3 Hrep.
  destruct (run_success env Hrep) as (s1' & s2 & Hpre' & Hbr & Hrun).
  rewrite Hpre in Hpre'. injection Hpre' as <-.
  rewrite Hrun. cbn [snd]. norm.
  unfold branch, bind, gets in Hbr. cbv beta iota in Hbr. rewrite H2, H3 in Hbr.
  destruct (nonLottedBranch_ok env s1 s2 Hbr) as (Hconf & Hproc).
  destruct (single_line_receipt env _ _ _ Hproc)
    as (msgn & h & o1 & o2 & prc & sr & Hne & _ & Hsh & _ & Hpoll & Hcalls).
  cbv zeta in Hcalls.
  split; [exact Hconf|]. split.
  { rewrite Hsh. norm. rewrite <- app_assoc. reflexivity. }
  eexists h, o1, _, o2, prc, sr, msgn.
  split; [exact Hcalls|]. split; [exact Hpoll|].
  split; [reflexivity|]. split; [reflexivity|].
  split; [|split]; erewrite lineRequest_lookup; try reflexivity; cbn [In BANO EXPI RVQA truthy];
    tauto.
Qed.

Lemma plain_receipt_line_witness :
  let env := Demo.env "5 pcs" "0" "10" "" "" "90" Proceed [] [] in
  let s1 := snd ((fetchSteps env ;; warnings env) initial) in
  onConfirm env = Proceed /\
  shown (snd (run env initial)) = shown s1 ++ [ConfirmDialog; SuccessDialog] /\
  exists h o1 line o2 prc sr msgn,
    calls (snd (run env initial)) =
      calls s1 ++
      [(headRequest (get "WHLO" s1), Fulfilled h);
       (packRequest (set "MSGN" (Some msgn) s1) (packNumberOf s1), Fulfilled o1);
       (line, Fulfilled o2);
       (processRequest (Some msgn), Fulfilled prc);
       (statusRequest (Some msgn), Fulfilled sr)] /\
    polledStatus [(statusRequest (Some msgn), Fulfilled sr)] (Some "90") /\
    program line = "MHS850MI" /\ transaction line = "AddWhsLine" /\
    record line !! "BANO" = None /\
    record line !! "EXPI" = None /\
    record line !! "RVQA" = get "RVQA" s1.
Proof.
  intros env s1.
  apply (plain_receipt_line env s1); vm_compute; reflexivity.
Defined.

(** ** What the screen holds reaches the receipt *)

Lemma getPOLine_keeps env s s' k :
  getPOLine env s = (Ok tt, s') ->
  k ∉ ["PUPR"; "RORC"; "RORN"; "RORL"; "ITDS"; "GETY"] ->
  get k s' = get k s.
Proof.
  intros H Hk. unfold getPOLine in H. exec H; injection H as <-.
  other_key Hk. reflexivity.
Qed.

Lemma lookups_keeps env s s' :
  lookups env s = (Ok tt, s') ->
  (forall k, k ∉ ["PUDT"; "CUCD"; "FACI"; "EXPD"; "INDI"; "TPCD"; "RMQA"; "CUNO"] ->
             get k s' = get k s) /\
  (isNonMaterial s' = true \/ truthy (get "WHSL" s') = true).
Proof.
  intros H. unfold lookups in H. exec H; injection H as <-.
  all: split; [intros k Hk; other_key Hk; reflexivity|].
  all: unfold isNonMaterial; norm;
    match goal with
    | Hw : negb ?a && negb ?b = false |- _ =>
        destruct a; [left; reflexivity | right; destruct b; [reflexivity | discriminate]]
    end.
Qed.

Lemma warnings_this env s : this (snd (warnings env s)) = this s.
Proof.
  exact (warnings_respects env (keeps this) none none (keeps_this_tolerates _ _) s).
Qed.

Lemma missing_none env :
  missing env = [] -> Forall (fun kv => truthy (snd kv) = true) (mandatory env).
Proof.
  unfold missing. intros H. apply map_eq_nil in H.
  apply Forall_forall. intros kv Hin.
  destruct (truthy (snd kv)) eqn:E; [reflexivity|]. exfalso.
  assert (Hf : kv ∈ List.filter (fun kv => negb (truthy (snd kv))) (mandatory env)).
  { apply list_elem_of_In, filter_In. split; [apply list_elem_of_In; exact Hin|].
    rewrite E. reflexivity. }
  rewrite H in Hf. inversion Hf.
Qed.

(** The steps before the branch, one by one. *)
Lemma prelude_steps env s1 :
  (fetchSteps env ;; warnings env) initial = (Ok tt, s1) ->
  exists s2 s3,
    missing env = [] /\
    getPOLine env (snd (validateFields env initial)) = (Ok tt, s2) /\
    lookups env s2 = (Ok tt, s3) /\
    warnings env s3 = (Ok tt, s1).
Proof.
  intros H. unfold fetchSteps in H. rewrite !bind_assoc in H.
  unfold bind at 1 in H.
  destruct (validateFields env initial) as [[[]|?|] sv] eqn:Hv; try discriminate.
  pose proof (validateFields_eq env initial) as Hm. rewrite Hv in Hm.
  destruct (missing env) eqn:Hmiss; [|discriminate].
  rewrite ?bind_assoc in H. unfold bind at 1 in H.
  destruct (getPOLine env sv) as [[[]|?|] s2] eqn:Hpo; try discriminate.
  rewrite ?bind_assoc in H. unfold bind at 1 in H.
  destruct (lookups env s2) as [[[]|?|] s3] eqn:Hlk; try discriminate.
  exists s2, s3. auto.
Qed.

(** After the look-ups the fields read from the screen are as they
    were read, the mandatory ones are filled, and a material item has
    a location. *)
Lemma prelude_screen env s1 :
  (fetchSteps env ;; warnings env) initial = (Ok tt, s1) ->
  Forall (fun kv => get (fst kv) s1 = snd kv /\ truthy (snd kv) = true) (mandatory env) /\
  get "WHSL" s1 = fieldValue env "WHSL" /\
  (isNonMaterial s1 = true \/ truthy (fieldValue env "WHSL") = true).
Proof.
  intros H. destruct (prelude_steps env s1 H) as (s2 & s3 & Hmiss & Hpo & Hlk & Hw').
  pose proof (missing_none env Hmiss) as Hall.
  rewrite validateFields_eq in Hpo. cbn [snd] in Hpo.
  match type of Hpo with
  | getPOLine env ?st = _ => set (sv := st) in *
  end.
  destruct (lookups_keeps env s2 s3 Hlk) as (Hk3 & Hw).
  pose proof (warnings_this env s3) as Hthis.
  rewrite Hw' in Hthis. cbn [snd] in Hthis.
  assert (Hg : forall k,
            k ∉ ["PUPR"; "RORC"; "RORN"; "RORL"; "ITDS"; "GETY"] ->
            k ∉ ["PUDT"; "CUCD"; "FACI"; "EXPD"; "INDI"; "TPCD"; "RMQA"; "CUNO"] ->
            get k s1 = get k sv).
  { intros k Ha Hb. transitivity (get k s3); [unfold get; rewrite Hthis; reflexivity|].
    rewrite (Hk3 k Hb). apply (getPOLine_keeps env sv s2 k Hpo Ha). }
  assert (Hnin : forall (k : string) (l : list string),
            forallb (fun x => negb (String.eqb k x)) l = true -> k ∉ l).
  { intros k l. induction l as [|x l IH]; cbn [forallb]; intros Hf Hin.
    - inversion Hin.
    - apply andb_true_iff in Hf as [Hx Hf].
      apply elem_of_cons in Hin as [->|Hin]; [|exact (IH Hf Hin)].
      rewrite String.eqb_refl in Hx. discriminate. }
  split; [|split].
  - unfold mandatory in *.
    repeat (apply Forall_cons in Hall as [?H Hall]).
    repeat apply Forall_cons_2; try (apply Forall_nil_2);
      (split; [|assumption]); cbn [fst snd];
      (rewrite Hg by (apply Hnin; reflexivity)); unfold sv; norm; reflexivity.
  - rewrite Hg by (apply Hnin; reflexivity). unfold sv. norm. reflexivity.
  - destruct Hw as [Hw|Hw].
    + left. unfold isNonMaterial in *. unfold get in *. rewrite Hthis. exact Hw.
    + right. etransitivity; [|exact Hw]. f_equal.
      transitivity (get "WHSL" s1); [|unfold get; rewrite Hthis; reflexivity].
      rewrite Hg by (apply Hnin; reflexivity). unfold sv. norm. reflexivity.
Qed.

(** The calls of a receipt that succeeds, with the requests as they
    were built. *)
Lemma receipt_trace env lines s s' :
  process env lines s = (Ok tt, s') ->
  exists msgn h o1 settled prc sr,
    let st := set "MSGN" (Some msgn) s in
    let pack := packNumberOf s in
    msgn <> "" /\
    this s' = this st /\ shown s' = shown s /\
    createdEquipment s' = createdEquipment s /\
    map fst settled = lines /\
    Forall (fun c => fulfilledCall c = true) (callsOf (lineRequest st pack) settled) /\
    polledStatus [(statusRequest (Some msgn), Fulfilled sr)] (Some "90") /\
    calls s' = calls s ++
      [(headRequest (get "WHLO" s), Fulfilled h); (packRequest st pack, Fulfilled o1)] ++
      callsOf (lineRequest st pack) settled ++
      [(processRequest (Some msgn), Fulfilled prc);
       (statusRequest (Some msgn), Fulfilled sr)].
Proof.
  intros H.
  destruct (process_ok env lines s s' H)
    as (h & hit & msgn & o & settled & prc & sr & sit & Hh & Hm & Hne & Hset & Hful &
        Hprc & Hsr & Hst & ->).
  cbv zeta in Hful.
  set (s1 := set "MSGN" (Some msgn)
               (addCall (headRequest (get "WHLO" s), Fulfilled h) s)) in *.
  apply Forall_cons in Hful as [Ho1 Hful].
  destruct o as [o1|]; [|discriminate].
  exists msgn, h, o1, settled, prc, sr. cbv zeta.
  assert (Hthis : this s1 = this (set "MSGN" (Some msgn) s)) by reflexivity.
  assert (Hl : callsOf (lineRequest s1 (packNumberOf s)) settled =
               callsOf (lineRequest (set "MSGN" (Some msgn) s) (packNumberOf s)) settled).
  { unfold callsOf. apply map_ext. intros [l o].
    rewrite (lineRequest_this _ _ _ _ Hthis). reflexivity. }
  rewrite Hl in *.
  split; [exact Hne|]. split; [reflexivity|]. split; [reflexivity|].
  split; [reflexivity|]. split; [exact Hset|]. split; [exact Hful|]. split.
  - exists (statusRequest (Some msgn)), sr, sit.
    split; [left|]. split; [reflexivity|]. auto.
  - norm. rewrite calls_addCalls. unfold s1 at 1. norm.
    rewrite <- !app_assoc. cbn [app].
    rewrite (packRequest_this _ _ _ Hthis). reflexivity.
Qed.

Lemma receipt_trace_from env lines s s' s0 cs0 :
  process env lines s = (Ok tt, s') ->
  this s = this s0 -> calls s = calls s0 ++ cs0 ->
  exists msgn h o1 settled prc sr,
    let st := set "MSGN" (Some msgn) s0 in
    let pack := packNumberOf s0 in
    msgn <> "" /\
    shown s' = shown s /\
    createdEquipment s' = createdEquipment s /\
    map fst settled = lines /\
    Forall (fun c => fulfilledCall c = true) (callsOf (lineRequest st pack) settled) /\
    polledStatus [(statusRequest (Some msgn), Fulfilled sr)] (Some "90") /\
    calls s' = calls s0 ++ cs0 ++
      [(headRequest (get "WHLO" s0), Fulfilled h); (packRequest st pack, Fulfilled o1)] ++
      callsOf (lineRequest st pack) settled ++
      [(processRequest (Some msgn), Fulfilled prc);
       (statusRequest (Some msgn), Fulfilled sr)].
Proof.
  intros H Ht Hc.
  destruct (receipt_trace env lines s s' H)
    as (msgn & h & o1 & settled & prc & sr & Hne & _ & Hsh & Hcr & Hset & Hful & Hpoll & Hcs).
  cbv zeta in Hful, Hcs.
  assert (Hst : this (set "MSGN" (Some msgn) s) = this (set "MSGN" (Some msgn) s0)).
  { unfold set. cbn [this]. rewrite Ht. reflexivity. }
  assert (Hpk : packNumberOf s = packNumberOf s0).
  { unfold packNumberOf, get. rewrite Ht. reflexivity. }
  assert (Hw : get "WHLO" s = get "WHLO" s0) by (unfold get; rewrite Ht; reflexivity).
  assert (Hl : callsOf (lineRequest (set "MSGN" (Some msgn) s) (packNumberOf s0)) settled =
               callsOf (lineRequest (set "MSGN" (Some msgn) s0) (packNumberOf s0)) settled).
  { unfold callsOf. apply map_ext. intros [l o].
    rewrite (lineRequest_this _ _ _ _ Hst). reflexivity. }
  rewrite Hpk, Hw, Hl, (packRequest_this _ _ _ Hst) in *.
  exists msgn, h, o1, settled, prc, sr. cbv zeta.
  repeat (split; [assumption|]).
  rewrite Hcs, Hc, <- !app_assoc. reflexivity.
Qed.

(** A run that ends with the success dialog, call by call. *)
Lemma success_trace env s1 :
  (fetchSteps env ;; warnings env) initial = (Ok tt, s1) ->
  reported (snd (run env initial)) = Some SuccessDialog ->
  exists pre lines settled msgn h o1 prc sr,
    let st := set "MSGN" (Some msgn) s1 in
    let pack := packNumberOf s1 in
    msgn <> "" /\
    calls (snd (run env initial)) =
      calls s1 ++ pre ++
      [(headRequest (get "WHLO" s1), Fulfilled h); (packRequest st pack, Fulfilled o1)] ++
      callsOf (lineRequest st pack) settled ++
      [(processRequest (Some msgn), Fulfilled prc);
       (statusRequest (Some msgn), Fulfilled sr)] /\
    map fst settled = lines /\
    Forall (fun c => fulfilledCall c = true) (callsOf (lineRequest st pack) settled) /\
    polledStatus [(statusRequest (Some msgn), Fulfilled sr)] (Some "90") /\
    if jsEq (get "INDI" s1) "2" then
      exists entries serials checked added,
        In (ClickSave entries) (serialClicks env) /\
        saveSerials (num (get "RVQA" s1)) entries = Resolved serials /\
        map fst checked = serials /\ map fst added = serials /\
        Forall (fun x => returnsRecord (snd x) = true) added /\
        pre = callsOf (lotRequest (get "ITNO" s1)) checked ++
              callsOf (addRequest env s1) added /\
        lines = map serialLine serials /\
        createdEquipment (snd (run env initial)) = Some []
    else if jsEq (get "INDI" s1) "3" then
      exists lot expi check,
        pre = [(lotRequest (get "ITNO" s1) lot, check)] /\
        lines = [{| BANO := Some lot; RVQA := get "RVQA" s1; EXPI := expi |}] /\
        createdEquipment (snd (run env initial)) = None
    else
      pre = [] /\
      lines = [{| BANO := None; RVQA := get "RVQA" s1; EXPI := None |}] /\
      createdEquipment (snd (run env initial)) = None.
Proof.
  intros Hpre Hrep.
  destruct (run_success env Hrep) as (s1' & s2 & Hpre' & Hbr & Hrun).
  rewrite Hpre in Hpre'. injection Hpre' as <-.
  destruct (prelude_reads env s1 _ Hpre) as (_ & _ & Hnone).
  rewrite Hrun. cbn [snd]. norm.
  change (createdEquipment (addShown SuccessDialog s2)) with (createdEquipment s2).
  unfold branch, bind, gets in Hbr. cbv beta iota in Hbr.
  destruct (jsEq (get "INDI" s1) "2") eqn:H2; [|destruct (jsEq (get "INDI" s1) "3") eqn:H3].
  - destruct (serialBranch_ok env s1 s2 Hbr)
      as (serials & sp & checked & added & s4 & s5 & Hprompt & Hck & Had & _ & Hrec &
          Ht & _ & Hc & Hproc & ->).
    destruct (promptSerials_ok env s1 serials sp Hprompt) as (entries & Hin & Hsave).
    destruct (receipt_trace_from env _ s4 s5 s1 _ Hproc Ht Hc)
      as (msgn & h & o1 & settled & prc & sr & Hne & _ & _ & Hset & Hful & Hpoll & Hcs).
    exists (callsOf (lotRequest (get "ITNO" s1)) checked ++ callsOf (addRequest env s1) added),
      (map serialLine serials), settled, msgn, h, o1, prc, sr. cbv zeta.
    split; [exact Hne|]. split; [exact Hcs|]. split; [exact Hset|]. split; [exact Hful|].
    split; [exact Hpoll|].
    exists entries, serials, checked, added. repeat (split; [assumption || reflexivity|]).
    reflexivity.
  - destruct (lotBranch_ok env s1 s2 Hbr)
      as (fields & lot & expi & sp & _ & _ & Ht & Hc & Hcr & _ & Hproc).
    assert (Hc' : calls (addCall (lotRequest (get "ITNO" s1) lot,
                                  mi env (calls s1) (lotRequest (get "ITNO" s1) lot)) sp) =
                  calls s1 ++ [(lotRequest (get "ITNO" s1) lot,
                                mi env (calls s1) (lotRequest (get "ITNO" s1) lot))])
      by (rewrite calls_addCall, Hc; reflexivity).
    destruct (receipt_trace_from env _ _ s2 s1 _ Hproc Ht Hc')
      as (msgn & h & o1 & settled & prc & sr & Hne & _ & Hcr2 & Hset & Hful & Hpoll & Hcs).
    eexists _, _, settled, msgn, h, o1, prc, sr. cbv zeta.
    split; [exact Hne|]. split; [exact Hcs|]. split; [exact Hset|]. split; [exact Hful|].
    split; [exact Hpoll|].
    eexists lot, expi, _. split; [reflexivity|]. split; [reflexivity|].
    rewrite Hcr2. cbn [createdEquipment addCall]. rewrite Hcr. exact Hnone.
  - destruct (nonLottedBranch_ok env s1 s2 Hbr) as (_ & Hproc).
    destruct (receipt_trace_from env _ _ s2 s1 [] Hproc eq_refl)
      as (msgn & h & o1 & settled & prc & sr & Hne & _ & Hcr2 & Hset & Hful & Hpoll & Hcs).
    { norm. rewrite app_nil_r. reflexivity. }
    eexists [], _, settled, msgn, h, o1, prc, sr. cbv zeta.
    split; [exact Hne|]. split; [exact Hcs|]. split; [exact Hset|]. split; [exact Hful|].
    split; [exact Hpoll|]. split; [reflexivity|]. split; [reflexivity|].
    rewrite Hcr2. exact Hnone.
Qed.

Lemma not_line_of (T : list string) (cs : list (MIRequest * MIOutcome)) c :
  oneOf T "AddWhsLine" = false ->
  Forall (fun c => oneOf T (transaction (fst c)) = true) cs ->
  c ∈ cs -> isLine c = true -> False.
Proof.
  intros HT HF Hin Hl. rewrite Forall_forall in HF. specialize (HF c Hin).
  unfold isLine in Hl. rewrite (isTransaction_other T _ _ c HT HF) in Hl. discriminate.
Qed.

Lemma elem_of_callsOf {A} (rq : A -> MIRequest) (settled : list (A * MIOutcome)) c :
  c ∈ callsOf rq settled -> exists a o, (a, o) ∈ settled /\ c = (rq a, o).
Proof.
  unfold callsOf. intros H. apply list_elem_of_In, in_map_iff in H as ([a o] & <- & Hin).
  exists a, o. split; [apply list_elem_of_In; exact Hin | reflexivity].
Qed.

(** The lines of a run that ends with the success dialog. *)
Lemma success_line env s1 c :
  (fetchSteps env ;; warnings env) initial = (Ok tt, s1) ->
  reported (snd (run env initial)) = Some SuccessDialog ->
  c ∈ calls (snd (run env initial)) ->
  isLine c = true ->
  exists msgn line,
    msgn <> "" /\
    fst c = lineRequest (set "MSGN" (Some msgn) s1) (packNumberOf s1) line /\
    RVQA line = (if jsEq (get "INDI" s1) "2" then Some "1" else get "RVQA" s1).
Proof.
  intros Hpre Hrep Hin Hl.
  destruct (success_trace env s1 Hpre Hrep)
    as (pre & lines & settled & msgn & h & o1 & prc & sr & Hne & Hcs & Hset & _ & Hpoll & Hbr).
  cbv zeta in Hcs. rewrite Hcs in Hin.
  assert (Hpre_nl : c ∈ pre -> False).
  { intros Hp.
    destruct (jsEq (get "INDI" s1) "2"); [|destruct (jsEq (get "INDI" s1) "3")].
    - destruct Hbr as (entries & serials & checked & added & _ & _ & _ & _ & _ & -> & _).
      apply elem_of_app in Hp as [Hp|Hp];
        apply elem_of_callsOf in Hp as (a & o & _ & ->); discriminate Hl.
    - destruct Hbr as (lot & expi & check & -> & _).
      apply list_elem_of_singleton in Hp. subst c. discriminate Hl.
    - destruct Hbr as (-> & _). inversion Hp. }
  apply elem_of_app in Hin as [Hin|Hin].
  { exfalso. eapply (not_line_of fetchTransactions); [reflexivity | | exact Hin | exact Hl].
    exact (prelude_calls env s1 _ Hpre). }
  apply elem_of_app in Hin as [Hin|Hin]; [contradiction (Hpre_nl Hin)|].
  apply elem_of_app in Hin as [Hin|Hin].
  { apply elem_of_cons in Hin as [->|Hin]; [discriminate Hl|].
    apply list_elem_of_singleton in Hin. subst c. discriminate Hl. }
  apply elem_of_app in Hin as [Hin|Hin].
  2:{ apply elem_of_cons in Hin as [->|Hin]; [discriminate Hl|].
      apply list_elem_of_singleton in Hin. subst c. discriminate Hl. }
  apply elem_of_callsOf in Hin as (line & o & Hin & ->).
  exists msgn, line.
  split; [exact Hne|]. split; [reflexivity|].
  assert (Hline : line ∈ lines).
  { rewrite <- Hset. apply list_elem_of_In, in_map_iff. exists (line, o).
    split; [reflexivity | apply list_elem_of_In; exact Hin]. }
  destruct (jsEq (get "INDI" s1) "2"); [|destruct (jsEq (get "INDI" s1) "3")].
  - destruct Hbr as (entries & serials & checked & added & _ & _ & _ & _ & _ & _ & -> & _).
    apply list_elem_of_In, in_map_iff in Hline as (x & <- & _). reflexivity.
  - destruct Hbr as (lot & expi & check & _ & -> & _).
    apply list_elem_of_singleton in Hline. subst line. reflexivity.
  - destruct Hbr as (_ & -> & _).
    apply list_elem_of_singleton in Hline. subst line. reflexivity.
Qed.

(** X19. In a run that ends with the success dialog every AddWhsLine
    call is built from what the screen held when the script started:
    order number, line and subline (RIDN, RIDL, RIDX), item, warehouse
    and OEND are the panel fields, none of them empty; the pack number
    is [<order>_<line>]; the location is the panel field, which is
    not empty, except for a non-material item (INDI '0' with TPCD
    '13'), whose lines have no location whatever the panel holds.  The
    quantity of a line is '1' in the serial branch and otherwise the
    text of the quantity control as it stands, not the number read from
    it.  Every line carries a message number that is not empty. *)
Theorem receipt_lines_carry_the_screen (env : Env) (s1 : State)
    (c : MIRequest * MIOutcome) :
  (fetchSteps env ;; warnings env) initial = (Ok tt, s1) ->
  reported (snd (run env initial)) = Some SuccessDialog ->
  c ∈ calls (snd (run env initial)) ->
  isLine c = true ->
  let r := record (fst c) in
  (r !! "RIDN" = fieldValue env "WWPUNO" /\
   r !! "RIDL" = fieldValue env "PNLI" /\
   r !! "RIDX" = fieldValue env "PNLS" /\
   r !! "ITNO" = fieldValue env "ITNO" /\
   r !! "WHLO" = fieldValue env "WWWHLO" /\
   r !! "OEND" = fieldValue env "OEND") /\
  Forall (fun k => truthy (r !! k) = true)
    ["RIDN"; "RIDL"; "RIDX"; "ITNO"; "WHLO"; "OEND"; "RVQA"; "MSGN"] /\
  r !! "PACN" =
    Some (str (fieldValue env "WWPUNO") +:+ "_" +:+ str (fieldValue env "PNLI")) /\
  r !! "QLFR" = Some "20" /\
  r !! "WHSL" = (if isNonMaterial s1 then None else fieldValue env "WHSL") /\
  (isNonMaterial s1 = false -> truthy (r !! "WHSL") = true) /\
  r !! "RVQA" = (if jsEq (get "INDI" s1) "2" then Some "1" else ctrlValue env "RVQA").
Proof.
  intros Hpre Hrep Hin Hl r.
  destruct (success_line env s1 c Hpre Hrep Hin Hl) as (msgn & line & Hne & Hc & Hrv).
  destruct (prelude_screen env s1 Hpre) as (Hm & Hwhsl & Hmat).
  unfold mandatory in Hm.
  repeat (apply Forall_cons in Hm as [[?H ?H] Hm]). cbn [fst snd] in *.
  subst r. rewrite Hc.
  set (st := set "MSGN" (Some msgn) s1).
  assert (Hg : forall k, k <> "MSGN" -> get k st = get k s1)
    by (intros k Hk; apply get_set_ne; congruence).
  assert (Hnm : isNonMaterial st = isNonMaterial s1).
  { unfold isNonMaterial. rewrite !Hg by discriminate. reflexivity. }
  assert (Hmsgn : get "MSGN" st = Some msgn) by apply get_set_eq.
  assert (Htm : truthy (Some msgn) = true).
  { cbn [truthy]. destruct (String.eqb_spec msgn ""); [contradiction | reflexivity]. }
  assert (G : get "PUNO" st = fieldValue env "WWPUNO" /\
              get "PNLI" st = fieldValue env "PNLI" /\
              get "PNLS" st = fieldValue env "PNLS" /\
              get "ITNO" st = fieldValue env "ITNO" /\
              get "WHLO" st = fieldValue env "WWWHLO" /\
              get "OEND" st = fieldValue env "OEND" /\
              get "WHSL" st = fieldValue env "WHSL")
    by (repeat split; (rewrite Hg by discriminate); assumption).
  destruct G as (G1 & G2 & G3 & G4 & G5 & G6 & G7).
  assert (E1 : record (lineRequest st (packNumberOf s1) line) !! "RIDN" =
               fieldValue env "WWPUNO")
    by (apply lineRequest_lookup; cbn [In]; rewrite G1; tauto).
  assert (E2 : record (lineRequest st (packNumberOf s1) line) !! "RIDL" =
               fieldValue env "PNLI")
    by (apply lineRequest_lookup; cbn [In]; rewrite G2; tauto).
  assert (E3 : record (lineRequest st (packNumberOf s1) line) !! "RIDX" =
               fieldValue env "PNLS")
    by (apply lineRequest_lookup; cbn [In]; rewrite G3; tauto).
  assert (E4 : record (lineRequest st (packNumberOf s1) line) !! "ITNO" =
               fieldValue env "ITNO")
    by (apply lineRequest_lookup; cbn [In]; rewrite G4; tauto).
  assert (E5 : record (lineRequest st (packNumberOf s1) line) !! "WHLO" =
               fieldValue env "WWWHLO")
    by (apply lineRequest_lookup; cbn [In]; rewrite G5; tauto).
  assert (E6 : record (lineRequest st (packNumberOf s1) line) !! "OEND" =
               fieldValue env "OEND")
    by (apply lineRequest_lookup; cbn [In]; rewrite G6; tauto).
  assert (E7 : record (lineRequest st (packNumberOf s1) line) !! "MSGN" = Some msgn)
    by (apply lineRequest_lookup; cbn [In]; rewrite Hmsgn; tauto).
  assert (E8 : record (lineRequest st (packNumberOf s1) line) !! "RVQA" =
               (if jsEq (get "INDI" s1) "2" then Some "1" else ctrlValue env "RVQA")).
  { apply lineRequest_lookup; cbn [In]. rewrite Hrv.
    destruct (jsEq (get "INDI" s1) "2"); [tauto|].
    match goal with Hq : get "RVQA" s1 = _ |- _ => rewrite Hq end. tauto. }
  assert (E9 : record (lineRequest st (packNumberOf s1) line) !! "WHSL" =
               (if isNonMaterial s1 then None else fieldValue env "WHSL"))
    by (apply lineRequest_lookup; cbn [In]; rewrite Hnm, G7; tauto).
  split; [repeat split; assumption|]. split.
  { repeat apply Forall_cons_2; try (apply Forall_nil_2);
      rewrite ?E1, ?E2, ?E3, ?E4, ?E5, ?E6, ?E7, ?E8; try assumption.
    destruct (jsEq (get "INDI" s1) "2"); [reflexivity | assumption]. }
  split.
  { apply lineRequest_lookup; cbn [In]. do 2 right. left. unfold packNumberOf.
    do 2 f_equal; congruence. }
  split; [apply lineRequest_lookup; cbn [In]; tauto|].
  split; [exact E9|]. split; [|exact E8].
  intros Hf. rewrite E9, Hf.
  destruct Hmat as [Hmat|Hmat]; [congruence | exact Hmat].
Qed.

Lemma receipt_lines_carry_the_screen_witness :
  let env := Demo.env "5 pcs" "0" "10" "" "" "90" Proceed [] [] in
  let s1 := snd ((fetchSteps env ;; warnings env) initial) in
  exists c, nth_error (calls (snd (run env initial))) 7 = Some c /\
    let r := record (fst c) in
    (r !! "RIDN" = fieldValue env "WWPUNO" /\
     r !! "RIDL" = fieldValue env "PNLI" /\
     r !! "RIDX" = fieldValue env "PNLS" /\
     r !! "ITNO" = fieldValue env "ITNO" /\
     r !! "WHLO" = fieldValue env "WWWHLO" /\
     r !! "OEND" = fieldValue env "OEND") /\
    Forall (fun k => truthy (r !! k) = true)
      ["RIDN"; "RIDL"; "RIDX"; "ITNO"; "WHLO"; "OEND"; "RVQA"; "MSGN"] /\
    r !! "PACN" =
      Some (str (fieldValue env "WWPUNO") +:+ "_" +:+ str (fieldValue env "PNLI")) /\
    r !! "QLFR" = Some "20" /\
    r !! "WHSL" = (if isNonMaterial s1 then None else fieldValue env "WHSL") /\
    (isNonMaterial s1 = false -> truthy (r !! "WHSL") = true) /\
    r !! "RVQA" = (if jsEq (get "INDI" s1) "2" then Some "1" else ctrlValue env "RVQA").
Proof.
  intros env s1.
  destruct (nth_error (calls (snd (run env initial))) 7) as [c|] eqn:E;
    [|vm_compute in E; discriminate E].
  exists c. split; [reflexivity|].
  apply (receipt_lines_carry_the_screen env s1 c).
  - vm_compute; reflexivity.
  - vm_compute; reflexivity.
  - apply list_elem_of_In. eapply nth_error_In. exact E.
  - vm_compute in E. injection E as <-. vm_compute. reflexivity.
Defined.

(** ** The shape of a successful run *)

Lemma endpoint_callsOf {A} (rq : A -> MIRequest) (settled : list (A * MIOutcome)) p t :
  (forall a, program (rq a) = p /\ transaction (rq a) = t) ->
  map endpoint (callsOf rq settled) = replicate (List.length settled) (p, t).
Proof.
  intros H. induction settled as [|[a o] settled IH]; [reflexivity|].
  cbn [callsOf map List.length replicate]. unfold callsOf in IH. rewrite IH.
  unfold endpoint at 1. cbn [fst]. destruct (H a) as [-> ->]. reflexivity.
Qed.

Lemma saveSerials_count (qty : Q) (entries serials : list string) :
  saveSerials qty entries = Resolved serials ->
  (qty == inject_Z (Z.of_nat (List.length serials)))%Q.
Proof.
  intros H. destruct (violations_valid_batch _ _ _ H) as (_ & _ & Hnd).
  pose proof (saveSerials_size _ _ _ H) as Hsize.
  apply setSize_NoDup in Hnd. rewrite Hnd in Hsize. symmetry. exact Hsize.
Qed.

Lemma returnsRecord_fulfilled {A} (rq : A -> MIRequest) (settled : list (A * MIOutcome)) :
  Forall (fun x => returnsRecord (snd x) = true) settled ->
  Forall (fun c => fulfilledCall c = true) (callsOf rq settled).
Proof.
  intros H. unfold callsOf. apply Forall_map. eapply Forall_impl; [exact H|].
  intros [a [r|e]]; cbn; [reflexivity | discriminate].
Qed.

(** X20. The calls of a run that ends with the success dialog are,
    after the look-ups and in this order: for a serial-controlled item
    one GetItmLot per serial and then one Add per serial, for a
    lot-controlled item one GetItmLot; then one AddWhsHead, one
    AddWhsPack, the AddWhsLine calls (one per serial, else one), one
    PrcWhsTran and one GetWhsHead, which brought status '90'.  The
    number of serials is the quantity of the screen.  No write of the
    whole run was rejected, and the list of tracked equipment is empty
    in the serial branch and was never set otherwise. *)
Theorem successful_run_trace (env : Env) (s1 : State) :
  (fetchSteps env ;; warnings env) initial = (Ok tt, s1) ->
  reported (snd (run env initial)) = Some SuccessDialog ->
  let final := snd (run env initial) in
  let serial := jsEq (get "INDI" s1) "2" in
  let lot := jsEq (get "INDI" s1) "3" in
  exists (n : nat) pre cs,
    calls final = calls s1 ++ pre ++ cs /\
    map endpoint pre =
      (if serial
       then replicate n ("MMS235MI", "GetItmLot") ++ replicate n ("MMS240MI", "Add")
       else if lot then [("MMS235MI", "GetItmLot")] else []) /\
    map endpoint cs =
      [("MHS850MI", "AddWhsHead"); ("MHS850MI", "AddWhsPack")] ++
      replicate n ("MHS850MI", "AddWhsLine") ++
      [("MHS850MI", "PrcWhsTran"); ("MHS850MI", "GetWhsHead")] /\
    (if serial then (num (get "RVQA" s1) == inject_Z (Z.of_nat n))%Q else n = 1%nat) /\
    polledStatus cs (Some "90") /\
    Forall (fun c => isWrite c = true -> fulfilledCall c = true) (calls final) /\
    createdEquipment final = (if serial then Some [] else None).
Proof.
  intros Hpre Hrep final serial lot. subst final serial lot.
  destruct (success_trace env s1 Hpre Hrep)
    as (pre & lines & settled & msgn & h & o1 & prc & sr & Hne & Hcs & Hset & Hful &
        Hpoll & Hbr).
  cbv zeta in Hcs, Hful.
  destruct (prelude_reads env s1 _ Hpre) as (Hreads & _ & _).
  exists (List.length settled), pre. eexists. split; [exact Hcs|].
  assert (Hlen : List.length settled = List.length lines)
    by (rewrite <- Hset, length_map; reflexivity).
  assert (Hcs_ok : Forall (fun c => fulfilledCall c = true)
            ([(headRequest (get "WHLO" s1), Fulfilled h);
              (packRequest (set "MSGN" (Some msgn) s1) (packNumberOf s1), Fulfilled o1)] ++
             callsOf (lineRequest (set "MSGN" (Some msgn) s1) (packNumberOf s1)) settled ++
             [(processRequest (Some msgn), Fulfilled prc);
              (statusRequest (Some msgn), Fulfilled sr)])).
  { apply Forall_app. split; [repeat constructor|].
    apply Forall_app. split; [exact Hful | repeat constructor]. }
  assert (Hend : map endpoint
            ([(headRequest (get "WHLO" s1), Fulfilled h);
              (packRequest (set "MSGN" (Some msgn) s1) (packNumberOf s1), Fulfilled o1)] ++
             callsOf (lineRequest (set "MSGN" (Some msgn) s1) (packNumberOf s1)) settled ++
             [(processRequest (Some msgn), Fulfilled prc);
              (statusRequest (Some msgn), Fulfilled sr)]) =
            [("MHS850MI", "AddWhsHead"); ("MHS850MI", "AddWhsPack")] ++
            replicate (List.length settled) ("MHS850MI", "AddWhsLine") ++
            [("MHS850MI", "PrcWhsTran"); ("MHS850MI", "GetWhsHead")]).
  { rewrite !map_app, endpoint_lines. reflexivity. }
  assert (Hp : polledStatus
            ([(headRequest (get "WHLO" s1), Fulfilled h);
              (packRequest (set "MSGN" (Some msgn) s1) (packNumberOf s1), Fulfilled o1)] ++
             callsOf (lineRequest (set "MSGN" (Some msgn) s1) (packNumberOf s1)) settled ++
             [(processRequest (Some msgn), Fulfilled prc);
              (statusRequest (Some msgn), Fulfilled sr)]) (Some "90")).
  { destruct Hpoll as (rq & r & it & Hin & Hrest). exists rq, r, it.
    split; [|exact Hrest]. apply list_elem_of_singleton in Hin. rewrite Hin.
    apply elem_of_app. right. apply elem_of_app. right. right. left. }
  assert (Hwr : Forall (fun c => isWrite c = true -> fulfilledCall c = true) pre ->
                Forall (fun c => isWrite c = true -> fulfilledCall c = true)
                  (calls (snd (run env initial)))).
  { intros Hpw. rewrite Hcs. apply Forall_app. split.
    - eapply Forall_impl; [exact Hreads|]. intros c Hc Hw. congruence.
    - apply Forall_app. split; [exact Hpw|].
      eapply Forall_impl; [exact Hcs_ok|]. auto. }
  destruct (jsEq (get "INDI" s1) "2"); [|destruct (jsEq (get "INDI" s1) "3")].
  - destruct Hbr as (entries & serials & checked & added & _ & Hsave & Hck & Had & Hrec &
                     -> & -> & Hcr).
    rewrite length_map in Hlen.
    assert (Hn1 : List.length checked = List.length settled)
      by (rewrite Hlen, <- Hck, length_map; reflexivity).
    assert (Hn2 : List.length added = List.length settled)
      by (rewrite Hlen, <- Had, length_map; reflexivity).
    split.
    { rewrite map_app,
        (endpoint_callsOf (lotRequest (get "ITNO" s1)) checked "MMS235MI" "GetItmLot"),
        (endpoint_callsOf (addRequest env s1) added "MMS240MI" "Add"), Hn1, Hn2
        by (intros; split; reflexivity).
      reflexivity. }
    split; [exact Hend|]. split.
    { rewrite Hlen. apply (saveSerials_count _ entries). exact Hsave. }
    split; [exact Hp|]. split; [|exact Hcr].
    apply Hwr. apply Forall_app. split.
    + apply callsOf_Forall. intros a o Hw. discriminate Hw.
    + eapply Forall_impl; [apply returnsRecord_fulfilled; exact Hrec|]. auto.
  - destruct Hbr as (lt & expi & check & -> & -> & Hcr).
    split; [reflexivity|]. split; [exact Hend|]. split; [exact Hlen|].
    split; [exact Hp|]. split; [|exact Hcr].
    apply Hwr. constructor; [|constructor]. intros Hw. discriminate Hw.
  - destruct Hbr as (-> & -> & Hcr).
    split; [reflexivity|]. split; [exact Hend|]. split; [exact Hlen|].
    split; [exact Hp|]. split; [|exact Hcr].
    apply Hwr. constructor.
Qed.

Lemma successful_run_trace_witness :
  let env := Demo.env "3" "2" "10" "" "" "90" Proceed
               [ClickSave ["A"; "B"; "A"]; ClickSave ["A"; " B "; "C"]] [1; 0] in
  let s1 := snd ((fetchSteps env ;; warnings env) initial) in
  let final := snd (run env initial) in
  let serial := jsEq (get "INDI" s1) "2" in
  let lot := jsEq (get "INDI" s1) "3" in
  exists (n : nat) pre cs,
    calls final = calls s1 ++ pre ++ cs /\
    map endpoint pre =
      (if serial
       then replicate n ("MMS235MI", "GetItmLot") ++ replicate n ("MMS240MI", "Add")
       else if lot then [("MMS235MI", "GetItmLot")] else []) /\
    map endpoint cs =
      [("MHS850MI", "AddWhsHead"); ("MHS850MI", "AddWhsPack")] ++
      replicate n ("MHS850MI", "AddWhsLine") ++
      [("MHS850MI", "PrcWhsTran"); ("MHS850MI", "GetWhsHead")] /\
    (if serial then (num (get "RVQA" s1) == inject_Z (Z.of_nat n))%Q else n = 1%nat) /\
    polledStatus cs (Some "90") /\
    Forall (fun c => isWrite c = true -> fulfilledCall c = true) (calls final) /\
    createdEquipment final = (if serial then Some [] else None).
Proof.
  intros env s1.
  apply (successful_run_trace env s1); vm_compute; reflexivity.
Defined.

(** ** A receipt is executed only when it is complete *)

Lemma forEach_lineAdded_result (l : list (Line * MIOutcome)) (s : State) :
  (fst (forEachM (fun '(a, o) => lineAdded a o) l s) = Ok tt /\
   Forall (fun x => exists r, snd x = Fulfilled r) l) \/
  (exists a e, (a, Rejected e) ∈ l /\
     fst (forEachM (fun '(a, o) => lineAdded a o) l s) = Throw (RemoteError e)).
Proof.
  induction l as [|[a o] l IH]; cbn [forEachM].
  - left. split; [reflexivity | constructor].
  - unfold bind. destruct o as [r|e]; unfold lineAdded, ret, throw; cbv beta iota.
    + destruct IH as [[H1 H2]|(a' & e & Hin & H)].
      * left. split; [exact H1|]. constructor; [eexists; reflexivity | exact H2].
      * right. exists a', e. split; [right; exact Hin | exact H].
    + right. exists a, e. split; [left | reflexivity].
Qed.

(** The pack and its lines, however they end. *)
Lemma addWhsPackAndLines_spec env lines s :
  let pack := packNumberOf s in
  let po := mi env (calls s) (packRequest s pack) in
  match po with
  | Rejected e =>
      addWhsPackAndLines env lines s =
        (Throw (RemoteError e), addCall (packRequest s pack, po) s)
  | Fulfilled _ =>
      exists settled,
        map fst settled = lines /\
        snd (addWhsPackAndLines env lines s) =
          addCalls ((packRequest s pack, po) :: callsOf (lineRequest s pack) settled) s /\
        ((fst (addWhsPackAndLines env lines s) = Ok pack /\
          Forall (fun x => exists r, snd x = Fulfilled r) settled) \/
         (exists a e, (a, Rejected e) ∈ settled /\
            fst (addWhsPackAndLines env lines s) = Throw (RemoteError e)))
  end.
Proof.
  intros pack po. subst po.
  unfold addWhsPackAndLines, bind, gets, await, bind, executeRequest, id.
  fold pack.
  destruct (mi env (calls s) (packRequest s pack)) as [r|e] eqn:Eo; simpl;
    [|reflexivity].
  unfold promiseAll.
  pose proof (issueAll_spec env (fun st rec => lineRequest st pack rec) lines
                (addCall (packRequest s pack, Fulfilled r) s)) as Hi.
  destruct Hi as [H1 H2]; [intros ? ? ?; reflexivity|].
  destruct (issueAll env _ lines _) as [settled s1]. cbn [fst snd] in H1, H2.
  pose proof (forEach_lineAdded (arrival (picksLines env) settled) s1) as Hs.
  pose proof (forEach_lineAdded_result (arrival (picksLines env) settled) s1) as Hr.
  exists settled. split; [exact H1|].
  destruct (forEachM _ (arrival (picksLines env) settled) s1) as [[[]|?|] s2];
    simpl in *; subst s2.
  - split; [rewrite addCalls_cons; exact H2|]. left. split; [reflexivity|].
    destruct Hr as [[_ Hr]|(a & e & _ & Hr)]; [|discriminate].
    eapply Permutation_Forall; [|exact Hr]. apply arrival_perm.
  - split; [rewrite addCalls_cons; exact H2|]. right.
    destruct Hr as [[Hr _]|(a & e' & Hin & Hr)]; [discriminate|].
    exists a, e'. split; [|injection Hr as ->; reflexivity].
    rewrite <- (arrival_perm (picksLines env) settled). exact Hin.
  - destruct Hr as [[Hr _]|(a & e' & Hin & Hr)]; discriminate.
Qed.

Lemma finalStatus_calls env pack s :
  exists rest,
    calls (snd (finalStatusValidation env pack s)) = calls s ++ rest /\
    Forall (fun c => oneOf ["GetWhsHead"; "Del"] (transaction (fst c)) = true) rest.
Proof.
  destruct (finalStatus_spec env pack s) as (deleted & _ & ->). cbv zeta.
  destruct (mi env (calls s) (statusRequest (get "MSGN" s))) as [r|e].
  2:{ eexists. split; [apply calls_addCall | repeat constructor]. }
  destruct (itemOf r) as [sit|].
  2:{ eexists. split; [apply calls_addCall | repeat constructor]. }
  destruct (jsEq (sit !! "STAT") "90").
  { eexists. split; [apply calls_addCall | repeat constructor]. }
  destruct (tracked s).
  { eexists. split; [apply calls_addCall | repeat constructor]. }
  eexists. split; [reflexivity|]. constructor; [reflexivity|].
  apply callsOf_Forall. intros. reflexivity.
Qed.

Lemma isTransaction_endpoint p t c : isTransaction p t c = true <-> endpoint c = (p, t).
Proof.
  unfold isTransaction, endpoint. rewrite andb_true_iff, !String.eqb_eq. split.
  - intros [-> ->]. reflexivity.
  - intros [= -> ->]. auto.
Qed.

(** How far a receipt gets. *)
Lemma process_cases env lines s :
  let r := fst (process env lines s) in
  let s' := snd (process env lines s) in
  exists hc,
    endpoint hc = ("MHS850MI", "AddWhsHead") /\
    ((calls s' = calls s ++ [hc] /\
      match snd hc with
      | Rejected e => r = Throw (RemoteError e)
      | Fulfilled h => r = Throw (NoRecord "Warehouse transaction header creation" h)
      end) \/
     (fulfilledCall hc = true /\
      exists pc,
        endpoint pc = ("MHS850MI", "AddWhsPack") /\
        ((exists e, snd pc = Rejected e /\ calls s' = calls s ++ [hc; pc] /\
                    r = Throw (RemoteError e)) \/
         (fulfilledCall pc = true /\
          exists lc,
            map endpoint lc = replicate (List.length lines) ("MHS850MI", "AddWhsLine") /\
            ((exists c e, c ∈ lc /\ snd c = Rejected e /\
                          calls s' = calls s ++ [hc; pc] ++ lc /\
                          r = Throw (RemoteError e)) \/
             (Forall (fun c => fulfilledCall c = true) lc /\
              exists xc rest,
                endpoint xc = ("MHS850MI", "PrcWhsTran") /\
                calls s' = calls s ++ [hc; pc] ++ lc ++ xc :: rest /\
                Forall (fun c => oneOf ["GetWhsHead"; "Del"] (transaction (fst c)) = true)
                  rest)))))).
Proof.
  intros r s'. subst r s'.
  destruct (process env lines s) as [r s'] eqn:H. cbn [fst snd].
  unfold process in H. unfold bind at 1 in H. rewrite addWhsHead_eq in H. cbv zeta in H.
  exists (headRequest (get "WHLO" s), mi env (calls s) (headRequest (get "WHLO" s))).
  split; [reflexivity|]. cbn [snd].
  destruct (mi env (calls s) (headRequest (get "WHLO" s))) as [h|e];
    [|left; injection H as <- <-; split; reflexivity].
  destruct (itemOf h) as [hit|]; [|left; injection H as <- <-; split; reflexivity].
  destruct (truthy (hit !! "MSGN")); [|left; injection H as <- <-; split; reflexivity].
  right. split; [reflexivity|].
  set (s1 := set "MSGN" (hit !! "MSGN")
               (addCall (headRequest (get "WHLO" s), Fulfilled h) s)) in *.
  assert (Hc1 : calls s1 = calls s ++ [(headRequest (get "WHLO" s), Fulfilled h)])
    by reflexivity.
  exists (packRequest s1 (packNumberOf s1), mi env (calls s1) (packRequest s1 (packNumberOf s1))).
  split; [reflexivity|]. cbn [snd].
  pose proof (addWhsPackAndLines_spec env lines s1) as Hpl. cbv zeta in Hpl.
  unfold bind at 1 in H.
  destruct (mi env (calls s1) (packRequest s1 (packNumberOf s1))) as [pr|e].
  2:{ left. exists e. rewrite Hpl in H. injection H as <- <-. split; [reflexivity|].
      split; [|reflexivity]. rewrite calls_addCall, Hc1, <- app_assoc. reflexivity. }
  right. split; [reflexivity|].
  destruct Hpl as (settled & Hset & Hst & Hres).
  exists (callsOf (lineRequest s1 (packNumberOf s1)) settled).
  split; [rewrite endpoint_lines, <- Hset, length_map; reflexivity|].
  destruct (addWhsPackAndLines env lines s1) as [rp s2]. cbn [fst snd] in Hst, Hres.
  assert (Hc2 : calls s2 = calls s ++
            [(headRequest (get "WHLO" s), Fulfilled h);
             (packRequest s1 (packNumberOf s1), Fulfilled pr)] ++
            callsOf (lineRequest s1 (packNumberOf s1)) settled).
  { rewrite Hst, calls_addCalls, Hc1, <- app_assoc. reflexivity. }
  destruct Hres as [[-> Hful]|(a & e & Hin & ->)].
  2:{ left. exists (lineRequest s1 (packNumberOf s1) a, Rejected e), e. cbn [fst snd].
      injection H as <- <-.
      split; [|split; [reflexivity|split; [exact Hc2 | reflexivity]]].
      unfold callsOf. apply list_elem_of_In, in_map_iff. exists (a, Rejected e).
      split; [reflexivity | apply list_elem_of_In; exact Hin]. }
  right. split.
  { unfold callsOf. apply Forall_map. eapply Forall_impl; [exact Hful|].
    intros [a o] (r0 & Ho). cbn [snd] in Ho. subst o. reflexivity. }
  unfold bind at 1 in H. rewrite prcWhsTran_eq in H. cbv zeta in H.
  exists (processRequest (get "MSGN" s2), mi env (calls s2) (processRequest (get "MSGN" s2))).
  assert (Hc3 : forall o, calls (addCall (processRequest (get "MSGN" s2), o) s2) =
            calls s ++
            [(headRequest (get "WHLO" s), Fulfilled h);
             (packRequest s1 (packNumberOf s1), Fulfilled pr)] ++
            callsOf (lineRequest s1 (packNumberOf s1)) settled ++
            [(processRequest (get "MSGN" s2), o)]).
  { intros o. rewrite calls_addCall, Hc2, <- !app_assoc. reflexivity. }
  destruct (mi env (calls s2) (processRequest (get "MSGN" s2))) as [prc|e].
  2:{ exists []. injection H as <- <-. split; [reflexivity|].
      split; [apply Hc3 | constructor]. }
  destruct (itemOf prc).
  2:{ exists []. injection H as <- <-. split; [reflexivity|].
      split; [apply Hc3 | constructor]. }
  destruct (finalStatus_calls env (packNumberOf s1)
              (addCall (processRequest (get "MSGN" s2), Fulfilled prc) s2))
    as (rest & Hrest & HF).
  exists rest. split; [reflexivity|]. split; [|exact HF].
  rewrite H in Hrest. cbn [snd] in Hrest. rewrite Hrest, Hc3, <- !app_assoc. reflexivity.
Qed.

Lemma isTransaction_at p t p' t' c :
  endpoint c = (p', t') -> isTransaction p t c = String.eqb p' p && String.eqb t' t.
Proof. unfold endpoint, isTransaction. intros [= -> ->]. reflexivity. Qed.

Lemma endpoint_replicate (l : list (MIRequest * MIOutcome)) n e :
  map endpoint l = replicate n e -> Forall (fun c => endpoint c = e) l.
Proof.
  revert n. induction l as [|c l IH]; intros [|n] H; try discriminate; [constructor|].
  cbn [map replicate] in H. injection H as Hc Hl. constructor; [exact Hc | eauto].
Qed.

Lemma not_polled cs st :
  Forall (fun c => transaction (fst c) <> "GetWhsHead") cs -> ~ polledStatus cs st.
Proof.
  intros HF (rq & r & it & Hin & Htx & _). rewrite Forall_forall in HF.
  exact (HF _ Hin Htx).
Qed.

(** X21. [process] sends PrcWhsTran, the call that executes the
    receipt, only after the header, the pack and one line per receipt
    line have each been sent and answered, and it sends it at most
    once; only the status poll and the deletions of a rollback come
    after it.  When the header, the pack or a line is rejected, the
    receipt is neither executed nor polled, and [process] fails with
    the rejection of such a call. *)
Theorem receipt_executed_only_when_complete (env : Env) (lines : list Line) (s : State) :
  let r := fst (process env lines s) in
  let s' := snd (process env lines s) in
  exists cs,
    calls s' = calls s ++ cs /\
    (forall c, c ∈ cs -> isProcess c = true ->
       exists pre post,
         cs = pre ++ c :: post /\
         map endpoint pre =
           [("MHS850MI", "AddWhsHead"); ("MHS850MI", "AddWhsPack")] ++
           replicate (List.length lines) ("MHS850MI", "AddWhsLine") /\
         Forall (fun c => fulfilledCall c = true) pre /\
         Forall (fun c => oneOf ["GetWhsHead"; "Del"] (transaction (fst c)) = true) post) /\
    (forall c, c ∈ cs -> isHead c || isPack c || isLine c = true ->
       fulfilledCall c = false ->
       List.filter isProcess cs = [] /\
       (forall st, ~ polledStatus cs st) /\
       exists c' e, c' ∈ cs /\ isHead c' || isPack c' || isLine c' = true /\
                    snd c' = Rejected e /\ r = Throw (RemoteError e)).
Proof.
  intros r s'. subst r s'.
  destruct (process_cases env lines s) as (hc & Hh & Hcases). cbv zeta in Hcases.
  assert (Hhp : isProcess hc = false)
    by (unfold isProcess; rewrite (isTransaction_at _ _ _ _ _ Hh); reflexivity).
  assert (Hhh : isHead hc = true)
    by (unfold isHead; rewrite (isTransaction_at _ _ _ _ _ Hh); reflexivity).
  assert (Hhg : transaction (fst hc) <> "GetWhsHead")
    by (unfold endpoint in Hh; injection Hh as _ ->; discriminate).
  destruct Hcases as [[Hcs Hr]|(Hhf & pc & Hp & Hcases)].
  { exists [hc]. split; [exact Hcs|]. split.
    - intros c Hin Hc. apply list_elem_of_singleton in Hin. subst c. congruence.
    - intros c Hin _ Hf. apply list_elem_of_singleton in Hin. subst c.
      split; [cbn [List.filter]; rewrite Hhp; reflexivity|].
      split; [intros st; apply not_polled; repeat constructor; exact Hhg|].
      unfold fulfilledCall in Hf. destruct (snd hc) as [h|e] eqn:Ho; [discriminate|].
      exists hc, e. split; [left|]. rewrite Hhh. auto. }
  assert (Hpp : isProcess pc = false)
    by (unfold isProcess; rewrite (isTransaction_at _ _ _ _ _ Hp); reflexivity).
  assert (Hpk : isPack pc = true)
    by (unfold isPack; rewrite (isTransaction_at _ _ _ _ _ Hp); reflexivity).
  assert (Hpg : transaction (fst pc) <> "GetWhsHead")
    by (unfold endpoint in Hp; injection Hp as _ ->; discriminate).
  destruct Hcases as [(e & Hpo & Hcs & Hr)|(Hpf & lc & Hl & Hcases)].
  { exists [hc; pc]. split; [exact Hcs|]. split.
    - intros c Hin Hc. apply elem_of_cons in Hin as [->|Hin]; [congruence|].
      apply list_elem_of_singleton in Hin. subst c. congruence.
    - intros c Hin _ Hf.
      split; [cbn [List.filter]; rewrite Hhp, Hpp; reflexivity|].
      split; [intros st; apply not_polled; repeat constructor; assumption|].
      exists pc, e. split; [right; left|]. rewrite Hpk, orb_true_r. auto. }
  pose proof (endpoint_replicate _ _ _ Hl) as Hle.
  assert (Hlp : Forall (fun c => isProcess c = false) lc).
  { eapply Forall_impl; [exact Hle|]. intros c Hc. cbv beta.
    unfold isProcess. rewrite (isTransaction_at _ _ _ _ _ Hc). reflexivity. }
  assert (Hll : Forall (fun c => isLine c = true) lc).
  { eapply Forall_impl; [exact Hle|]. intros c Hc. cbv beta.
    unfold isLine. rewrite (isTransaction_at _ _ _ _ _ Hc). reflexivity. }
  assert (Hlg : Forall (fun c => transaction (fst c) <> "GetWhsHead") lc).
  { eapply Forall_impl; [exact Hle|]. intros c Hc. cbv beta.
    unfold endpoint in Hc. injection Hc as _ ->. discriminate. }
  destruct Hcases as [(c0 & e & Hin0 & Hc0 & Hcs & Hr)|(Hlf & xc & rest & Hx & Hcs & Hrest)].
  { exists ([hc; pc] ++ lc). split; [exact Hcs|]. split.
    - intros c Hin Hc. exfalso. cbn [app] in Hin.
      apply elem_of_cons in Hin as [->|Hin]; [congruence|].
      apply elem_of_cons in Hin as [->|Hin]; [congruence|].
      rewrite Forall_forall in Hlp. specialize (Hlp _ Hin). congruence.
    - intros c Hin _ Hf.
      split.
      { cbn [app List.filter]. rewrite Hhp, Hpp. apply filter_none. exact Hlp. }
      split.
      { intros st. apply not_polled. cbn [app]. repeat (constructor; [assumption|]).
        exact Hlg. }
      exists c0, e. split; [cbn [app]; right; right; exact Hin0|].
      rewrite Forall_forall in Hll. rewrite (Hll _ Hin0), orb_true_r. auto. }
  assert (Hrp : Forall (fun c => isProcess c = false) rest).
  { eapply Forall_impl; [exact Hrest|]. intros c Hc. cbv beta.
    apply (isTransaction_other ["GetWhsHead"; "Del"]); [reflexivity | exact Hc]. }
  exists ([hc; pc] ++ lc ++ xc :: rest). split; [exact Hcs|]. split.
  - intros c Hin Hc. exists ([hc; pc] ++ lc), rest.
    assert (c = xc) as ->.
    { cbn [app] in Hin.
      apply elem_of_cons in Hin as [->|Hin]; [congruence|].
      apply elem_of_cons in Hin as [->|Hin]; [congruence|].
      apply elem_of_app in Hin as [Hin|Hin].
      { rewrite Forall_forall in Hlp. specialize (Hlp _ Hin). congruence. }
      apply elem_of_cons in Hin as [->|Hin]; [reflexivity|].
      rewrite Forall_forall in Hrp. specialize (Hrp _ Hin). congruence. }
    split; [rewrite <- app_assoc; reflexivity|]. split.
    { rewrite map_app, Hl. cbn [map app]. rewrite Hh, Hp. reflexivity. }
    split; [|exact Hrest].
    cbn [app]. repeat (constructor; [assumption|]). exact Hlf.
  - intros c Hin Hc Hf. exfalso. cbn [app] in Hin.
    apply elem_of_cons in Hin as [->|Hin]; [congruence|].
    apply elem_of_cons in Hin as [->|Hin]; [congruence|].
    apply elem_of_app in Hin as [Hin|Hin].
    { rewrite Forall_forall in Hlf. specialize (Hlf _ Hin). congruence. }
    apply elem_of_cons in Hin as [->|Hin].
    { unfold isHead, isPack, isLine in Hc.
      rewrite !(isTransaction_at _ _ _ _ _ Hx) in Hc. discriminate Hc. }
    rewrite Forall_forall in Hrest. specialize (Hrest _ Hin).
    unfold isHead, isPack, isLine in Hc.
    rewrite !(isTransaction_other ["GetWhsHead"; "Del"] _ _ c) in Hc
      by (reflexivity || exact Hrest).
    discriminate Hc.
Qed.

(** ** The warnings *)


(** ** The equipment records of a receipt *)

Lemma addRequest_lookup env st x k v :
  In (k, v)
    [("ITNO", get "ITNO" st); ("SERN", Some x); ("STAT", Some "20");
     ("CUNO", get "CUNO" st); ("PUPR", get "PUPR" st); ("CUCD", get "CUCD" st);
     ("PPDT", Some (today env)); ("FACI", get "FACI" st);
     ("CUOW", get "CUNO" st); ("OWTP", Some "0"); ("PUNO", get "PUNO" st);
     ("PNLI", get "PNLI" st); ("PNLS", get "PNLS" st); ("ALII", get "ITDS" st)] ->
  record (addRequest env st x) !! k = v.
Proof.
  intros H. unfold addRequest.
  apply mkRequest_lookup; [apply nodup_keys; vm_compute; reflexivity | exact H].
Qed.

(** The customer number after the look-ups: the one of the customer
    order for a drop-ship line, else as before. *)
Lemma lookups_customer env s s' :
  lookups env s = (Ok tt, s') ->
  if isDropShip s
  then exists rq resp it,
         (rq, Fulfilled resp) ∈ calls s' /\
         endpoint (rq, Fulfilled resp) = ("OIS100MI", "GetOrderHead") /\
         record rq !! "ORNO" = get "RORN" s /\
         itemOf resp = Some it /\ get "CUNO" s' = it !! "CUNO"
  else get "CUNO" s' = get "CUNO" s.
Proof.
  intros H. unfold lookups in H. exec H; injection H as <-.
  all: unfold isDropShip;
    match goal with Hd : _ && truthy _ = _ |- _ => rewrite Hd end.
  all: try (norm; reflexivity).
  all: match goal with
       | Hm : mi _ _ (mkRequest "OIS100MI" _ _ _) = Fulfilled ?r, Hi : itemOf ?r = Some ?it |- _ =>
           eexists _, r, it; split; [norm; apply elem_of_app; right; left|];
           split; [reflexivity|]; split; [request_lookup|]; split; [exact Hi|];
           norm; reflexivity
       end.
Qed.

Lemma wms_steps env s :
  calls (snd (warnings env s)) = calls s /\ this (snd (warnings env s)) = this s.
Proof.
  split; [|apply warnings_this].
  exact (warnings_respects env (keeps calls) none none (keeps_calls_tolerates _ _) s).
Qed.

Lemma prelude_customer env s1 :
  (fetchSteps env ;; warnings env) initial = (Ok tt, s1) ->
  if isDropShip s1
  then exists rq resp it,
         (rq, Fulfilled resp) ∈ calls s1 /\
         endpoint (rq, Fulfilled resp) = ("OIS100MI", "GetOrderHead") /\
         record rq !! "ORNO" = get "RORN" s1 /\
         itemOf resp = Some it /\ get "CUNO" s1 = it !! "CUNO"
  else get "CUNO" s1 = None.
Proof.
  intros H. destruct (prelude_steps env s1 H) as (s2 & s3 & Hmiss & Hpo & Hlk & Hw).
  rewrite validateFields_eq in Hpo. cbn [snd] in Hpo.
  match type of Hpo with
  | getPOLine env ?st = _ => set (sv := st) in *
  end.
  destruct (lookups_keeps env s2 s3 Hlk) as (Hk3 & _).
  pose proof (lookups_customer env s2 s3 Hlk) as Hcust.
  destruct (wms_steps env s3) as (Hc & Hthis).
  rewrite Hw in Hc, Hthis. cbn [snd] in Hc, Hthis.
  assert (Hg : forall k, get k s1 = get k s3)
    by (intros k; unfold get; rewrite Hthis; reflexivity).
  assert (Hnin : forall (k : string) (l : list string),
            forallb (fun x => negb (String.eqb k x)) l = true -> k ∉ l).
  { intros k l. induction l as [|x l IH]; cbn [forallb]; intros Hf Hin.
    - inversion Hin.
    - apply andb_true_iff in Hf as [Hx Hf].
      apply elem_of_cons in Hin as [->|Hin]; [|exact (IH Hf Hin)].
      rewrite String.eqb_refl in Hx. discriminate. }
  assert (Hds : isDropShip s1 = isDropShip s2).
  { unfold isDropShip. rewrite !Hg, !Hk3 by (apply Hnin; reflexivity). reflexivity. }
  rewrite Hds. destruct (isDropShip s2).
  - destruct Hcust as (rq & resp & it & Hin & He & Ho & Hi & Hcu).
    exists rq, resp, it. rewrite Hc, Hg, Hg, (Hk3 "RORN") by (apply Hnin; reflexivity).
    auto.
  - rewrite Hg, Hcust.
    rewrite (getPOLine_keeps env sv s2 "CUNO" Hpo) by (apply Hnin; reflexivity).
    unfold sv. norm. reflexivity.
Qed.

(** The creations of a run that ends with the success dialog. *)
Lemma success_add env s1 c :
  (fetchSteps env ;; warnings env) initial = (Ok tt, s1) ->
  reported (snd (run env initial)) = Some SuccessDialog ->
  c ∈ calls (snd (run env initial)) ->
  isAdd c = true ->
  jsEq (get "INDI" s1) "2" = true /\
  returnsRecord (snd c) = true /\
  exists entries serials serial,
    In (ClickSave entries) (serialClicks env) /\
    saveSerials (num (get "RVQA" s1)) entries = Resolved serials /\
    serial ∈ serials /\
    fst c = addRequest env s1 serial.
Proof.
  intros Hpre Hrep Hin Ha.
  destruct (success_trace env s1 Hpre Hrep)
    as (pre & lines & settled & msgn & h & o1 & prc & sr & Hne & Hcs & Hset & _ & Hpoll & Hbr).
  cbv zeta in Hcs. rewrite Hcs in Hin.
  apply elem_of_app in Hin as [Hin|Hin].
  { exfalso. pose proof (prelude_calls env s1 _ Hpre) as HF.
    rewrite Forall_forall in HF. specialize (HF c Hin). unfold isAdd in Ha.
    rewrite (isTransaction_other fetchTransactions _ _ c) in Ha
      by (reflexivity || exact HF). discriminate Ha. }
  apply elem_of_app in Hin as [Hin|Hin].
  2:{ exfalso.
      apply elem_of_app in Hin as [Hin|Hin].
      { apply elem_of_cons in Hin as [->|Hin]; [discriminate Ha|].
        apply list_elem_of_singleton in Hin. subst c. discriminate Ha. }
      apply elem_of_app in Hin as [Hin|Hin].
      { apply elem_of_callsOf in Hin as (a & o & _ & ->). discriminate Ha. }
      apply elem_of_cons in Hin as [->|Hin]; [discriminate Ha|].
      apply list_elem_of_singleton in Hin. subst c. discriminate Ha. }
  destruct (jsEq (get "INDI" s1) "2"); [|destruct (jsEq (get "INDI" s1) "3")].
  - destruct Hbr as (entries & serials & checked & added & Hclick & Hsave & _ & Had & Hrec &
                     -> & _).
    apply elem_of_app in Hin as [Hin|Hin].
    { apply elem_of_callsOf in Hin as (a & o & _ & ->). discriminate Ha. }
    apply elem_of_callsOf in Hin as (x & o & Hin & ->).
    split; [reflexivity|]. split.
    { rewrite Forall_forall in Hrec. exact (Hrec _ Hin). }
    exists entries, serials, x. split; [exact Hclick|]. split; [exact Hsave|].
    split; [|reflexivity].
    rewrite <- Had. apply list_elem_of_In, in_map_iff. exists (x, o).
    split; [reflexivity | apply list_elem_of_In; exact Hin].
  - destruct Hbr as (lot & expi & check & -> & _).
    apply list_elem_of_singleton in Hin. subst c. discriminate Ha.
  - destruct Hbr as (-> & _). inversion Hin.
Qed.

(** X23. In a run that ends with the success dialog every equipment
    record was created (MMS240MI Add) for a serial-controlled item,
    with a serial that a Save of the serial dialog accepted, and the
    call brought a record back.  The record holds status '20', owner
    type '0', today's date as purchase date, and the item, order
    number, line and subline of the screen.  Customer and owner are
    the same: for a drop-ship line the customer number that the
    look-up of the customer order brought, and otherwise none at
    all. *)
Theorem equipment_records_of_a_receipt (env : Env) (s1 : State)
    (c : MIRequest * MIOutcome) :
  (fetchSteps env ;; warnings env) initial = (Ok tt, s1) ->
  reported (snd (run env initial)) = Some SuccessDialog ->
  c ∈ calls (snd (run env initial)) ->
  isAdd c = true ->
  let r := record (fst c) in
  jsEq (get "INDI" s1) "2" = true /\
  returnsRecord (snd c) = true /\
  (exists entries serials serial,
     In (ClickSave entries) (serialClicks env) /\
     saveSerials (num (get "RVQA" s1)) entries = Resolved serials /\
     serial ∈ serials /\ fieldViolation serial = None /\
     r !! "SERN" = Some serial) /\
  r !! "STAT" = Some "20" /\ r !! "OWTP" = Some "0" /\
  r !! "PPDT" = Some (today env) /\
  r !! "ITNO" = fieldValue env "ITNO" /\
  r !! "PUNO" = fieldValue env "WWPUNO" /\
  r !! "PNLI" = fieldValue env "PNLI" /\
  r !! "PNLS" = fieldValue env "PNLS" /\
  r !! "CUOW" = r !! "CUNO" /\
  (if isDropShip s1
   then exists rq resp it,
          (rq, Fulfilled resp) ∈ calls s1 /\
          endpoint (rq, Fulfilled resp) = ("OIS100MI", "GetOrderHead") /\
          record rq !! "ORNO" = get "RORN" s1 /\
          itemOf resp = Some it /\ r !! "CUNO" = it !! "CUNO"
   else r !! "CUNO" = None).
Proof.
  intros Hpre Hrep Hin Ha r.
  destruct (success_add env s1 c Hpre Hrep Hin Ha)
    as (Hindi & Hrec & entries & serials & x & Hclick & Hsave & Hx & Hc).
  destruct (prelude_screen env s1 Hpre) as (Hm & _ & _).
  unfold mandatory in Hm.
  repeat (apply Forall_cons in Hm as [[?H ?H] Hm]). cbn [fst snd] in *.
  pose proof (prelude_customer env s1 Hpre) as Hcust.
  destruct (violations_valid_batch _ _ _ Hsave) as (_ & Hvalid & _).
  rewrite Forall_forall in Hvalid.
  subst r. rewrite Hc.
  assert (Ecuno : record (addRequest env s1 x) !! "CUNO" = get "CUNO" s1)
    by (apply addRequest_lookup; cbn [In]; tauto).
  split; [exact Hindi|]. split; [exact Hrec|]. split.
  { exists entries, serials, x. repeat (split; [auto|]).
    apply addRequest_lookup; cbn [In]; tauto. }
  split; [apply addRequest_lookup; cbn [In]; tauto|].
  split; [apply addRequest_lookup; cbn [In]; tauto|].
  split; [apply addRequest_lookup; cbn [In]; tauto|].
  split.
  { apply addRequest_lookup; cbn [In].
    match goal with Hq : get "ITNO" s1 = _ |- _ => rewrite Hq end. tauto. }
  split.
  { apply addRequest_lookup; cbn [In].
    match goal with Hq : get "PUNO" s1 = _ |- _ => rewrite Hq end. tauto. }
  split.
  { apply addRequest_lookup; cbn [In].
    match goal with Hq : get "PNLI" s1 = _ |- _ => rewrite Hq end. tauto. }
  split.
  { apply addRequest_lookup; cbn [In].
    match goal with Hq : get "PNLS" s1 = _ |- _ => rewrite Hq end. tauto. }
  split.
  { rewrite Ecuno. apply addRequest_lookup; cbn [In]; tauto. }
  rewrite Ecuno. exact Hcust.
Qed.

Lemma equipment_records_of_a_receipt_witness :
  let env := Demo.env "3" "2" "10" "" "" "90" Proceed
               [ClickSave ["A"; "B"; "A"]; ClickSave ["A"; " B "; "C"]] [1; 0] in
  let s1 := snd ((fetchSteps env ;; warnings env) initial) in
  exists c, nth_error (calls (snd (run env initial))) 9 = Some c /\
    let r := record (fst c) in
    jsEq (get "INDI" s1) "2" = true /\
    returnsRecord (snd c) = true /\
    (exists entries serials serial,
       In (ClickSave entries) (serialClicks env) /\
       saveSerials (num (get "RVQA" s1)) entries = Resolved serials /\
       serial ∈ serials /\ fieldViolation serial = None /\
       r !! "SERN" = Some serial) /\
    r !! "STAT" = Some "20" /\ r !! "OWTP" = Some "0" /\
    r !! "PPDT" = Some (today env) /\
    r !! "ITNO" = fieldValue env "ITNO" /\
    r !! "PUNO" = fieldValue env "WWPUNO" /\
    r !! "PNLI" = fieldValue env "PNLI" /\
    r !! "PNLS" = fieldValue env "PNLS" /\
    r !! "CUOW" = r !! "CUNO" /\
    (if isDropShip s1
     then exists rq resp it,
            (rq, Fulfilled resp) ∈ calls s1 /\
            endpoint (rq, Fulfilled resp) = ("OIS100MI", "GetOrderHead") /\
            record rq !! "ORNO" = get "RORN" s1 /\
            itemOf resp = Some it /\ r !! "CUNO" = it !! "CUNO"
     else r !! "CUNO" = None).
Proof.
  intros env s1.
  destruct (nth_error (calls (snd (run env initial))) 9) as [c|] eqn:E;
    [|vm_compute in E; discriminate E].
  exists c. split; [reflexivity|].
  apply (equipment_records_of_a_receipt env s1 c).
  - vm_compute; reflexivity.
  - vm_compute; reflexivity.
  - apply list_elem_of_In. eapply nth_error_In. exact E.
  - vm_compute in E. injection E as <-. vm_compute. reflexivity.
Defined.
